(** * AI Debate Chamber: orchestration, playback and scoring of [App.tsx]

    A shallow embedding of the debate orchestration of [src/App.tsx]
    (the component that declares [debateTurns] and [scoreWeights]):
    the score aggregator [calculateFinalScore] with the verdict of
    [handleVote], the streamed-text reducer and turn sequencer of
    [runDebate] (part 1), the post-debate analysis (part 2) and the
    playback loop with its two interrupt handlers (part 3). *)

From Stdlib Require Import ZArith QArith Qround Qabs Qpower Ascii String List
  Bool Lia SpecFloat.
From stdpp Require Import base gmap list strings.

Local Open Scope Z_scope.

(** ** JavaScript numbers

    A JavaScript [number] is an IEEE 754 binary64 value.  It is modelled by
    the [spec_float] of the standard library at precision 53 and maximal
    exponent 1024, with the library's correctly rounded operations. *)

Module Num.

Definition prec : Z := 53.
Definition emax : Z := 1024.

Definition number : Type := spec_float.

Definition zero : number := S754_zero false.

(** [x + y] and [x * y] on numbers. *)
Definition add (x y : number) : number := SFadd prec emax x y.
Definition mul (x y : number) : number := SFmul prec emax x y.

(** [x > y], [x < y] and [x === y] on numbers. *)
Definition gt (x y : number) : bool := SFltb y x.
Definition lt (x y : number) : bool := SFltb x y.
Definition eq (x y : number) : bool := SFeqb x y.
Definition le (x y : number) : bool := SFleb x y.

(** An integer as the operand of a division: sign, magnitude and the
    exponent 0, not normalized. *)
Definition ofZ (n : Z) : number :=
  match n with
  | Z0 => S754_zero false
  | Zpos p => S754_finite false p 0
  | Zneg p => S754_finite true p 0
  end.

(** The number a decimal literal [n / d] denotes: the binary64 value
    nearest to the quotient (ties to even). *)
Definition lit (n : Z) (d : positive) : number :=
  SFdiv prec emax (ofZ n) (ofZ (Zpos d)).

(** Truthiness of a number in a condition: everything but [0], [-0]
    and [NaN]. *)
Definition truthy (x : number) : bool :=
  match x with
  | S754_zero _ | S754_nan => false
  | _ => true
  end.

Definition is_nan (x : number) : bool :=
  match x with S754_nan => true | _ => false end.

(** The values a JavaScript number can take: the canonical binary64
    representations. *)
Definition valid (x : number) : bool := valid_binary prec emax x.

(** *** [Number.prototype.toFixed(2)] followed by [parseFloat]

    [toFixed(2)] prints ["NaN"], ["Infinity"] or ["-Infinity"] for the
    values that are not finite, the shortest round-trip notation when the
    magnitude is at least [10^21], and otherwise the sign and the integer
    [n] of hundredths for which [n / 100 - |x|] is closest to zero, the
    larger [n] on a tie. *)
Inductive fixed : Type :=
| FixedNaN
| FixedInfinity (neg : bool)
| FixedExponential (x : number)
| FixedDecimal (neg : bool) (hundredths : Z).

(** The integer nearest to [100 * m * 2^e], the larger one on a tie. *)
Definition hundredths_of (m : positive) (e : Z) : Z :=
  match e with
  | Zneg p => (200 * Zpos m + 2 ^ Zpos p) / (2 * 2 ^ Zpos p)
  | _ => 100 * Zpos m * 2 ^ e
  end.

(** [10^21 <= m * 2^e] *)
Definition at_least_1e21 (m : positive) (e : Z) : bool :=
  match e with
  | Zneg p => 10 ^ 21 * 2 ^ Zpos p <=? Zpos m
  | _ => 10 ^ 21 <=? Zpos m * 2 ^ e
  end.

Definition toFixed2 (x : number) : fixed :=
  match x with
  | S754_nan => FixedNaN
  | S754_infinity s => FixedInfinity s
  | S754_zero _ => FixedDecimal false 0
  | S754_finite s m e =>
      if at_least_1e21 m e then FixedExponential x
      else FixedDecimal s (hundredths_of m e)
  end.

Definition parseFloat (s : fixed) : number :=
  match s with
  | FixedNaN => S754_nan
  | FixedInfinity neg => S754_infinity neg
  | FixedExponential x => x
  | FixedDecimal neg h =>
      if h =? 0 then S754_zero neg
      else SFdiv prec emax (ofZ (if neg then - h else h)) (ofZ 100)
  end.

End Num.

Import Num.

(** ** Strings

    Criterion names are strings of UTF-16 code units.  The model covers the
    code units below 256 (Latin-1): one character of a Rocq [string] is one
    code unit.  On these [toLowerCase] works code unit by code unit;
    criteria with other code units, some of which lowercase to an ASCII
    letter (U+212A) or to a letter followed by a combining mark (U+0130),
    are outside the model. *)

Module Str.

Definition code (c : ascii) : nat := nat_of_ascii c.

Definition between (lo hi n : nat) : bool :=
  (Nat.leb lo n && Nat.leb n hi)%bool.

(** [String.prototype.toLowerCase] on one code unit: [A]-[Z] and the
    capital letters U+00C0-U+00DE other than the sign U+00D7 move up by
    32; everything else stays. *)
Definition lower_char (c : ascii) : ascii :=
  let n := code c in
  if (between 65 90 n || (between 192 222 n && negb (Nat.eqb n 215)))%bool
  then ascii_of_nat (n + 32) else c.

Fixpoint toLowerCase (s : string) : string :=
  match s with
  | EmptyString => EmptyString
  | String c r => String (lower_char c) (toLowerCase r)
  end.

(** The class [\w]: letters, digits and the underscore. *)
Definition is_word (c : ascii) : bool :=
  let n := code c in
  (between 48 57 n || between 65 90 n || between 97 122 n || Nat.eqb n 95)%bool.

(** The class [\s]: tab, line feed, vertical tab, form feed, carriage
    return, space and the no-break space. *)
Definition is_space (c : ascii) : bool :=
  let n := code c in
  (between 9 13 n || Nat.eqb n 32 || Nat.eqb n 160)%bool.

(** [s.replace(/[^\w\s]/gi, '')]: every character outside both classes
    is removed. *)
Fixpoint strip_non_word_space (s : string) : string :=
  match s with
  | EmptyString => EmptyString
  | String c r =>
      if (is_word c || is_space c)%bool
      then String c (strip_non_word_space r)
      else strip_non_word_space r
  end.

(** A non-empty string is truthy. *)
Definition truthy (s : string) : bool :=
  match s with EmptyString => false | _ => true end.

End Str.

(** ** Types of [types.ts] *)

Inductive AIPersona : Type := Logos | Pathos.

Inductive DebatePhase : Type :=
| IDLE | ANALYZING | DEBATING | VOTING | SCORING | FINISHED.

Record Score : Type := mkScore {
  criteria : string;
  score : number;
  notes : string
}.

Inductive Winner : Type := WinnerIs (p : AIPersona) | TIE.

Record DebateScore : Type := mkDebateScore {
  scoresLogos : list Score;
  scoresPathos : list Score;
  finalLogos : number;
  finalPathos : number;
  winner : Winner
}.

(** ** Score aggregator *)

(** The object literal [scoreWeights], its keys in insertion order. *)
Definition scoreWeights : list (string * number) :=
  [ ("Positioning"%string, Num.lit 10 100);
    ("Argument"%string, Num.lit 20 100);
    ("Evidence"%string, Num.lit 20 100);
    ("Refutation"%string, Num.lit 15 100);
    ("Coverage"%string, Num.lit 10 100);
    ("Ethics"%string, Num.lit 10 100);
    ("Clarity"%string, Num.lit 10 100);
    ("Tone"%string, Num.lit 5 100) ].

Definition Object_keys {V : Type} (o : list (string * V)) : list string :=
  map fst o.

(** [o[k]]: the value of the first property named [k], [undefined] if
    there is none. *)
Fixpoint get {V : Type} (o : list (string * V)) (k : string) : option V :=
  match o with
  | [] => None
  | (k', v) :: r => if String.eqb k' k then Some v else get r k
  end.

(** The key of [scoreWeights] that [calculateFinalScore] finds for a
    criterion. *)
Definition weightKeyOf (c : string) : option string :=
  List.find
    (fun key => String.eqb (Str.toLowerCase key)
                  (Str.strip_non_word_space (Str.toLowerCase c)))
    (Object_keys scoreWeights).

(** The body of the [forEach] callback: the new value of [total]. *)
Definition addScoreItem (total : number) (scoreItem : Score) : number :=
  match weightKeyOf (criteria scoreItem) with
  | Some weightKey =>
      match get scoreWeights weightKey with
      | Some w =>
          if (Str.truthy weightKey && Num.truthy w)%bool
          then Num.add total (Num.mul (score scoreItem) w)
          else total
      | None => total
      end
  | None => total
  end.

Definition calculateFinalScore (scores : list Score) : number :=
  let total := fold_left addScoreItem scores Num.zero in
  Num.parseFloat (Num.toFixed2 total).

(** The verdict [handleVote] computes from the two final scores. *)
Definition computeWinner (logosFinal pathosFinal : number) : Winner :=
  if Num.gt logosFinal pathosFinal then WinnerIs Logos
  else if Num.gt pathosFinal logosFinal then WinnerIs Pathos
  else TIE.

(** The [DebateScore] that [handleVote] stores once the judge has
    answered with [rawLogos] and [rawPathos]. *)
Definition verdict (rawLogos rawPathos : list Score) : DebateScore :=
  let logosFinal := calculateFinalScore rawLogos in
  let pathosFinal := calculateFinalScore rawPathos in
  {| scoresLogos := rawLogos;
     scoresPathos := rawPathos;
     finalLogos := logosFinal;
     finalPathos := pathosFinal;
     winner := computeWinner logosFinal pathosFinal |}.

Definition five : number := Num.lit 5 1.

(** The eight rubric items of one side, in rubric order, every raw score
    [5], with the judge's notes left free. *)
Definition rubricAllFive (notesOf : string -> string) : list Score :=
  map (fun k => mkScore k five (notesOf k)) (Object_keys scoreWeights).

(** ** Messages and the streamed response *)

Inductive Speaker : Type := Persona (p : AIPersona) | SYSTEM.

Record Source : Type := mkSource { uri : string; title : string }.

Record DebateMessage : Type := mkMessage {
  persona : Speaker;
  text : string;
  isStreaming : option bool;
  sources : option (list Source)
}.

(** The part of a streamed response chunk that [runDebate] reads:
    [chunk.text], which is [undefined] for a chunk without a text part,
    and [chunk.candidates?.[0]?.groundingMetadata?.groundingChunks], each
    grounding chunk with an optional [web] source whose [uri] and [title]
    are optional too. *)
Module Gen.

Record Web : Type := mkWeb { uri : option string; title : option string }.

Record GroundingChunk : Type := mkGroundingChunk { web : option Web }.

Record GroundingMetadata : Type := mkGroundingMetadata {
  groundingChunks : option (list GroundingChunk)
}.

Record Candidate : Type := mkCandidate {
  groundingMetadata : option GroundingMetadata
}.

Record Chunk : Type := mkChunk {
  text : option string;          (* [undefined] without a text part *)
  candidates : option (list Candidate)
}.

(** What the async iterable of one turn delivers: its chunks in arrival
    order, then either the end of the stream or a thrown error. *)
Record Stream : Type := mkStream {
  chunks : list Chunk;
  failure : option string
}.

End Gen.

(** [chunk.candidates?.[0]?.groundingMetadata?.groundingChunks] *)
Definition groundingChunksOf (chunk : Gen.Chunk)
  : option (list Gen.GroundingChunk) :=
  match Gen.candidates chunk with
  | Some (c0 :: _) =>
      match Gen.groundingMetadata c0 with
      | Some md => Gen.groundingChunks md
      | None => None
      end
  | _ => None
  end.

(** ** The streamed-text reducer: the body of [for await (const chunk of
    stream)] *)

Record Reducer : Type := mkReducer {
  fullText : string;
  collected : list Source;      (* the array [sources] *)
  sourceUris : gset string
}.

Definition newReducer : Reducer :=
  {| fullText := ""; collected := []; sourceUris := ∅ |}.

(** [source.title || source.uri] *)
Definition titleOr (t : option string) (u : string) : string :=
  match t with
  | Some t' => if Str.truthy t' then t' else u
  | None => u
  end.

Definition addGroundingChunk (r : Reducer) (g : Gen.GroundingChunk)
  : Reducer :=
  match Gen.web g with
  | Some source =>
      match Gen.uri source with
      | Some u =>
          if (Str.truthy u && negb (bool_decide (u ∈ sourceUris r)))%bool
          then {| fullText := fullText r;
                  collected := collected r
                               ++ [mkSource u (titleOr (Gen.title source) u)];
                  sourceUris := {[u]} ∪ sourceUris r |}
          else r
      | None => r
      end
  | None => r
  end.

(** What [fullText += chunk.text] appends: the text of the chunk, and the
    string ["undefined"] for a chunk without a text part. *)
Definition appendedText (chunk : Gen.Chunk) : string :=
  match Gen.text chunk with
  | Some t => t
  | None => "undefined"
  end.

Definition consumeChunk (r : Reducer) (chunk : Gen.Chunk) : Reducer :=
  let r1 := {| fullText := fullText r ++ appendedText chunk;
               collected := collected r;
               sourceUris := sourceUris r |} in
  match groundingChunksOf chunk with
  | Some gcs => fold_left addGroundingChunk gcs r1
  | None => r1
  end.

Definition reduceStream (cs : list Gen.Chunk) : Reducer :=
  fold_left consumeChunk cs newReducer.

(** [sources.length > 0 ? sources : undefined] *)
Definition sourcesOrUndefined (l : list Source) : option (list Source) :=
  match l with [] => None | _ => Some l end.

Definition finalMessage (p : AIPersona) (r : Reducer) : DebateMessage :=
  {| persona := Persona p; text := fullText r; isStreaming := Some false;
     sources := sourcesOrUndefined (collected r) |}.

(** ** The turn sequencer: part 1 of [runDebate] *)

Record Turn : Type := mkTurn { turnPersona : AIPersona; stage : string }.

Definition debateTurns : list Turn :=
  [ mkTurn Logos "OPENING"; mkTurn Pathos "OPENING";
    mkTurn Logos "REBUTTAL"; mkTurn Pathos "REBUTTAL";
    mkTurn Logos "CLOSING"; mkTurn Pathos "CLOSING" ].

(** One call of [generateDebateTurnStream]. *)
Record TurnRequest : Type := mkTurnRequest {
  reqHistory : list DebateMessage;
  reqPersona : AIPersona;
  reqSide : string;
  reqStage : string;
  reqQuestion : string
}.

(** The variables of part 1: the two arrays the loop appends to, the
    React state [messages], and the calls made so far. *)
Record Script : Type := mkScript {
  generatedMessages : list DebateMessage;
  currentHistory : list DebateMessage;
  messages : list DebateMessage;
  requests : list TurnRequest
}.

Section TurnSequencer.

(** The capability: the stream the service answers a request with. *)
Variable generateDebateTurnStream : TurnRequest -> Gen.Stream.

Variable systemMessages : list DebateMessage.
Variable currentSides : AIPersona -> string.
Variable currentQuestion : string.

(** The update of [messages] after each chunk:
    [newMessages[placeholderIndex] = { ...newMessages[placeholderIndex],
    text: fullText, sources: ... }]. *)
Definition showProgress (placeholderIndex : nat) (r : Reducer)
    (msgs : list DebateMessage) : list DebateMessage :=
  alter (fun m => {| persona := persona m; text := fullText r;
                     isStreaming := isStreaming m;
                     sources := sourcesOrUndefined (collected r) |})
    placeholderIndex msgs.

(** The [for await] loop: the reducer and [messages] after the chunks. *)
Fixpoint consumeStream (placeholderIndex : nat) (cs : list Gen.Chunk)
    (r : Reducer) (msgs : list DebateMessage)
  : Reducer * list DebateMessage :=
  match cs with
  | [] => (r, msgs)
  | chunk :: rest =>
      let r' := consumeChunk r chunk in
      consumeStream placeholderIndex rest r'
        (showProgress placeholderIndex r' msgs)
  end.

(** One iteration of [for (const turn of debateTurns)]: the new state, or
    the state at the moment the stream threw, with the error. *)
Definition runTurn (st : Script) (turn : Turn)
  : Script + (Script * string) :=
  let side := currentSides (turnPersona turn) in
  let tempMessage :=
    {| persona := Persona (turnPersona turn); text := "...";
       isStreaming := Some true; sources := None |} in
  let placeholderIndex :=
    (length systemMessages + length (generatedMessages st))%nat in
  let req := mkTurnRequest (currentHistory st) (turnPersona turn) side
               (stage turn) currentQuestion in
  let stream := generateDebateTurnStream req in
  let '(r, msgs) :=
    consumeStream placeholderIndex (Gen.chunks stream) newReducer
      (messages st ++ [tempMessage]) in
  match Gen.failure stream with
  | Some err =>
      inr ({| generatedMessages := generatedMessages st;
              currentHistory := currentHistory st;
              messages := msgs;
              requests := requests st ++ [req] |}, err)
  | None =>
      let final := finalMessage (turnPersona turn) r in
      inl {| generatedMessages := generatedMessages st ++ [final];
             currentHistory := currentHistory st ++ [final];
             messages := <[placeholderIndex := final]> msgs;
             requests := requests st ++ [req] |}
  end.

Fixpoint runTurns (turns : list Turn) (st : Script)
  : Script + (Script * string) :=
  match turns with
  | [] => inl st
  | turn :: rest =>
      match runTurn st turn with
      | inl st' => runTurns rest st'
      | inr e => inr e
      end
  end.

(** The state part 1 starts from: [handleStartDebate] has just set
    [messages] to the three system messages. *)
Definition startScript : Script :=
  {| generatedMessages := []; currentHistory := systemMessages;
     messages := systemMessages; requests := [] |}.

Definition generateScript : Script + (Script * string) :=
  runTurns debateTurns startScript.

(** The request a turn issues from a state. *)
Definition requestOf (st : Script) (turn : Turn) : TurnRequest :=
  mkTurnRequest (currentHistory st) (turnPersona turn)
    (currentSides (turnPersona turn)) (stage turn) currentQuestion.

(** The message a request ends in when its stream completes. *)
Definition messageOf (req : TurnRequest) : DebateMessage :=
  finalMessage (reqPersona req)
    (reduceStream (Gen.chunks (generateDebateTurnStream req))).

(** The state the loop body keeps between turns: both arrays are the
    system messages followed by the messages generated so far. *)
Definition aligned (st : Script) : Prop :=
  currentHistory st = systemMessages ++ generatedMessages st
  /\ messages st = systemMessages ++ generatedMessages st
  /\ generatedMessages st = map messageOf (requests st).

End TurnSequencer.
(** ** Post-debate analysis and playback: parts 2 and 3 of [runDebate] *)

Record Summary : Type := mkSummary {
  logosSummary : list string;
  pathosSummary : list string
}.

Record ArgumentComparison : Type := mkComparison {
  topic : string;
  logosStance : string;
  pathosStance : string
}.

(** How a promise settles. *)
Inductive Settled (A : Type) : Type :=
| Fulfilled (value : A)
| Rejected (message : string).

Arguments Fulfilled {A} value.
Arguments Rejected {A} message.

(** The value of the interrupt promise: ['turn'] or ['voting']. *)
Inductive Interrupt : Type := toTurn | toVoting.

(** The suspension points of the playback loop: the race of line 545 and
    the race of line 563 of turn [i]; [Returned] once [runDebate] has
    returned or thrown. *)
Inductive Pc : Type :=
| AwaitAudio (i : nat)
| AwaitPlay (i : nat)
| Returned.

(** The calls the playback pipeline makes to its capabilities. *)
Inductive Effect : Type :=
| SpeechRequested (i : nat)     (* [generateSpeech] for turn [i] *)
| SourceStarted (i : nat)       (* [source.start()] for turn [i] *)
| SourceStopped (i : nat).      (* [source.stop()] on turn [i]'s source *)

#[global] Instance Effect_eq_dec : EqDecision Effect.
Proof. solve_decision. Defined.

#[global] Instance Pc_eq_dec : EqDecision Pc.
Proof. solve_decision. Defined.

Record App : Type := mkApp {
  (* React state *)
  phase : DebatePhase;
  error : option string;
  statusText : string;
  speakingMessageIndex : option nat;
  summary : option Summary;
  comparison : option (list ArgumentComparison);
  (* refs; a resolver and a buffer source are named by their turn *)
  isSkippedRef : bool;
  skipTrigger : option nat;
  currentAudioSourceRef : option nat;
  audioContextRef : bool;
  (* the lines of [console.error] that the component prints itself, and
     those of a service that is modelled with its [catch] ([guarded]) where
     a handler calls it; what the services of [runDebate], which are given
     by their outcome, print on their own is not recorded *)
  console : list string;
  (* where [runDebate] is suspended *)
  pc : Pc;
  (* promises of the environment that have not settled *)
  speechPending : list nat;
  decoding : list nat;
  sounding : list nat;
  (* the calls made so far *)
  effects : list Effect
}.

(** The state setters and the assignments to the refs. *)
Definition setPhase (v : DebatePhase) (st : App) : App :=
  mkApp v (error st) (statusText st) (speakingMessageIndex st)
    (summary st) (comparison st) (isSkippedRef st) (skipTrigger st)
    (currentAudioSourceRef st) (audioContextRef st) (console st) (pc st)
    (speechPending st) (decoding st) (sounding st) (effects st).

Definition setError (v : option string) (st : App) : App :=
  mkApp (phase st) v (statusText st) (speakingMessageIndex st)
    (summary st) (comparison st) (isSkippedRef st) (skipTrigger st)
    (currentAudioSourceRef st) (audioContextRef st) (console st) (pc st)
    (speechPending st) (decoding st) (sounding st) (effects st).

Definition setStatusText (v : string) (st : App) : App :=
  mkApp (phase st) (error st) v (speakingMessageIndex st) (summary st)
    (comparison st) (isSkippedRef st) (skipTrigger st)
    (currentAudioSourceRef st) (audioContextRef st) (console st) (pc st)
    (speechPending st) (decoding st) (sounding st) (effects st).

Definition setSpeakingMessageIndex (v : option nat) (st : App) : App :=
  mkApp (phase st) (error st) (statusText st) v (summary st)
    (comparison st) (isSkippedRef st) (skipTrigger st)
    (currentAudioSourceRef st) (audioContextRef st) (console st) (pc st)
    (speechPending st) (decoding st) (sounding st) (effects st).

Definition setSummary (v : option Summary) (st : App) : App :=
  mkApp (phase st) (error st) (statusText st) (speakingMessageIndex st) v
    (comparison st) (isSkippedRef st) (skipTrigger st)
    (currentAudioSourceRef st) (audioContextRef st) (console st) (pc st)
    (speechPending st) (decoding st) (sounding st) (effects st).

Definition setComparison (v : option (list ArgumentComparison))
    (st : App) : App :=
  mkApp (phase st) (error st) (statusText st) (speakingMessageIndex st)
    (summary st) v (isSkippedRef st) (skipTrigger st)
    (currentAudioSourceRef st) (audioContextRef st) (console st) (pc st)
    (speechPending st) (decoding st) (sounding st) (effects st).

Definition setIsSkippedRef (v : bool) (st : App) : App :=
  mkApp (phase st) (error st) (statusText st) (speakingMessageIndex st)
    (summary st) (comparison st) v (skipTrigger st)
    (currentAudioSourceRef st) (audioContextRef st) (console st) (pc st)
    (speechPending st) (decoding st) (sounding st) (effects st).

Definition setSkipTrigger (v : option nat) (st : App) : App :=
  mkApp (phase st) (error st) (statusText st) (speakingMessageIndex st)
    (summary st) (comparison st) (isSkippedRef st) v
    (currentAudioSourceRef st) (audioContextRef st) (console st) (pc st)
    (speechPending st) (decoding st) (sounding st) (effects st).

Definition setCurrentAudioSourceRef (v : option nat) (st : App) : App :=
  mkApp (phase st) (error st) (statusText st) (speakingMessageIndex st)
    (summary st) (comparison st) (isSkippedRef st) (skipTrigger st) v
    (audioContextRef st) (console st) (pc st) (speechPending st)
    (decoding st) (sounding st) (effects st).

Definition setAudioContextRef (v : bool) (st : App) : App :=
  mkApp (phase st) (error st) (statusText st) (speakingMessageIndex st)
    (summary st) (comparison st) (isSkippedRef st) (skipTrigger st)
    (currentAudioSourceRef st) v (console st) (pc st) (speechPending st)
    (decoding st) (sounding st) (effects st).

Definition setConsole (v : list string) (st : App) : App :=
  mkApp (phase st) (error st) (statusText st) (speakingMessageIndex st)
    (summary st) (comparison st) (isSkippedRef st) (skipTrigger st)
    (currentAudioSourceRef st) (audioContextRef st) v (pc st)
    (speechPending st) (decoding st) (sounding st) (effects st).

Definition setPc (v : Pc) (st : App) : App :=
  mkApp (phase st) (error st) (statusText st) (speakingMessageIndex st)
    (summary st) (comparison st) (isSkippedRef st) (skipTrigger st)
    (currentAudioSourceRef st) (audioContextRef st) (console st) v
    (speechPending st) (decoding st) (sounding st) (effects st).

Definition setSpeechPending (v : list nat) (st : App) : App :=
  mkApp (phase st) (error st) (statusText st) (speakingMessageIndex st)
    (summary st) (comparison st) (isSkippedRef st) (skipTrigger st)
    (currentAudioSourceRef st) (audioContextRef st) (console st) (pc st) v
    (decoding st) (sounding st) (effects st).

Definition setDecoding (v : list nat) (st : App) : App :=
  mkApp (phase st) (error st) (statusText st) (speakingMessageIndex st)
    (summary st) (comparison st) (isSkippedRef st) (skipTrigger st)
    (currentAudioSourceRef st) (audioContextRef st) (console st) (pc st)
    (speechPending st) v (sounding st) (effects st).

Definition setSounding (v : list nat) (st : App) : App :=
  mkApp (phase st) (error st) (statusText st) (speakingMessageIndex st)
    (summary st) (comparison st) (isSkippedRef st) (skipTrigger st)
    (currentAudioSourceRef st) (audioContextRef st) (console st) (pc st)
    (speechPending st) (decoding st) v (effects st).

Definition setEffects (v : list Effect) (st : App) : App :=
  mkApp (phase st) (error st) (statusText st) (speakingMessageIndex st)
    (summary st) (comparison st) (isSkippedRef st) (skipTrigger st)
    (currentAudioSourceRef st) (audioContextRef st) (console st) (pc st)
    (speechPending st) (decoding st) (sounding st) v.

(** Removal of a settled promise from a list of pending ones. *)
Definition settle (i : nat) (l : list nat) : list nat :=
  filter (fun j => j <> i) l.

Definition personaName (p : Speaker) : string :=
  match p with
  | Persona Logos => "Logos"
  | Persona Pathos => "Pathos"
  | SYSTEM => "SYSTEM"
  end.

Section Playback.

(** The array [generatedMessages] of part 1 and [firstMessageOffset]. *)
Variable generatedMessages : list DebateMessage.
Variable firstMessageOffset : nat.

(** The code after the loop: [skipTrigger.current = null] and, unless the
    skip flag is set, the transition to voting. *)
Definition exitLoop (st : App) : App :=
  let st := setSkipTrigger None st in
  let st :=
    if isSkippedRef st then st
    else setPhase VOTING (setStatusText "" (setSpeakingMessageIndex None st))
  in setPc Returned st.

(** The head of iteration [i] up to the first [await]: the loop test, the
    check of the skip flag, a fresh interrupt promise, and the call of
    [generateSpeech]. *)
Definition loopTop (i : nat) (st : App) : App :=
  match generatedMessages !! i with
  | None => exitLoop st
  | Some currentMessage =>
      if isSkippedRef st then exitLoop st
      else
        let st := setSkipTrigger (Some i) st in
        let st := setSpeakingMessageIndex (Some (firstMessageOffset + i)%nat) st in
        let st :=
          setStatusText
            ("Generating audio for " ++ personaName (persona currentMessage)
               ++ "...")%string st in
        let st := setEffects (effects st ++ [SpeechRequested i]) st in
        let st := setSpeechPending (speechPending st ++ [i]) st in
        setPc (AwaitAudio i) st
  end.

(** [debateTurns[i].stage] in a template string. *)
Definition stageName (i : nat) : string :=
  match debateTurns !! i with
  | Some t => stage t
  | None => "undefined"
  end.

(** The [catch] of either race: the error is reported unless the skip flag
    is set, and the loop is left. *)
Definition catchRace (logged shown : string) (err : string) (st : App)
  : App :=
  let st :=
    if isSkippedRef st then st
    else setError (Some shown)
           (setConsole (console st ++ [(logged ++ " " ++ err)%string]) st)
  in exitLoop st.

(** The loop resumed with an interrupt as the result of a race. *)
Definition afterInterrupt (i : nat) (k : Interrupt) (st : App) : App :=
  match k with
  | toVoting => exitLoop st
  | toTurn => loopTop (S i) st
  end.

(** [result === 'voting'] and [result === 'turn']: the result of the
    first race is compared by value, so audio data that is one of the two
    strings is taken for the interrupt. *)
Definition asInterrupt (result : string) : option Interrupt :=
  if String.eqb result "voting" then Some toVoting
  else if String.eqb result "turn" then Some toTurn
  else None.

(** The loop after the first race of turn [i] was won by the audio:
    [playAudio] resolves at once without an audio context or with the
    skip flag set, and waits for [decodeAudioData] otherwise. *)
Definition afterAudio (i : nat) (audioData : string) (st : App) : App :=
  match asInterrupt audioData with
  | Some k => afterInterrupt i k st
  | None =>
      if Str.truthy audioData then
        let name :=
          match generatedMessages !! i with
          | Some m => personaName (persona m)
          | None => "undefined"
          end in
        let st :=
          setStatusText
            ("Speaking: " ++ name ++ " (" ++ stageName i ++ ")")%string st in
        if (negb (audioContextRef st) || isSkippedRef st)%bool
        then loopTop (S i) st
        else setPc (AwaitPlay i) (setDecoding (decoding st ++ [i]) st)
      else loopTop (S i) st
  end.

(** [skipTrigger.current?.(k)]: the armed resolver settles the interrupt
    promise of its turn, and the race that awaits this promise resumes
    the loop. *)
Definition trigger (k : Interrupt) (st : App) : App :=
  match skipTrigger st, pc st with
  | Some j, AwaitAudio i | Some j, AwaitPlay i =>
      if Nat.eqb j i then afterInterrupt i k st else st
  | _, _ => st
  end.

(** [currentAudioSourceRef.current.stop()] when there is a source. *)
Definition stopCurrent (st : App) : App :=
  match currentAudioSourceRef st with
  | Some j => setEffects (effects st ++ [SourceStopped j]) st
  | None => st
  end.

Definition handleSkip (st : App) : App :=
  trigger toTurn (stopCurrent st).

(** The handler runs to its end before the loop resumes; the loop then
    leaves through [exitLoop] with the skip flag set. *)
Definition handleSkipToVoting (st : App) : App :=
  if isSkippedRef st then st
  else
    let st := setIsSkippedRef true st in
    let st := stopCurrent st in
    let st := setPhase VOTING (setStatusText "" (setSpeakingMessageIndex None st)) in
    trigger toVoting st.

(** What the environment does next. *)
Inductive Event : Type :=
| SpeechResolved (i : nat) (audioData : string)
| SpeechRejected (i : nat) (err : string)
| Decoded (i : nat)
| DecodeFailed (i : nat) (err : string)
| Ended (i : nat)
| ClickSkip
| ClickSkipToVoting.

(** The promise of [playAudio] for turn [i] settles. *)
Definition playbackResolved (i : nat) (st : App) : App :=
  match pc st with
  | AwaitPlay j => if Nat.eqb j i then loopTop (S i) st else st
  | _ => st
  end.

Definition playbackRejected (i : nat) (err : string) (st : App) : App :=
  match pc st with
  | AwaitPlay j =>
      if Nat.eqb j i
      then catchRace "Error during audio playback:"
             "Failed to play audio for a turn." err st
      else st
  | _ => st
  end.

(** One task of the event loop, with the microtasks it triggers.  An event
    of a promise that is not pending, or a click on a button that is not
    rendered, changes nothing.  The settlement of a speech request is the
    settlement of the promise that [generateSpeech] returns; what
    [generateSpeech] prints before it rejects is part of its own model
    ([generateSpeech] below) and not of [console]. *)
Definition step (st : App) (ev : Event) : App :=
  match ev with
  | SpeechResolved i audioData =>
      if bool_decide (i ∈ speechPending st) then
        let st := setSpeechPending (settle i (speechPending st)) st in
        match pc st with
        | AwaitAudio j => if Nat.eqb j i then afterAudio i audioData st else st
        | _ => st
        end
      else st
  | SpeechRejected i err =>
      if bool_decide (i ∈ speechPending st) then
        let st := setSpeechPending (settle i (speechPending st)) st in
        match pc st with
        | AwaitAudio j =>
            if Nat.eqb j i
            then catchRace "Error during audio generation:"
                   "Failed to generate audio for a turn." err st
            else st
        | _ => st
        end
      else st
  | Decoded i =>
      if bool_decide (i ∈ decoding st) then
        let st := setDecoding (settle i (decoding st)) st in
        if isSkippedRef st then playbackResolved i st
        else
          setEffects (effects st ++ [SourceStarted i])
            (setSounding (sounding st ++ [i])
               (setCurrentAudioSourceRef (Some i) st))
      else st
  | DecodeFailed i err =>
      if bool_decide (i ∈ decoding st)
      then playbackRejected i err (setDecoding (settle i (decoding st)) st)
      else st
  | Ended i =>
      if bool_decide (i ∈ sounding st) then
        let st := setSounding (settle i (sounding st)) st in
        let st :=
          if bool_decide (currentAudioSourceRef st = Some i)
          then setCurrentAudioSourceRef None st else st in
        playbackResolved i st
      else st
  | ClickSkip =>
      match phase st, speakingMessageIndex st with
      | DEBATING, Some _ => handleSkip st
      | _, _ => st
      end
  | ClickSkipToVoting =>
      match phase st with
      | DEBATING => handleSkipToVoting st
      | _ => st
      end
  end.

Definition run (st : App) (evs : list Event) : App := fold_left step evs st.

(** Part 2: [Promise.all] of the two requests fulfils with both values or
    rejects with the reason of the request that rejected first;
    [comparisonFirst] tells which one that is when both reject. *)
Definition Promise_all {A B : Type} (a : Settled A) (b : Settled B)
    (bFirst : bool) : Settled (A * B) :=
  match a, b with
  | Fulfilled x, Fulfilled y => Fulfilled (x, y)
  | Rejected e, Fulfilled _ => Rejected e
  | Fulfilled _, Rejected e => Rejected e
  | Rejected ea, Rejected eb => Rejected (if bFirst then eb else ea)
  end.

Definition analyse (debateSummary : Settled Summary)
    (argumentComparison : Settled (list ArgumentComparison))
    (comparisonFirst : bool) (st : App) : App :=
  let st := setStatusText "Generating debate summary and analysis..." st in
  match Promise_all debateSummary argumentComparison comparisonFirst with
  | Fulfilled (s, c) => setComparison (Some c) (setSummary (Some s) st)
  | Rejected message =>
      setConsole
        (console st
           ++ [("Failed to generate post-debate analysis: " ++ message)%string])
        st
  end.

(** The [catch] of [handleStartDebate], which [runDebate] reaches by
    throwing. *)
Definition failStart (message : string) (st : App) : App :=
  setPc Returned
    (setPhase IDLE
       (setError
          (Some (if Str.truthy message then message
                 else "Failed to start debate.")) st)).

(** Part 3 up to its first [await]; [webAudio] is the error thrown by the
    constructor of the audio context, if any. *)
Definition startPlayback (webAudio : option string) (st : App) : App :=
  let st := setPhase DEBATING st in
  let st := setStatusText "Debate script generated. Starting playback..." st in
  if audioContextRef st then loopTop 0 st
  else
    match webAudio with
    | None => loopTop 0 (setAudioContextRef true st)
    | Some message =>
        failStart message
          (setError (Some "Web Audio API is not supported in this browser.")
             (setConsole
                (console st
                   ++ [("Error creating AudioContext: " ++ message)%string])
                st))
    end.

End Playback.

(** The state in which [handleStartDebate] calls [runDebate]. *)
Definition analyzing : App :=
  {| phase := ANALYZING; error := None;
     statusText := "Analyzing question and defining stances...";
     speakingMessageIndex := None; summary := None; comparison := None;
     isSkippedRef := false; skipTrigger := None;
     currentAudioSourceRef := None; audioContextRef := false;
     console := []; pc := Returned; speechPending := []; decoding := [];
     sounding := []; effects := [] |}.

(** What the services answer during one run of [runDebate]. *)
Record Services : Type := mkServices {
  turnStream : TurnRequest -> Gen.Stream;
  debateSummary : Settled Summary;
  argumentComparison : Settled (list ArgumentComparison);
  comparisonFirst : bool;
  webAudio : option string
}.

(** [runDebate] up to the first [await] of the playback loop, with the
    [messages] it leaves on the screen. *)
Definition runDebate (sv : Services) (systemMessages : list DebateMessage)
    (currentSides : AIPersona -> string) (currentQuestion : string)
  : App * list DebateMessage :=
  let st := setStatusText "Generating debate script..." analyzing in
  match generateScript (turnStream sv) systemMessages currentSides
          currentQuestion with
  | inr (script, message) => (failStart message st, messages script)
  | inl script =>
      let st :=
        analyse (debateSummary sv) (argumentComparison sv)
          (comparisonFirst sv) st in
      (startPlayback (generatedMessages script) (length systemMessages)
         (webAudio sv) st,
       messages script)
  end.

(** ** A whole session: [runDebate], then the events of the playback *)

(** The array [generatedMessages] of a run. *)
Definition scriptOf (sv : Services) (systemMessages : list DebateMessage)
    (currentSides : AIPersona -> string) (currentQuestion : string)
  : list DebateMessage :=
  match generateScript (turnStream sv) systemMessages currentSides
          currentQuestion with
  | inl script | inr (script, _) => generatedMessages script
  end.

Definition session (sv : Services) (systemMessages : list DebateMessage)
    (currentSides : AIPersona -> string) (currentQuestion : string)
    (evs : list Event) : App :=
  run (scriptOf sv systemMessages currentSides currentQuestion)
    (length systemMessages)
    (fst (runDebate sv systemMessages currentSides currentQuestion)) evs.

(** The events of a playback nobody interrupts: for each of the first [n]
    turns the audio arrives, is decoded and sounds to its end. *)
Definition uninterrupted (audio : nat -> string) (from n : nat)
  : list Event :=
  flat_map (fun i => [SpeechResolved i (audio i); Decoded i; Ended i])
    (seq from n).

(** * The rest of the component and its services *)

(** [disabled={!summary || !comparison}] on the two vote buttons of
    [renderVoting]. *)
Definition voteDisabled (st : App) : bool :=
  (negb (bool_decide (is_Some (summary st)))
   || negb (bool_decide (is_Some (comparison st))))%bool.

(** ** [services/geminiService.ts] *)

(** The double quote and the line feed, which a string literal cannot
    hold. *)
Definition dq : string := String (ascii_of_nat 34) EmptyString.
Definition lf : string := String (ascii_of_nat 10) EmptyString.

(** [try { body } catch (error) { console.error(label, error); throw new
    Error(message) }]: the outcome of the function and what it logs, from
    the outcome of the body. *)
Definition guarded {A : Type} (label message : string) (body : Settled A)
  : Settled A * list string :=
  match body with
  | Fulfilled v => (Fulfilled v, [])
  | Rejected e => (Rejected message, [(label ++ " " ++ e)%string])
  end.

(** The part of a text-to-speech response that [generateSpeech] reads. *)
Module Tts.

Record InlineData : Type := mkInlineData { data : option string }.

Record Part : Type := mkPart { inlineData : option InlineData }.

Record Content : Type := mkContent { parts : option (list Part) }.

Record Candidate : Type := mkCandidate { content : option Content }.

Record Response : Type := mkResponse {
  candidates : option (list Candidate)
}.

End Tts.

(** [response.candidates?.[0]?.content?.parts?.[0]?.inlineData?.data] *)
Definition base64AudioOf (response : Tts.Response) : option string :=
  match Tts.candidates response with
  | Some (c0 :: _) =>
      match Tts.content c0 with
      | Some content =>
          match Tts.parts content with
          | Some (p0 :: _) =>
              match Tts.inlineData p0 with
              | Some d => Tts.data d
              | None => None
              end
          | _ => None
          end
      | None => None
      end
  | _ => None
  end.

Definition personaVoices (p : AIPersona) : string :=
  match p with Logos => "Puck" | Pathos => "Kore" end.

(** [generateSpeech], from what the model call settles with. *)
Definition generateSpeech (answer : Settled Tts.Response)
  : Settled string * list string :=
  guarded "Error generating speech:"
    "Failed to generate audio for the debate."
    (match answer with
     | Fulfilled response =>
         match base64AudioOf response with
         | Some base64Audio =>
             if Str.truthy base64Audio then Fulfilled base64Audio
             else Rejected "No audio data received from API."
         | None => Rejected "No audio data received from API."
         end
     | Rejected e => Rejected e
     end).

(** What [generateDebateTurnStream] hands to the chat API. *)
Record ChatRequest : Type := mkChatRequest {
  chatModel : string;
  systemInstruction : string;
  googleSearch : bool;               (* [config.tools] is set *)
  chatHistory : list (string * string);   (* role and text *)
  chatMessage : string
}.

Definition personaSystemInstructions (p : AIPersona) (side : string)
  : string :=
  match p with
  | Logos =>
      "You are an AI debater named Logos. Your persona is based on logic, data, and utilitarian principles. You are calm, rational, and analytical. You must argue for this stance: "
      ++ dq ++ side ++ dq
      ++ ". You MUST use your search tool to find and cite sources for your claims. Structure your arguments clearly. Your response MUST be concise, around 75 words, suitable for a 30-second spoken turn."
  | Pathos =>
      "You are an AI debater named Pathos. Your persona is based on empathy, emotional impact, and deontology. You are passionate, evocative, and appeal to morality. You must argue for this stance: "
      ++ dq ++ side ++ dq
      ++ ". Use compelling language. Your response MUST be concise, around 75 words, suitable for a 30-second spoken turn."
  end%string.

(** The [default] branch of the [switch] over the stage. *)
Definition fallbackPrompt : string :=
  "Continue the debate by responding to the previous point.".

(** The [switch] over the stage. *)
Definition promptOf (stage question : string) : string :=
  if String.eqb stage "OPENING" then
    ("This is your opening statement. Based on your stance, present your initial argument regarding the question: "
     ++ dq ++ question ++ dq
     ++ ". Make 2 points for the opening statement.")%string
  else if String.eqb stage "REBUTTAL" then
    "This is your rebuttal. Directly address your opponent's last point and present your counter-argument."
  else if String.eqb stage "CLOSING" then
    "This is your closing statement. Summarize your key arguments and deliver a final, persuasive conclusion. Do not introduce new arguments."
  else fallbackPrompt.

#[global] Instance AIPersona_eq_dec : EqDecision AIPersona.
Proof. solve_decision. Defined.

#[global] Instance Speaker_eq_dec : EqDecision Speaker.
Proof. solve_decision. Defined.

(** [msg.persona === persona ? 'model' : 'user'] *)
Definition roleOf (p : AIPersona) (msg : DebateMessage) : string :=
  if bool_decide (persona msg = Persona p) then "model" else "user".

(** The chat that [generateDebateTurnStream] creates and the message it
    sends. *)
Definition chatRequestOf (req : TurnRequest) : ChatRequest :=
  {| chatModel := "gemini-2.5-flash";
     systemInstruction :=
       personaSystemInstructions (reqPersona req) (reqSide req);
     googleSearch := bool_decide (reqPersona req = Logos);
     chatHistory :=
       map (fun msg => (roleOf (reqPersona req) msg, text msg))
         (reqHistory req);
     chatMessage := promptOf (reqStage req) (reqQuestion req) |}.

(** [Array.prototype.join] *)
Fixpoint join (sep : string) (l : list string) : string :=
  match l with
  | [] => ""
  | [x] => x
  | x :: r => x ++ sep ++ join sep r
  end%string.

(** The transcript that [generateDebateSummary],
    [generateArgumentComparison] and [generateDebateScore] put into their
    prompts. *)
Definition debateTranscript (debateHistory : list DebateMessage)
  : string :=
  join lf
    (map (fun msg => (personaName (persona msg) ++ ": " ++ text msg)%string)
       (List.filter (fun msg => negb (bool_decide (persona msg = SYSTEM)))
          debateHistory)).

(** ** What [renderDebate] shows of a message's sources:
    [msg.sources && msg.sources.length > 0 && !msg.isStreaming] and then
    [msg.sources.slice(0, 3)]. *)
Definition shownSources (msg : DebateMessage) : list Source :=
  match sources msg with
  | Some l =>
      match l, isStreaming msg with
      | [], _ | _, Some true => []
      | _, _ => take 3 l
      end
  | None => []
  end.

(** ** The handlers of the start button, the vote buttons and the reset
    button *)

(** [String.prototype.trim]: white space and line terminators are removed
    at both ends. *)
Fixpoint trimStart (s : string) : string :=
  match s with
  | EmptyString => EmptyString
  | String c r => if Str.is_space c then trimStart r else s
  end.

Fixpoint trimEnd (s : string) : string :=
  match s with
  | EmptyString => EmptyString
  | String c r =>
      match trimEnd r with
      | EmptyString => if Str.is_space c then EmptyString
                       else String c EmptyString
      | r' => String c r'
      end
  end.

Definition trim (s : string) : string := trimEnd (trimStart s).

(** [getDebateSides] and [generateDebateScore], from the outcome of the
    model call and of [JSON.parse] on its text. *)
Definition getDebateSides (body : Settled (string * string))
  : Settled (string * string) * list string :=
  guarded "Error getting debate sides:"
    "Could not analyze the question. Please try a different one." body.

Definition generateDebateScore (body : Settled (list Score * list Score))
  : Settled (list Score * list Score) * list string :=
  guarded "Error generating debate score:"
    "Could not generate the debate score." body.

(** The state of the component: the state and the refs that the playback
    uses, and the rest of the React state. *)
Module Page.

Record State : Type := mk {
  app : App;
  question : string;
  sides : AIPersona -> string;
  messages : list DebateMessage;
  userVote : option AIPersona;
  scoreData : option DebateScore
}.

End Page.

(** The component as it is mounted. *)
Definition initialApp : App :=
  {| phase := IDLE; error := None; statusText := "";
     speakingMessageIndex := None; summary := None; comparison := None;
     isSkippedRef := false; skipTrigger := None;
     currentAudioSourceRef := None; audioContextRef := false;
     console := []; pc := Returned; speechPending := []; decoding := [];
     sounding := []; effects := [] |}.

Definition initialPage : Page.State :=
  Page.mk initialApp "" (fun _ => ""%string) [] None None.

(** The three system messages of a debate. *)
Definition systemMessagesOf (question sideA sideB : string)
  : list DebateMessage :=
  [ mkMessage SYSTEM ("Topic: " ++ dq ++ question ++ dq) None None;
    mkMessage SYSTEM ("Logos will argue: " ++ dq ++ sideA ++ dq) None None;
    mkMessage SYSTEM ("Pathos will argue: " ++ dq ++ sideB ++ dq) None
      None ]%string.

(** [handleStartDebate] on the component as mounted, with [question]
    typed in: the page once the handler has returned, has thrown into its
    [catch], or waits at the first race of the playback. *)
Definition handleStartDebate (question : string)
    (sidesBody : Settled (string * string)) (sv : Services) : Page.State :=
  if negb (Str.truthy (trim question)) then
    Page.mk (setError (Some "Please enter a question to debate.") initialApp)
      question (fun _ => ""%string) [] None None
  else
    match getDebateSides sidesBody with
    | (Rejected message, logged) =>
        Page.mk (setConsole logged (failStart message analyzing))
          question (fun _ => ""%string) [] None None
    | (Fulfilled (sideA, sideB), _) =>
        let currentSides :=
          fun p => match p with Logos => sideA | Pathos => sideB end in
        let systemMessages := systemMessagesOf question sideA sideB in
        let '(st, msgs) :=
          runDebate sv systemMessages currentSides question in
        Page.mk st question currentSides msgs None None
    end.

(** [handleVote], once the judge has answered or failed. *)
Definition handleVote (persona : AIPersona)
    (judge : Settled (list Score * list Score)) (p : Page.State)
  : Page.State :=
  let st := setPhase SCORING (Page.app p) in
  match generateDebateScore judge with
  | (Fulfilled (logos, pathos), _) =>
      Page.mk (setPhase FINISHED st) (Page.question p) (Page.sides p)
        (Page.messages p) (Some persona) (Some (verdict logos pathos))
  | (Rejected err, logged) =>
      let st :=
        setConsole
          (console st ++ logged
             ++ [("Failed to get debate score: " ++ err)%string]) st in
      let st :=
        setError
          (Some "The AI Judge failed to score the debate. Please try again.")
          st in
      Page.mk (setPhase VOTING st) (Page.question p) (Page.sides p)
        (Page.messages p) (Some persona) (Page.scoreData p)
  end.

Definition handleReset (p : Page.State) : Page.State :=
  let st := setIsSkippedRef false (Page.app p) in
  let st :=
    match currentAudioSourceRef st with
    | Some j =>
        setCurrentAudioSourceRef None
          (setEffects (effects st ++ [SourceStopped j]) st)
    | None => st
    end in
  let st := setPhase IDLE st in
  let st := setError None st in
  let st := setSpeakingMessageIndex None st in
  let st := setStatusText "" st in
  let st := setSummary None st in
  let st := setComparison None st in
  Page.mk st "" (Page.sides p) [] None None.

(** * Vocabulary of the properties *)

(** ** The aggregation as the specification words it

    The definitions of this module follow the specification's sentences,
    not the code: exact (rational) arithmetic, the weight table in exact
    decimals, and a criterion resolved by removing every character that is
    neither alphanumeric nor a space, lowercasing and comparing. *)

Module Claimed.

(** A letter [A]-[Z], [a]-[z] or a digit. *)
Definition is_alnum (c : ascii) : bool :=
  let n := Str.code c in
  (Str.between 48 57 n || Str.between 65 90 n || Str.between 97 122 n)%bool.

Fixpoint strip_non_alnum_space (s : string) : string :=
  match s with
  | EmptyString => EmptyString
  | String c r =>
      if (is_alnum c || Str.is_space c)%bool
      then String c (strip_non_alnum_space r)
      else strip_non_alnum_space r
  end.

Definition normalize (c : string) : string :=
  Str.toLowerCase (strip_non_alnum_space c).

(** The entry of a weight table whose name matches the criterion. *)
Definition resolve {W : Type} (table : list (string * W)) (c : string)
  : option (string * W) :=
  List.find (fun kw => String.eqb (Str.toLowerCase (fst kw)) (normalize c))
    table.

(** The weight table in exact decimals. *)
Definition weightTable : list (string * Q) :=
  [ ("Positioning"%string, 10 # 100); ("Argument"%string, 20 # 100);
    ("Evidence"%string, 20 # 100); ("Refutation"%string, 15 # 100);
    ("Coverage"%string, 10 # 100); ("Ethics"%string, 10 # 100);
    ("Clarity"%string, 10 # 100); ("Tone"%string, 5 # 100) ]%Q.

(** The rational a finite number stands for. *)
Definition exact (x : number) : Q :=
  match x with
  | S754_finite s m e =>
      ((if s then -1 else 1) * inject_Z (Zpos m) * Qpower 2 e)%Q
  | _ => 0%Q
  end.

Definition weighted (it : Score) : Q :=
  match resolve weightTable (criteria it) with
  | Some (_, w) => (exact (score it) * w)%Q
  | None => 0%Q
  end.

Definition weightedSum (scores : list Score) : Q :=
  fold_right Qplus 0%Q (map weighted scores).

(** Standard rounding to two decimals, as a number of hundredths. *)
Definition round2 (q : Q) : Z := Qfloor (q * 100 + (1 # 2))%Q.


(** What one item adds to the binary64 running total: its raw score times
    the weight its criterion resolves to, nothing when it resolves to no
    entry. *)
Definition contribution (it : Score) : list number :=
  match resolve scoreWeights (criteria it) with
  | Some (_, w) => [Num.mul (score it) w]
  | None => []
  end.

(** The binary64 running total, accumulated from the left. *)
Definition total64 (scores : list Score) : number :=
  fold_left Num.add (flat_map contribution scores) Num.zero.

End Claimed.

(** ** The aggregation as the amended claim words it

    The criterion is lowercased first; then every character that is
    neither a word character (a letter [A]-[Z] or [a]-[z], a digit or the
    underscore) nor white space is removed; the result is compared with
    the lowercased name of each entry of the weight table, in the order
    of the table.  The products and the running sum are binary64. *)

Module Amended.

Definition normalize (c : string) : string :=
  Str.strip_non_word_space (Str.toLowerCase c).

Definition resolve {W : Type} (table : list (string * W)) (c : string)
  : option (string * W) :=
  List.find (fun kw => String.eqb (Str.toLowerCase (fst kw)) (normalize c))
    table.

(** What one item adds to the running total: its raw score times the
    weight its criterion resolves to, nothing when it resolves to no
    entry. *)
Definition contribution (it : Score) : list number :=
  match resolve scoreWeights (criteria it) with
  | Some (_, w) => [Num.mul (score it) w]
  | None => []
  end.

(** The binary64 running total, accumulated from the left. *)
Definition total64 (scores : list Score) : number :=
  fold_left Num.add (flat_map contribution scores) Num.zero.

End Amended.

(** Whether a string contains the character. *)
Fixpoint contains (ch : ascii) (s : string) : bool :=
  match s with
  | EmptyString => false
  | String c r => (Ascii.eqb c ch || contains ch r)%bool
  end.

(** ** Bounds on the running total *)

(** A number that is zero or positive and finite. *)
Definition nonneg (x : number) : Prop :=
  match x with
  | S754_zero _ => True
  | S754_finite false _ e => -1074 <= e
  | _ => False
  end.

(** The value of such a number in units of [2^-1074]. *)
Definition units (x : number) : Z :=
  match x with
  | S754_finite _ m e => Zpos m * 2 ^ (e + 1074)
  | _ => 0
  end.

(** A raw score in the range of the rubric: a number from 0 to 5. *)
Definition inRange (x : number) : Prop :=
  Num.valid x = true /\ Num.le Num.zero x = true /\ Num.le x five = true.

(** The criteria of the weight table that the items match, in the order
    of the items. *)
Definition matchedKeys (scores : list Score) : list string :=
  omap (fun it => weightKeyOf (criteria it)) scores.

(** What a matched item can add to the running total at most, in units
    of [2^-1074]: five times the weight and two roundings. *)
Definition cost (k : string) : Z :=
  match get scoreWeights k with
  | Some w => 5 * units w + 2 ^ 1025
  | None => 0
  end.

Definition sumZ {A : Type} (f : A -> Z) (l : list A) : Z :=
  fold_right (fun a acc => f a + acc) 0 l.

Definition budget : Z := sumZ cost (Object_keys scoreWeights).

(** What the chunks append, in arrival order: the text of a chunk, and
    the string ["undefined"] for a chunk without a text part. *)
Definition concatTexts (cs : list Gen.Chunk) : string :=
  fold_right String.append "" (map appendedText cs).


(** ** Citations *)

Module Citations.

(** The citation a grounding chunk proposes to the code: its [web] source
    when that has a non-empty [uri], labelled by the title or, without
    one, by the [uri]. *)
Definition candidateOf (g : Gen.GroundingChunk) : option Source :=
  match Gen.web g with
  | Some w =>
      match Gen.uri w with
      | Some u =>
          if Str.truthy u then Some (mkSource u (titleOr (Gen.title w) u))
          else None
      | None => None
      end
  | None => None
  end.

Definition candidatesOfChunk (c : Gen.Chunk) : list Source :=
  match groundingChunksOf c with
  | Some gcs => omap candidateOf gcs
  | None => []
  end.

Definition candidatesOf (cs : list Gen.Chunk) : list Source :=
  flat_map candidatesOfChunk cs.

(** Keep a candidate exactly when its [uri] has not been seen before:
    the first occurrence of every [uri], in arrival order. *)
Fixpoint firstSeen (seen : list string) (l : list Source) : list Source :=
  match l with
  | [] => []
  | c :: r =>
      if bool_decide (uri c ∈ seen) then firstSeen seen r
      else c :: firstSeen (uri c :: seen) r
  end.

(** The candidates as the specification has them: every [web] source
    that carries a [uri] and a label, whatever the strings are. *)
Definition statedCandidateOf (g : Gen.GroundingChunk) : option Source :=
  match Gen.web g with
  | Some w =>
      match Gen.uri w, Gen.title w with
      | Some u, Some t => Some (mkSource u t)
      | _, _ => None
      end
  | None => None
  end.

Definition statedCitations (cs : list Gen.Chunk) : list Source :=
  firstSeen []
    (flat_map (fun c => match groundingChunksOf c with
                        | Some gcs => omap statedCandidateOf gcs
                        | None => []
                        end) cs).

(** A fragment whose grounding chunks are the given [web] sources. *)
Definition fragment (delta : string) (ws : list Gen.Web) : Gen.Chunk :=
  Gen.mkChunk (Some delta)
    (Some [Gen.mkCandidate
             (Some (Gen.mkGroundingMetadata
                      (Some (map (fun w => Gen.mkGroundingChunk (Some w))
                               ws))))]).

Definition cite (u t : string) : Gen.Web := Gen.mkWeb (Some u) (Some t).

End Citations.

(** The set of seen uris and the array of sources go together. *)
Definition tracks (seen : list string) (r : Reducer) : Prop :=
  forall u, u ∈ sourceUris r <-> u ∈ seen.

(** The persona and stage a request was issued for. *)
Definition slotOf (req : TurnRequest) : AIPersona * string :=
  (reqPersona req, reqStage req).

(** ** Invariants of the playback loop *)

(** Nothing of turn [i] or later has reached the decoder or the audio
    output. *)
Definition before (i : nat) (st : App) : Prop :=
  forall j, j ∈ decoding st \/ j ∈ sounding st
            \/ SourceStarted j ∈ effects st -> (j < i)%nat.

(** What holds whenever the event loop is idle during part 3. *)
Definition wf (st : App) : Prop :=
  match pc st with
  | AwaitAudio i =>
      skipTrigger st = Some i /\ isSkippedRef st = false
      /\ phase st = DEBATING /\ is_Some (speakingMessageIndex st)
      /\ i ∈ speechPending st /\ before i st
  | AwaitPlay i =>
      skipTrigger st = Some i /\ isSkippedRef st = false
      /\ phase st = DEBATING /\ is_Some (speakingMessageIndex st)
      /\ (i ∈ decoding st \/ i ∈ sounding st) /\ before (S i) st
  | Returned => skipTrigger st = None /\ phase st <> DEBATING
  end.

(** The loop is past turn [i], and turn [i] has neither reached the
    decoder nor the audio output. *)
Definition passed (i : nat) (st : App) : Prop :=
  match pc st with
  | AwaitAudio j | AwaitPlay j => (i < j)%nat
  | Returned => True
  end
  /\ (i ∉ decoding st) /\ (i ∉ sounding st)
  /\ (SourceStarted i ∉ effects st).

(** ** Vocabulary of the further properties *)

(** Whether the criterion of an item resolves to a key of the weight
    table. *)
Definition matched (it : Score) : bool :=
  match weightKeyOf (criteria it) with Some _ => true | None => false end.

(** [respelled c c']: [c'] spells [c] with letters in another case and
    with characters outside [\w] and [\s] put in anywhere. *)
Inductive respelled : string -> string -> Prop :=
| respelled_nil : respelled EmptyString EmptyString
| respelled_char (a b : ascii) (s s' : string) :
    Str.lower_char a = Str.lower_char b ->
    respelled s s' -> respelled (String a s) (String b s')
| respelled_punct (p : ascii) (s s' : string) :
    Str.is_word p = false -> Str.is_space p = false ->
    respelled s s' -> respelled s (String p s').

(** Whether some character of the string satisfies [P]. *)
Fixpoint any (P : ascii -> bool) (s : string) : bool :=
  match s with
  | EmptyString => false
  | String c r => (P c || any P r)%bool
  end.

(** White space or the underscore. *)
Definition space_or_underscore (c : ascii) : bool :=
  (Str.is_space c || Ascii.eqb c "_")%bool.

(** The running total is [s]-infinite or not a number. *)
Definition stuck (s : bool) (x : number) : Prop :=
  x = S754_infinity s \/ x = S754_nan.

(** What the placeholder slot shows once the chunks [cs] have arrived:
    the placeholder itself before the first chunk, and afterwards the text
    and the sources collected so far, persona and streaming flag kept. *)
Definition shownWhileStreaming (tempMessage : DebateMessage)
    (cs : list Gen.Chunk) : DebateMessage :=
  match cs with
  | [] => tempMessage
  | _ =>
      {| persona := persona tempMessage;
         text := fullText (reduceStream cs);
         isStreaming := isStreaming tempMessage;
         sources := sourcesOrUndefined (collected (reduceStream cs)) |}
  end.

(** Every request carries the system messages followed by the final
    messages of the turns before it, the side of its persona and the
    question. *)
Definition threaded (systemMessages : list DebateMessage)
    (currentSides : AIPersona -> string) (currentQuestion : string)
    (st : Script) : Prop :=
  forall (i : nat) (req : TurnRequest),
    requests st !! i = Some req ->
    reqHistory req = systemMessages ++ take i (generatedMessages st)
    /\ reqSide req = currentSides (reqPersona req)
    /\ reqQuestion req = currentQuestion.

(** The turns whose audio has been requested, in the order of the
    requests. *)
Definition requested (st : App) : list nat :=
  omap (fun e => match e with SpeechRequested i => Some i | _ => None end)
    (effects st).

(** How far the loop has come: twice the turn while its audio is awaited,
    one more while it is played, nothing once the loop has returned. *)
Definition position (p : Pc) : option nat :=
  match p with
  | AwaitAudio i => Some (2 * i)%nat
  | AwaitPlay i => Some (2 * i + 1)%nat
  | Returned => None
  end.

(** [q] is not behind [p]. *)
Definition notBehind (p q : Pc) : Prop :=
  match position p, position q with
  | Some a, Some b => (a <= b)%nat
  | _, None => True
  | None, Some _ => False
  end.

(** What holds of a playback that has started, whenever the event loop is
    idle: while turn [i] is awaited the audio of the turns up to [i] has
    been requested, once each and in order, the highlighted message is
    the one of turn [i], there is an audio context and no error is shown;
    and the loop is only ever left into the voting phase. *)
Definition tracked (generatedMessages : list DebateMessage)
    (firstMessageOffset : nat) (st : App) : Prop :=
  match pc st with
  | AwaitAudio i | AwaitPlay i =>
      requested st = seq 0 (S i)
      /\ (i < length generatedMessages)%nat
      /\ speakingMessageIndex st = Some (firstMessageOffset + i)%nat
      /\ audioContextRef st = true /\ error st = None
  | Returned =>
      phase st = VOTING
      /\ exists n, requested st = seq 0 n
                   /\ (n <= length generatedMessages)%nat
  end.

(** The event with which a call of [generateSpeech] for turn [i]
    settles. *)
Definition speechEvent (i : nat) (answer : Settled Tts.Response) : Event :=
  match fst (generateSpeech answer) with
  | Fulfilled audioData => SpeechResolved i audioData
  | Rejected err => SpeechRejected i err
  end.

(** The persona whose turn has the index [i]. *)
Definition speakerOf (i : nat) : AIPersona :=
  if Nat.even i then Logos else Pathos.

(** One line of the transcript. *)
Definition transcriptLine (msg : DebateMessage) : string :=
  (personaName (persona msg) ++ ": " ++ text msg)%string.

(** Whether every character of the string is white space. *)
Fixpoint blank (s : string) : bool :=
  match s with
  | EmptyString => true
  | String c r => (Str.is_space c && blank r)%bool
  end.

(** The exact contribution of an item, in units of [2^-1074 / 100]: the
    raw score in units of [2^-1074] times the hundredths of the decimal
    weight its criterion resolves to. *)
Definition exactUnits (it : Score) : Z :=
  match Claimed.resolve Claimed.weightTable (criteria it) with
  | Some (_, w) => units (score it) * Qnum w
  | None => 0
  end.

(** ** A scripted service for the examples *)

Module Scenario.

Import Citations.

Definition question : string := "Should AI have rights?".

Definition sides (p : AIPersona) : string :=
  match p with
  | Logos => "AI should have rights."
  | Pathos => "AI should not have rights."
  end.

Definition system : list DebateMessage :=
  [ mkMessage SYSTEM "Topic: Should AI have rights?" None None;
    mkMessage SYSTEM "Logos will argue: AI should have rights." None None;
    mkMessage SYSTEM "Pathos will argue: AI should not have rights."
      None None ].

(** Every request is answered by the same two fragments, which cite one
    uri under two labels. *)
Definition service (req : TurnRequest) : Gen.Stream :=
  Gen.mkStream
    [ fragment "Rights follow " [cite "https://example.org/a" "First"];
      fragment "from interests." [cite "https://example.org/a" "Second"] ]
    None.

Definition summaryOfDebate : Summary :=
  mkSummary ["Rights follow from interests."]
    ["Rights need a bearer who can suffer."].

(** The summary request succeeds and the comparison request fails. *)
Definition services : Services :=
  mkServices service (Fulfilled summaryOfDebate)
    (Rejected "Could not generate the argument comparison table.")
    false None.

Definition audio (i : nat) : string := "UklGRiQAAABXQVZF".

End Scenario.

(** * Properties of the score aggregator *)

Section Comparison.

Lemma SFcompare_antisym (a b : number) :
  SFcompare b a = option_map CompOpp (SFcompare a b).
Proof.
  destruct a as [sa|sa| |sa ma ea], b as [sb|sb| |sb mb eb]; simpl;
    try reflexivity;
    try (destruct sa; reflexivity);
    try (destruct sb; reflexivity);
    try (destruct sa, sb; reflexivity).
  rewrite (Z.compare_antisym ea eb).
  rewrite !Pos.compare_cont_spec. simpl.
  rewrite (Pos.compare_antisym ma mb).
  destruct sa, sb; simpl; try reflexivity;
    destruct (ea ?= eb); simpl; try reflexivity;
    destruct (ma ?= mb)%positive; reflexivity.
Qed.

Lemma gt_not_lt (a b : number) : Num.gt a b = true -> Num.gt b a = false.
Proof.
  unfold Num.gt, SFltb. rewrite (SFcompare_antisym a b).
  destruct (SFcompare a b) as [[ | | ]|]; simpl; congruence.
Qed.

Lemma SFcompare_defined (a b : number) :
  Num.is_nan a = false -> Num.is_nan b = false -> SFcompare a b <> None.
Proof.
  destruct a, b; simpl; intros Ha Hb; discriminate.
Qed.

Lemma tie_iff_eq (a b : number) :
  Num.is_nan a = false -> Num.is_nan b = false ->
  (Num.gt a b = false /\ Num.gt b a = false) <-> Num.eq a b = true.
Proof.
  intros Ha Hb. pose proof (SFcompare_defined a b Ha Hb) as Hc.
  unfold Num.gt, Num.eq, SFltb, SFeqb.
  rewrite (SFcompare_antisym a b).
  destruct (SFcompare a b) as [[ | | ]|]; simpl; intuition congruence.
Qed.

(** Neither final score is greater exactly when the two are equal or one
    of them is not a number. *)
Lemma tie_iff_eq_or_nan (a b : number) :
  (Num.gt a b = false /\ Num.gt b a = false)
  <-> (Num.eq a b = true \/ Num.is_nan a = true \/ Num.is_nan b = true).
Proof.
  destruct (Num.is_nan a) eqn:Ha.
  { destruct a; try discriminate. destruct b; simpl; tauto. }
  destruct (Num.is_nan b) eqn:Hb.
  { destruct b; try discriminate. destruct a; simpl; tauto. }
  rewrite (tie_iff_eq a b Ha Hb). intuition discriminate.
Qed.

End Comparison.

Section Resolution.

Lemma lower_char_word (c : ascii) :
  Str.is_word (Str.lower_char c) = Str.is_word c.
Proof. destruct c as [[] [] [] [] [] [] [] []]; reflexivity. Qed.

Lemma lower_char_space (c : ascii) :
  Str.is_space (Str.lower_char c) = Str.is_space c.
Proof. destruct c as [[] [] [] [] [] [] [] []]; reflexivity. Qed.

Lemma word_is_alnum_or_underscore (c : ascii) :
  Str.is_word c = (Claimed.is_alnum c || Ascii.eqb c "_")%bool.
Proof. destruct c as [[] [] [] [] [] [] [] []]; reflexivity. Qed.

(** Lowercasing first and stripping second, as the code does, gives the
    normal form of the specification on a criterion without underscore. *)
Lemma strip_lower_normalize (c : string) :
  contains "_" c = false ->
  Str.strip_non_word_space (Str.toLowerCase c) = Claimed.normalize c.
Proof.
  unfold Claimed.normalize. induction c as [|a r IH]; simpl; [reflexivity|].
  intros H. apply orb_false_iff in H as [Ha Hr].
  rewrite lower_char_word, lower_char_space, word_is_alnum_or_underscore, Ha.
  rewrite orb_false_r.
  destruct (Claimed.is_alnum a || Str.is_space a)%bool; simpl;
    rewrite (IH Hr); reflexivity.
Qed.

(** The key [find] returns is a property of [scoreWeights] with a truthy
    weight, and it is the name of the first matching entry. *)
Lemma find_key_entry (P : string -> bool) :
  match List.find P (Object_keys scoreWeights) with
  | Some k =>
      exists w, get scoreWeights k = Some w
                /\ (Str.truthy k && Num.truthy w)%bool = true
                /\ List.find (fun kw => P (fst kw)) scoreWeights = Some (k, w)
  | None => List.find (fun kw => P (fst kw)) scoreWeights = None
  end.
Proof.
  unfold scoreWeights, Object_keys. cbn [map fst List.find].
  repeat (destruct (P _);
          [eexists; split; [reflexivity|split; reflexivity]|]).
  reflexivity.
Qed.



End Resolution.

(** [toFixed(2)] picks the nearest number of hundredths, the larger one on
    a tie: [h - 1/2 <= 100 * m * 2^e < h + 1/2]. *)
Lemma hundredths_of_nearest (m : positive) (e : Z) :
  let h := Num.hundredths_of m e in
  match e with
  | Zneg p =>
      2 * h * 2 ^ Zpos p <= 200 * Zpos m + 2 ^ Zpos p
      /\ 200 * Zpos m + 2 ^ Zpos p < 2 * (h + 1) * 2 ^ Zpos p
  | _ => h = 100 * Zpos m * 2 ^ e
  end.
Proof.
  destruct e as [|p|p]; simpl; try reflexivity.
  assert (Hd : 0 < 2 * 2 ^ Zpos p) by (assert (0 < 2 ^ Zpos p) by (apply Z.pow_pos_nonneg; lia); lia).
  pose proof (Z.mul_div_le (200 * Zpos m + 2 ^ Zpos p) _ Hd).
  pose proof (Z.mul_succ_div_gt (200 * Zpos m + 2 ^ Zpos p) _ Hd).
  unfold Num.hundredths_of. split; nia.
Qed.

Section Rounding.

Lemma digits2_pos_bounds (m : positive) :
  2 ^ (Zpos (digits2_pos m) - 1) <= Zpos m < 2 ^ Zpos (digits2_pos m).
Proof.
  induction m as [m IH|m IH|]; simpl digits2_pos.
  - rewrite Pos2Z.inj_succ.
    replace (Z.succ (Zpos (digits2_pos m)) - 1)
      with (Z.succ (Zpos (digits2_pos m) - 1)) by lia.
    rewrite !Z.pow_succ_r by lia. lia.
  - rewrite Pos2Z.inj_succ.
    replace (Z.succ (Zpos (digits2_pos m)) - 1)
      with (Z.succ (Zpos (digits2_pos m) - 1)) by lia.
    rewrite !Z.pow_succ_r by lia. lia.
  - simpl. lia.
Qed.

Lemma shr_1_m (r : shr_record) :
  0 <= shr_m r -> shr_m (shr_1 r) = shr_m r / 2.
Proof.
  destruct r as [m rb sb]. simpl. intros Hm.
  destruct m as [|p|p]; [reflexivity| |lia].
  destruct p as [p|p|]; simpl shr_m.
  - rewrite Pos2Z.inj_xI. symmetry. 
    rewrite Z.add_comm, Z.mul_comm, Z.div_add by lia. reflexivity.
  - rewrite Pos2Z.inj_xO, Z.mul_comm, Z.div_mul by lia. reflexivity.
  - reflexivity.
Qed.

Lemma iter_shr_1_m (p : positive) (r : shr_record) :
  0 <= shr_m r ->
  shr_m (SpecFloat.iter_pos shr_1 p r) = shr_m r / 2 ^ Zpos p.
Proof.
  revert r. induction p as [p IH|p IH|]; intros r Hr.
  - simpl SpecFloat.iter_pos. 
    assert (H1 : 0 <= shr_m (shr_1 r))
      by (rewrite shr_1_m by assumption; apply Z.div_pos; lia).
    assert (H2 : 0 <= shr_m (SpecFloat.iter_pos shr_1 p (shr_1 r)))
      by (rewrite IH by assumption; apply Z.div_pos; [lia|];
          apply Z.pow_pos_nonneg; lia).
    rewrite IH, IH, shr_1_m by assumption.
    assert (0 < 2 ^ Zpos p) by (apply Z.pow_pos_nonneg; lia).
    rewrite !Z.div_div by lia.
    replace (Zpos p~1) with (1 + Zpos p + Zpos p) by lia.
    rewrite !Z.pow_add_r by lia. f_equal. change (2 ^ 1) with 2. lia.
  - simpl SpecFloat.iter_pos.
    assert (H2 : 0 <= shr_m (SpecFloat.iter_pos shr_1 p r))
      by (rewrite IH by assumption; apply Z.div_pos; [lia|];
          apply Z.pow_pos_nonneg; lia).
    rewrite IH, IH by assumption.
    assert (0 < 2 ^ Zpos p) by (apply Z.pow_pos_nonneg; lia).
    rewrite !Z.div_div by lia.
    replace (Zpos p~0) with (Zpos p + Zpos p) by lia.
    rewrite !Z.pow_add_r by lia. reflexivity.
  - simpl SpecFloat.iter_pos. apply shr_1_m, Hr.
Qed.

(** Shifting right by [n] places: the mantissa is divided and the
    exponent grows, when [n] is positive. *)
Lemma shr_m_e (r : shr_record) (e n : Z) :
  0 <= shr_m r ->
  let '(r', e') := shr r e n in
  (0 < n /\ shr_m r' = shr_m r / 2 ^ n /\ e' = e + n)
  \/ (n <= 0 /\ r' = r /\ e' = e).
Proof.
  intros Hr. unfold shr. destruct n as [|p|p].
  - right. repeat split; lia.
  - left. split; [lia|]. split; [apply iter_shr_1_m, Hr|reflexivity].
  - right. repeat split; lia.
Qed.

Lemma round_nearest_even_bounds (m : Z) (l : location) :
  m <= round_nearest_even m l <= m + 1.
Proof.
  destruct l as [|[ | | ]]; simpl; try lia. destruct (Z.even m); lia.
Qed.


Lemma fexp64 (z : Z) : fexp Num.prec Num.emax z = Z.max (z - 53) (-1074).
Proof. reflexivity. Qed.

Lemma pow2_pos (z : Z) : 0 <= z -> 0 < 2 ^ z.
Proof. intros H. apply Z.pow_pos_nonneg; lia. Qed.

Lemma pow2_split (a b : Z) : 0 <= a -> 0 <= b -> 2 ^ (a + b) = 2 ^ a * 2 ^ b.
Proof. intros. apply Z.pow_add_r; assumption. Qed.

Lemma pow2_le (a b : Z) : 0 <= a <= b -> 2 ^ a <= 2 ^ b.
Proof. intros. apply Z.pow_le_mono_r; lia. Qed.

Lemma pow2_lt_inv (a b : Z) : 0 <= a -> 0 <= b -> 2 ^ a < 2 ^ b -> a < b.
Proof. intros Ha Hb H. apply (Z.pow_lt_mono_r_iff 2); lia. Qed.

(** Shifting right loses value at most. *)
Lemma shr_value (K : Z) (m e n : Z) :
  0 <= m -> 0 <= e + K ->
  let '(r', e') := shr (Build_shr_record m false false) e n in
  0 <= shr_m r' /\ e <= e'
  /\ shr_m r' * 2 ^ (e' + K) <= m * 2 ^ (e + K)
  /\ (n <= 0 -> loc_of_shr_record r' = loc_Exact /\ shr_m r' = m /\ e' = e)
  /\ (0 < n -> e' = e + n
               /\ m * 2 ^ (e + K) < (shr_m r' + 1) * 2 ^ (e' + K)).
Proof.
  intros Hm He.
  pose proof (shr_m_e (Build_shr_record m false false) e n Hm) as H.
  destruct (shr _ e n) as [r' e']. simpl in H.
  destruct H as [(Hn & Hq & ->)|(Hn & -> & ->)].
  - assert (Hp : 0 < 2 ^ n) by (apply pow2_pos; lia).
    rewrite Hq.
    replace (e + n + K) with (n + (e + K)) by lia.
    rewrite pow2_split by lia.
    pose proof (Z.mul_div_le m (2 ^ n) Hp).
    pose proof (Z.mul_succ_div_gt m (2 ^ n) Hp).
    assert (0 < 2 ^ (e + K)) by (apply pow2_pos; lia).
    assert (0 <= m / 2 ^ n) by (apply Z.div_pos; lia).
    repeat split; try lia; try nia.
  - simpl. repeat split; try lia; try reflexivity.
Qed.

Lemma round_aux_bound (K : Z) (s : bool) (mx : positive) (ex : Z) :
  1074 <= K -> 0 <= ex + K ->
  Zpos mx * 2 ^ (ex + K) < 2 ^ (3 + K) ->
  binary_round_aux Num.prec Num.emax s (Zpos mx) ex loc_Exact = S754_zero s
  \/ exists m e,
      binary_round_aux Num.prec Num.emax s (Zpos mx) ex loc_Exact
      = S754_finite s m e
      /\ -1074 <= e
      /\ Zpos m * 2 ^ (e + K) <= Zpos mx * 2 ^ (ex + K) + 2 ^ (K - 50).
Proof.
  intros HK Hex Hlt.
  assert (HE : 0 < 2 ^ (ex + K)) by (apply pow2_pos; lia).
  pose proof (digits2_pos_bounds mx) as [Hd _].
  set (d := Zpos (digits2_pos mx)) in *.
  assert (Hdex : d + ex <= 3).
  { assert (2 ^ (d - 1 + (ex + K)) < 2 ^ (3 + K)).
    { rewrite pow2_split by lia. nia. }
    apply pow2_lt_inv in H; lia. }
  unfold binary_round_aux, shr_fexp.
  change (Zdigits2 (Zpos mx)) with d.
  set (f := fexp Num.prec Num.emax (d + ex)).
  assert (Hf : -1074 <= f <= -50) by (subst f; rewrite fexp64; lia).
  pose proof (shr_value K (Zpos mx) ex (f - ex) ltac:(lia) Hex) as H1.
  destruct (shr _ ex (f - ex)) as [r1 e1].
  destruct H1 as (Hr1 & He1 & Hv1 & Hexact & Hshift).
  set (m1 := round_nearest_even (shr_m r1) (loc_of_shr_record r1)).
  assert (Hm1 : 0 <= m1
                /\ -1074 <= e1
                /\ m1 * 2 ^ (e1 + K)
                   <= Zpos mx * 2 ^ (ex + K) + 2 ^ (K - 50)).
  { assert (0 < 2 ^ (K - 50)) by (apply pow2_pos; lia).
    pose proof (round_nearest_even_bounds (shr_m r1)
                  (loc_of_shr_record r1)) as Hb. fold m1 in Hb.
    destruct (Z_lt_le_dec 0 (f - ex)) as [Hn|Hn].
    - destruct (Hshift Hn) as [-> Hup].
      replace (ex + (f - ex)) with f in * by lia.
      assert (2 ^ (f + K) <= 2 ^ (K - 50)) by (apply pow2_le; lia).
      assert (0 < 2 ^ (f + K)) by (apply pow2_pos; lia).
      repeat split; try lia. nia.
    - destruct (Hexact Hn) as (Hl & Hm & ->).
      subst m1. rewrite Hl. simpl. rewrite Hm. repeat split; lia. }
  destruct Hm1 as (Hm1 & He1' & Hv).
  pose proof (shr_value K m1 e1
                (fexp Num.prec Num.emax (Zdigits2 m1 + e1) - e1) Hm1
                ltac:(lia)) as H2.
  destruct (shr _ e1 _) as [r2 e2].
  destruct H2 as (Hr2 & He2 & Hv2 & _ & _).
  destruct (shr_m r2) as [|m|m] eqn:Hm2; [left; reflexivity| |lia].
  right. exists m, e2.
  assert (He2' : e2 < 4).
  { assert (0 < 2 ^ (e2 + K)) by (apply pow2_pos; lia).
    assert (2 ^ (K - 50) <= 2 ^ (3 + K)) by (apply pow2_le; lia).
    assert (2 ^ (e2 + K) < 2 ^ (4 + K)).
    { replace (4 + K) with (1 + (3 + K)) by lia.
      rewrite (pow2_split 1) by lia. change (2 ^ 1) with 2. nia. }
    apply pow2_lt_inv in H1; lia. }
  assert (Hle : (e2 <=? Num.emax - Num.prec) = true)
    by (apply Z.leb_le; unfold Num.emax, Num.prec; lia).
  rewrite Hle. split; [reflexivity|]. split; lia.
Qed.


Lemma units_nonneg (x : number) : 0 <= units x.
Proof.
  destruct x; simpl; lia.
Qed.

Lemma iter_xO (m d : positive) :
  Zpos (Pos.iter xO m d) = Zpos m * 2 ^ Zpos d.
Proof.
  induction d as [|d IH] using Pos.peano_ind.
  - simpl. lia.
  - rewrite Pos.iter_succ, Pos2Z.inj_xO, IH, Pos2Z.inj_succ,
      Z.pow_succ_r by lia. lia.
Qed.

Lemma shl_align_spec (mx : positive) (ex ex' : Z) :
  let '(m', e') := shl_align mx ex ex' in
  e' = Z.min ex ex' /\ Zpos m' = Zpos mx * 2 ^ (ex - e').
Proof.
  unfold shl_align. destruct (ex' - ex) as [|d|d] eqn:Hd.
  - split; [lia|]. rewrite Z.sub_diag. simpl. lia.
  - split; [lia|]. rewrite Z.sub_diag. simpl. lia.
  - split; [lia|]. rewrite iter_xO. f_equal. f_equal. lia.
Qed.

Lemma mul_bound (x w : number) :
  nonneg x -> nonneg w ->
  units x * units w < 2 ^ (3 + 2148) ->
  nonneg (Num.mul x w)
  /\ units (Num.mul x w) * 2 ^ 1074 <= units x * units w + 2 ^ 2098.
Proof.
  intros Hx Hw Hlt.
  assert (H0 : 0 <= units x * units w + 2 ^ 2098).
  { pose proof (units_nonneg x). pose proof (units_nonneg w).
    assert (0 < 2 ^ 2098) by (apply pow2_pos; lia). nia. }
  destruct x as [sx|sx| |sx mx ex], w as [sw|sw| |sw mw ew];
    simpl in Hx, Hw; try contradiction;
    try (split; [exact I|exact H0]).
  destruct sx, sw; try contradiction.
  unfold Num.mul, SFmul.
  assert (HE : Zpos (mx * mw) * 2 ^ (ex + ew + 2148)
               = units (S754_finite false mx ex)
                 * units (S754_finite false mw ew)).
  { simpl units. replace (ex + ew + 2148) with ((ex + 1074) + (ew + 1074))
      by lia.
    rewrite (pow2_split (ex + 1074) (ew + 1074)) by lia.
    rewrite Pos2Z.inj_mul. ring. }
  destruct (round_aux_bound 2148 (xorb false false) (mx * mw) (ex + ew)
              ltac:(lia) ltac:(lia) ltac:(rewrite HE; exact Hlt))
    as [Hz|(m & e & Hr & He & Hv)].
  - rewrite Hz. split; [exact I|exact H0].
  - rewrite Hr. simpl xorb. split; [exact He|].
    rewrite HE in Hv. simpl (units (S754_finite false m e)).
    replace (e + 2148) with ((e + 1074) + 1074) in Hv by lia.
    rewrite (pow2_split (e + 1074) 1074) in Hv by lia.
    change (2148 - 50) with 2098 in Hv. lia.
Qed.

Lemma add_bound (t p : number) :
  nonneg t -> nonneg p ->
  units t + units p < 2 ^ (3 + 1074) ->
  nonneg (Num.add t p)
  /\ units (Num.add t p) <= units t + units p + 2 ^ 1024.
Proof.
  intros Ht Hp Hlt.
  assert (H1024 : 0 < 2 ^ 1024) by (apply pow2_pos; lia).
  destruct t as [st|st| |st mt et], p as [sp|sp| |sp mp ep];
    simpl in Ht, Hp; try contradiction.
  - unfold Num.add, SFadd. destruct st, sp; simpl; split; auto; lia.
  - unfold Num.add, SFadd. destruct sp; try contradiction.
    split; [exact Hp|]. simpl units. lia.
  - unfold Num.add, SFadd. destruct st; try contradiction.
    split; [exact Ht|]. simpl units. lia.
  - destruct st, sp; try contradiction.
    unfold Num.add, SFadd. cbv zeta.
    set (ez := Z.min et ep).
    pose proof (shl_align_spec mt et ez) as Hat.
    pose proof (shl_align_spec mp ep ez) as Hap.
    destruct (shl_align mt et ez) as [mt' et'].
    destruct (shl_align mp ep ez) as [mp' ep'].
    destruct Hat as [Het' Hmt'], Hap as [Hep' Hmp'].
    assert (Het2 : et' = ez) by lia. assert (Hep2 : ep' = ez) by lia.
    clear Het' Hep'. subst et' ep'.
    cbn [fst cond_Zopp]. 
    change (Zpos mt' + Zpos mp') with (Zpos (mt' + mp')).
    unfold binary_normalize, binary_round.
    set (f := fexp Num.prec Num.emax (Zpos (digits2_pos (mt' + mp')) + ez)).
    assert (Hf : -1074 <= f) by (subst f; rewrite fexp64; lia).
    pose proof (shl_align_spec (mt' + mp') ez f) as Haz.
    destruct (shl_align (mt' + mp') ez f) as [mz ez'].
    destruct Haz as [Hez' Hmz].
    assert (HE : Zpos mz * 2 ^ (ez' + 1074)
                 = units (S754_finite false mt et)
                   + units (S754_finite false mp ep)).
    { simpl units. rewrite Hmz, Pos2Z.inj_add, Hmt', Hmp'.
      replace (et + 1074) with ((et - ez) + (ez - ez') + (ez' + 1074))
        by lia.
      replace (ep + 1074) with ((ep - ez) + (ez - ez') + (ez' + 1074))
        by lia.
      rewrite (pow2_split (et - ez + (ez - ez')) (ez' + 1074)) by lia.
      rewrite (pow2_split (ep - ez + (ez - ez')) (ez' + 1074)) by lia.
      rewrite (pow2_split (et - ez) (ez - ez')) by lia.
      rewrite (pow2_split (ep - ez) (ez - ez')) by lia.
      ring. }
    destruct (round_aux_bound 1074 false mz ez' ltac:(lia) ltac:(lia)
                ltac:(rewrite HE; exact Hlt))
      as [Hz|(m & e & Hr & He & Hv)].
    + rewrite Hz. split; [exact I|]. simpl units at 1.
      pose proof (units_nonneg (S754_finite false mt et)).
      pose proof (units_nonneg (S754_finite false mp ep)). lia.
    + rewrite Hr. split; [exact He|]. rewrite HE in Hv.
      change (1074 - 50) with 1024 in Hv. exact Hv.
Qed.


Lemma five_eq : five = S754_finite false 5629499534213120 (-50).
Proof. vm_compute. reflexivity. Qed.

Lemma inRange_units (x : number) :
  inRange x -> nonneg x /\ units x <= 5 * 2 ^ 1074.
Proof.
  intros (Hv & H0 & H5). rewrite five_eq in H5.
  assert (0 < 2 ^ 1074) by (apply pow2_pos; lia).
  destruct x as [s|s| |s m e]; cbn [nonneg units].
  - split; [exact I|lia].
  - destruct s; discriminate.
  - discriminate.
  - destruct s; [discriminate|].
    unfold Num.valid, valid_binary, bounded, canonical_mantissa in Hv.
    apply andb_true_iff in Hv as [Hc _]. apply Z.eqb_eq in Hc.
    rewrite fexp64 in Hc.
    pose proof (digits2_pos_bounds m) as [_ Hd].
    assert (Hd53 : Zpos (digits2_pos m) <= 53) by lia.
    assert (He : -1074 <= e) by lia.
    split; [exact He|].
    assert (Hm53 : Zpos m < 2 ^ 53).
    { assert (2 ^ Zpos (digits2_pos m) <= 2 ^ 53) by (apply pow2_le; lia).
      lia. }
    change (2 ^ 53) with 9007199254740992 in Hm53.
    unfold Num.le, SFleb, SFcompare in H5.
    destruct (e ?= -50) eqn:Hcmp.
    + apply Z.compare_eq in Hcmp. subst e.
      rewrite Pos.compare_cont_spec in H5. cbn [Pos.switch_Eq] in H5.
      assert (Zpos m <= 5629499534213120).
      { clear - H5.
        destruct (Pos.compare_spec m 5629499534213120) as [Heq|Hlt|Hgt];
          [subst; apply Z.le_refl
          |apply Z.lt_le_incl, Pos2Z.pos_lt_pos, Hlt
          |discriminate]. }
      change (-50 + 1074) with 1024. change 1074 with (50 + 1024).
      rewrite (pow2_split 50 1024) by lia.
      change (2 ^ 50) with 1125899906842624.
      assert (HP : 0 < 2 ^ 1024) by (apply pow2_pos; lia).
      revert HP. generalize (2 ^ 1024). intros P HP. nia.
    + pose proof (proj1 (Z.compare_lt_iff _ _) Hcmp).
      assert (HQ : 2 ^ (e + 1074) <= 2 ^ 1023) by (apply pow2_le; lia).
      assert (HQ0 : 0 < 2 ^ (e + 1074)) by (apply pow2_pos; lia).
      change 1074 with (51 + 1023) at 2.
      rewrite (pow2_split 51 1023) by lia.
      change (2 ^ 51) with 2251799813685248.
      revert HQ HQ0. generalize (2 ^ (e + 1074)) (2 ^ 1023).
      intros Q P HQ HQ0. nia.
    + discriminate.
Qed.

Lemma weights_small :
  Forall (fun kw => nonneg (snd kw) /\ units (snd kw) <= 2 ^ 1074)
    scoreWeights.
Proof.
  repeat constructor; cbn [snd nonneg]; try lia;
    apply Z.leb_le; vm_compute; reflexivity.
Qed.

Lemma get_In {V : Type} (o : list (string * V)) (k : string) (v : V) :
  get o k = Some v -> In (k, v) o.
Proof.
  induction o as [|[k' v'] o IH]; simpl; [discriminate|].
  destruct (String.eqb_spec k' k) as [->|Hne].
  - intros [= ->]. left. reflexivity.
  - intros H. right. apply IH, H.
Qed.

Lemma budget_small : budget + 2 ^ 1025 < 2 ^ (3 + 1074).
Proof. apply Z.ltb_lt. vm_compute. reflexivity. Qed.

Lemma cost_nonneg (k : string) : 0 <= cost k.
Proof.
  unfold cost. destruct (get scoreWeights k) as [w|]; [|lia].
  pose proof (units_nonneg w). assert (0 < 2 ^ 1025) by (apply pow2_pos; lia).
  lia.
Qed.


Lemma sumZ_submseteq {A : Type} (f : A -> Z) (l k : list A) :
  (forall a, 0 <= f a) -> l ⊆+ k -> sumZ f l <= sumZ f k.
Proof.
  intros Hf H. induction H as [|x l1 l2 _ IH|x y l|x l1 l2 _ IH|l1 l2 l3 _ IH1 _ IH2];
    simpl; try lia.
  - specialize (Hf x). lia.
Qed.

(** A matched item runs through its key and weight. *)
Lemma addScoreItem_matched (total : number) (it : Score) :
  match weightKeyOf (criteria it) with
  | Some k =>
      exists w, get scoreWeights k = Some w
                /\ addScoreItem total it
                   = Num.add total (Num.mul (score it) w)
  | None => addScoreItem total it = total
  end.
Proof.
  unfold addScoreItem, weightKeyOf.
  pose proof (find_key_entry
                (fun key => String.eqb (Str.toLowerCase key)
                              (Str.strip_non_word_space
                                 (Str.toLowerCase (criteria it))))) as Hf.
  cbv beta in Hf.
  destruct (List.find _ (Object_keys scoreWeights)) as [k|];
    [|reflexivity].
  destruct Hf as (w & Hget & Htruthy & _). exists w.
  rewrite Hget, Htruthy. split; reflexivity.
Qed.

Lemma weightKeyOf_key (c k : string) :
  weightKeyOf c = Some k -> k ∈ Object_keys scoreWeights.
Proof.
  unfold weightKeyOf. intros H. apply find_some in H as [H _].
  apply list_elem_of_In. exact H.
Qed.

Lemma addScoreItem_bound (total : number) (it : Score) (k : string) :
  nonneg total -> inRange (score it) ->
  weightKeyOf (criteria it) = Some k ->
  units total + cost k <= budget ->
  nonneg (addScoreItem total it)
  /\ units (addScoreItem total it) <= units total + cost k.
Proof.
  intros Ht Hs Hk Hb.
  pose proof (addScoreItem_matched total it) as Hm. rewrite Hk in Hm.
  destruct Hm as (w & Hget & ->).
  unfold cost in *. rewrite Hget in *.
  pose proof weights_small as Hw. rewrite Forall_forall in Hw.
  destruct (Hw (k, w) ltac:(apply list_elem_of_In, get_In, Hget))
    as [Hwn Hwu]. cbn [snd] in Hwn, Hwu.
  destruct (inRange_units _ Hs) as [Hsn Hsu].
  pose proof (units_nonneg (score it)) as Hs0.
  pose proof (units_nonneg w) as Hw0.
  pose proof (units_nonneg total) as Ht0.
  pose proof budget_small as HB.
  assert (H2098 : 2 ^ 2098 = 2 ^ 1024 * 2 ^ 1074)
    by (rewrite <- pow2_split by lia; reflexivity).
  assert (H2151 : 2 ^ (3 + 2148) = 8 * (2 ^ 1074 * 2 ^ 1074)).
  { change (3 + 2148) with (3 + (1074 + 1074)).
    rewrite (pow2_split 3), (pow2_split 1074 1074) by lia. reflexivity. }
  assert (H1077 : 2 ^ (3 + 1074) = 8 * 2 ^ 1074)
    by (rewrite (pow2_split 3) by lia; reflexivity).
  assert (H1025 : 2 ^ 1025 = 2 * 2 ^ 1024)
    by (change 1025 with (1 + 1024); rewrite (pow2_split 1) by lia;
        reflexivity).
  assert (HU : 0 < 2 ^ 1074) by (apply pow2_pos; lia).
  assert (HV : 0 < 2 ^ 1024) by (apply pow2_pos; lia).
  rewrite H1077 in HB. rewrite H1025 in *.
  destruct (mul_bound (score it) w Hsn Hwn) as [Hpn Hpu].
  { rewrite H2151. revert Hsu Hwu Hs0 Hw0 HU.
    generalize (units (score it)) (units w) (2 ^ 1074). intros a b U. nia. }
  rewrite H2098 in Hpu.
  assert (Hp : units (Num.mul (score it) w) <= 5 * units w + 2 ^ 1024).
  { revert Hpu Hsu Hwu Hs0 Hw0 HU HV.
    generalize (units (Num.mul (score it) w)) (units (score it)) (units w)
      (2 ^ 1074) (2 ^ 1024). intros p a b U V. nia. }
  destruct (add_bound total (Num.mul (score it) w) Ht Hpn) as [Han Hau].
  { rewrite H1077. lia. }
  split; [exact Han|lia].
Qed.

Lemma fold_addScoreItem_bound (scores : list Score) (total : number) :
  Forall (fun it => inRange (score it)) scores ->
  nonneg total ->
  units total + sumZ cost (matchedKeys scores) <= budget ->
  nonneg (fold_left addScoreItem scores total)
  /\ units (fold_left addScoreItem scores total) <= budget.
Proof.
  intros Hall. revert total.
  induction Hall as [|it scores Hit _ IH]; intros total Ht Hb.
  - simpl in *. split; [exact Ht|lia].
  - simpl fold_left. unfold matchedKeys in Hb. cbn [omap list_omap] in Hb.
    fold (matchedKeys scores) in Hb.
    pose proof (addScoreItem_matched total it) as Hm.
    destruct (weightKeyOf (criteria it)) as [k|] eqn:Hk.
    + cbn [sumZ fold_right] in Hb. fold (sumZ cost (matchedKeys scores)) in Hb.
      assert (0 <= sumZ cost (matchedKeys scores)).
      { clear. induction (matchedKeys scores) as [|a l IHl]; simpl; [lia|].
        pose proof (cost_nonneg a). lia. }
      destruct (addScoreItem_bound total it k Ht Hit Hk ltac:(lia))
        as [Hn Hu].
      apply IH; [exact Hn|lia].
    + rewrite Hm. apply IH; assumption.
Qed.


Lemma budget_below_5005 : 200 * budget < 1001 * 2 ^ 1074.
Proof. apply Z.ltb_lt. vm_compute. reflexivity. Qed.

(** Every number of hundredths from 0 to 500 is read back as a number
    from 0 to 5. *)
Lemma hundredths_in_range (h : Z) :
  0 <= h <= 500 ->
  Num.le Num.zero (Num.parseFloat (Num.FixedDecimal false h)) = true
  /\ Num.le (Num.parseFloat (Num.FixedDecimal false h)) five = true.
Proof.
  intros Hh.
  assert (Hall : forallb
                   (fun n =>
                      let x := Num.parseFloat
                                 (Num.FixedDecimal false (Z.of_nat n)) in
                      (Num.le Num.zero x && Num.le x five)%bool)
                   (seq 0 501) = true) by (vm_compute; reflexivity).
  rewrite forallb_forall in Hall.
  specialize (Hall (Z.to_nat h)).
  rewrite Z2Nat.id in Hall by lia.
  apply andb_true_iff, Hall, in_seq. lia.
Qed.

Lemma toFixed2_in_range (total : number) :
  nonneg total -> units total <= budget ->
  exists h, Num.toFixed2 total = Num.FixedDecimal false h /\ 0 <= h <= 500.
Proof.
  intros Hn Hu. pose proof budget_below_5005 as HB.
  destruct total as [s|s| |s m e]; cbn [nonneg] in Hn; try contradiction.
  - exists 0. split; [reflexivity|lia].
  - destruct s; [contradiction|]. cbn [units] in Hu.
    assert (Hval : forall P Q : Z,
               0 < P -> 0 < Q -> 2 ^ 1074 = P * Q ->
               Zpos m * Q <= budget -> 200 * Zpos m < 1001 * P).
    { intros P Q HP HQ Heq Hle. rewrite Heq in HB. nia. }
    destruct e as [|p|p].
    + assert (Hm : 200 * Zpos m < 1001 * 1).
      { apply (Hval 1 (2 ^ 1074)); lia. }
      exists (100 * Zpos m * 2 ^ 0). unfold Num.toFixed2.
      assert (Hbig : Num.at_least_1e21 m 0 = false).
      { unfold Num.at_least_1e21. apply Z.leb_gt.
        change (2 ^ 0) with 1. change (10 ^ 21) with 1000000000000000000000.
        lia. }
      rewrite Hbig. split; [reflexivity|]. change (2 ^ 0) with 1. lia.
    + assert (HP : 0 < 2 ^ Zpos p) by (apply pow2_pos; lia).
      assert (Hm : 200 * (Zpos m * 2 ^ Zpos p) < 1001 * 1).
      { assert (H : forall P Q : Z,
                   0 < Q -> Zpos m * (P * Q) <= budget ->
                   2 ^ 1074 = Q -> 200 * (Zpos m * P) < 1001 * 1).
        { intros P Q HQ Hle Heq. rewrite Heq in HB. nia. }
        apply (H _ (2 ^ 1074)); [apply pow2_pos; lia| |reflexivity].
        rewrite <- pow2_split by lia. exact Hu. }
      exists (100 * Zpos m * 2 ^ Zpos p). unfold Num.toFixed2.
      assert (Hbig : Num.at_least_1e21 m (Zpos p) = false).
      { unfold Num.at_least_1e21. apply Z.leb_gt.
        change (10 ^ 21) with 1000000000000000000000. lia. }
      rewrite Hbig. split; [reflexivity|]. lia.
    + assert (HP : 0 < 2 ^ Zpos p) by (apply pow2_pos; lia).
      assert (Hp : Zpos p <= 1074) by lia.
      assert (Hm : 200 * Zpos m < 1001 * 2 ^ Zpos p).
      { apply (Hval (2 ^ Zpos p) (2 ^ (Zneg p + 1074))); try assumption.
        - apply pow2_pos. lia.
        - rewrite <- pow2_split by lia. f_equal. lia. }
      exists ((200 * Zpos m + 2 ^ Zpos p) / (2 * 2 ^ Zpos p)).
      unfold Num.toFixed2.
      assert (Hbig : Num.at_least_1e21 m (Zneg p) = false).
      { unfold Num.at_least_1e21. apply Z.leb_gt.
        change (10 ^ 21) with 1000000000000000000000. lia. }
      rewrite Hbig. split; [reflexivity|]. split.
      * apply Z.div_pos; lia.
      * assert ((200 * Zpos m + 2 ^ Zpos p) / (2 * 2 ^ Zpos p) < 501)
          by (apply Z.div_lt_upper_bound; lia).
        lia.
Qed.

Lemma matchedKeys_budget (scores : list Score) :
  NoDup (matchedKeys scores) ->
  sumZ cost (matchedKeys scores) <= budget.
Proof.
  intros Hnd. apply sumZ_submseteq; [apply cost_nonneg|].
  apply NoDup_submseteq; [exact Hnd|].
  intros k Hk. unfold matchedKeys in Hk.
  apply list_elem_of_omap in Hk as (it & _ & Hit).
  apply (weightKeyOf_key _ _ Hit).
Qed.

Lemma le_not_nan (a x : number) : Num.le a x = true -> Num.is_nan x = false.
Proof. destruct a, x; simpl; try reflexivity; discriminate. Qed.

(** A final score computed from raw scores in range is a number. *)
Lemma calculateFinalScore_not_nan (scores : list Score) :
  Forall (fun it => inRange (score it)) scores ->
  NoDup (matchedKeys scores) ->
  Num.is_nan (calculateFinalScore scores) = false.
Proof.
  intros Hall Hnd. unfold calculateFinalScore.
  destruct (fold_addScoreItem_bound scores Num.zero Hall I) as [Hn Hu].
  { pose proof (matchedKeys_budget scores Hnd). simpl units. lia. }
  destruct (toFixed2_in_range _ Hn Hu) as (h & -> & Hh).
  apply (le_not_nan Num.zero), hundredths_in_range, Hh.
Qed.

End Rounding.

(** C4 (as the code has it): the winner is Logos when Logos's final score
    is greater, Pathos when Pathos's is greater, and TIE otherwise, for
    every pair of final scores; the winner is TIE exactly when the two
    final scores are equal or one of them is not a number; so for final
    scores that are numbers, as the final scores of raw scores from 0 to 5
    with no key matched twice are, the winner is TIE exactly when they
    are equal; and eight rubric items per side with every raw score 5
    give the final score 5.00 to both sides and the winner TIE. *)
Theorem C4_winner_and_tie (a b : number) :
  (Num.gt a b = true -> computeWinner a b = WinnerIs Logos)
  /\ (Num.gt b a = true -> computeWinner a b = WinnerIs Pathos)
  /\ (Num.gt a b = false -> Num.gt b a = false -> computeWinner a b = TIE)
  /\ (computeWinner a b = TIE
      <-> (Num.eq a b = true \/ Num.is_nan a = true \/ Num.is_nan b = true))
  /\ (Num.is_nan a = false -> Num.is_nan b = false ->
      (computeWinner a b = TIE <-> Num.eq a b = true))
  /\ (forall rawLogos rawPathos : list Score,
        Forall (fun it => inRange (score it)) rawLogos ->
        Forall (fun it => inRange (score it)) rawPathos ->
        NoDup (matchedKeys rawLogos) -> NoDup (matchedKeys rawPathos) ->
        let v := verdict rawLogos rawPathos in
        winner v = TIE <-> Num.eq (finalLogos v) (finalPathos v) = true)
  /\ (forall notesL notesP : string -> string,
        let v := verdict (rubricAllFive notesL) (rubricAllFive notesP) in
        finalLogos v = Num.lit 500 100
        /\ finalPathos v = Num.lit 500 100
        /\ Num.eq (finalLogos v) (finalPathos v) = true
        /\ winner v = TIE).
Proof.
  assert (Hneither : forall x y : number,
             computeWinner x y = TIE
             <-> (Num.gt x y = false /\ Num.gt y x = false)).
  { intros x y. unfold computeWinner.
    destruct (Num.gt x y), (Num.gt y x); split;
      try discriminate; try tauto; intros [? ?]; discriminate. }
  assert (Htie : forall x y : number,
             Num.is_nan x = false -> Num.is_nan y = false ->
             computeWinner x y = TIE <-> Num.eq x y = true).
  { intros x y Hx Hy. rewrite Hneither. apply tie_iff_eq; assumption. }
  split; [unfold computeWinner; intros ->; reflexivity|].
  split; [unfold computeWinner; intros H;
          rewrite (gt_not_lt _ _ H), H; reflexivity|].
  split; [unfold computeWinner; intros -> ->; reflexivity|].
  split; [rewrite Hneither; apply tie_iff_eq_or_nan|].
  split; [apply Htie|]. split.
  - intros rawLogos rawPathos HL HP HdL HdP. simpl.
    apply Htie; apply calculateFinalScore_not_nan; assumption.
  - intros notesL notesP. vm_compute. repeat split; reflexivity.
Qed.

(** C4 (as stated) fails: a side whose items hold the raw scores
    [Infinity] and [-Infinity] has the final score [NaN]; no comparison
    with [NaN] holds, so the winner is TIE although the two final scores
    are not equal. *)
Lemma C4_counterexample :
  winner
    (verdict
       [mkScore "Argument" (S754_infinity false) "";
        mkScore "Evidence" (S754_infinity true) ""]
       (rubricAllFive (fun _ => ""%string)))
  = TIE
  /\ Num.eq
       (finalLogos
          (verdict
             [mkScore "Argument" (S754_infinity false) "";
              mkScore "Evidence" (S754_infinity true) ""]
             (rubricAllFive (fun _ => ""%string))))
       (finalPathos
          (verdict
             [mkScore "Argument" (S754_infinity false) "";
              mkScore "Evidence" (S754_infinity true) ""]
             (rubricAllFive (fun _ => ""%string))))
     = false
  /\ finalLogos
       (verdict
          [mkScore "Argument" (S754_infinity false) "";
           mkScore "Evidence" (S754_infinity true) ""]
          (rubricAllFive (fun _ => ""%string)))
     = S754_nan.
Proof. vm_compute. repeat split; reflexivity. Qed.



(** C10: when every raw score is a number from 0 to 5 and no criterion of
    the weight table is matched by two items, the final score is a number
    from 0 to 5. *)
Theorem C10_final_score_bounded (scores : list Score) :
  Forall (fun it => inRange (score it)) scores ->
  NoDup (matchedKeys scores) ->
  Num.le Num.zero (calculateFinalScore scores) = true
  /\ Num.le (calculateFinalScore scores) five = true.
Proof.
  intros Hall Hnd. unfold calculateFinalScore.
  destruct (fold_addScoreItem_bound scores Num.zero Hall I) as [Hn Hu].
  { pose proof (matchedKeys_budget scores Hnd). simpl units. lia. }
  destruct (toFixed2_in_range _ Hn Hu) as (h & -> & Hh).
  apply hundredths_in_range, Hh.
Qed.

Lemma C10_final_score_bounded_witness :
  Num.le (calculateFinalScore
            [mkScore "Argument" (Num.lit 45 10) "sound";
             mkScore "Tone" five "apt";
             mkScore "Bonus" five "not in the rubric"]) five = true.
Proof.
  apply (C10_final_score_bounded
           [mkScore "Argument" (Num.lit 45 10) "sound";
            mkScore "Tone" five "apt";
            mkScore "Bonus" five "not in the rubric"]).
  - repeat constructor.
  - apply (bool_decide_unpack _). vm_compute. exact I.
Defined.


(** * Properties of the streamed-text reducer *)

Section ReducerFacts.

Lemma append_cons (c : ascii) (s t : string) :
  (String c s ++ t)%string = String c (s ++ t)%string.
Proof. reflexivity. Qed.

Lemma append_empty_r (s : string) : (s ++ "")%string = s.
Proof.
  induction s as [|c s IH]; [reflexivity|]. rewrite append_cons, IH.
  reflexivity.
Qed.

Lemma append_assoc (a b c : string) :
  ((a ++ b) ++ c)%string = (a ++ (b ++ c))%string.
Proof.
  induction a as [|x a IH]; [reflexivity|]. rewrite !append_cons, IH.
  reflexivity.
Qed.

Lemma addGroundingChunk_fullText (r : Reducer) (g : Gen.GroundingChunk) :
  fullText (addGroundingChunk r g) = fullText r.
Proof.
  unfold addGroundingChunk.
  destruct (Gen.web g) as [w|]; [|reflexivity].
  destruct (Gen.uri w) as [u|]; [|reflexivity].
  destruct (_ && _)%bool; reflexivity.
Qed.

Lemma fold_addGroundingChunk_fullText (gcs : list Gen.GroundingChunk)
    (r : Reducer) :
  fullText (fold_left addGroundingChunk gcs r) = fullText r.
Proof.
  revert r. induction gcs as [|g gcs IH]; intros r; simpl; [reflexivity|].
  rewrite IH. apply addGroundingChunk_fullText.
Qed.

Lemma consumeChunk_fullText (r : Reducer) (chunk : Gen.Chunk) :
  fullText (consumeChunk r chunk)
  = (fullText r ++ appendedText chunk)%string.
Proof.
  unfold consumeChunk. destruct (groundingChunksOf chunk); [|reflexivity].
  apply fold_addGroundingChunk_fullText.
Qed.

Lemma fold_consumeChunk_fullText (cs : list Gen.Chunk) (r : Reducer) :
  fullText (fold_left consumeChunk cs r)
  = (fullText r ++ concatTexts cs)%string.
Proof.
  revert r. induction cs as [|c cs IH]; intros r; simpl.
  - unfold concatTexts. simpl. symmetry. apply append_empty_r.
  - rewrite IH, consumeChunk_fullText. apply append_assoc.
Qed.

End ReducerFacts.

Section TurnFacts.

Variable generateDebateTurnStream : TurnRequest -> Gen.Stream.
Variable systemMessages : list DebateMessage.
Variable currentSides : AIPersona -> string.
Variable currentQuestion : string.

Local Abbreviation run_turn :=
  (runTurn generateDebateTurnStream systemMessages currentSides
     currentQuestion).
Local Abbreviation request_of := (requestOf currentSides currentQuestion).
Local Abbreviation message_of := (messageOf generateDebateTurnStream).
Local Abbreviation well_aligned :=
  (aligned generateDebateTurnStream systemMessages).

Lemma consumeStream_fst (i : nat) (cs : list Gen.Chunk) (r : Reducer)
    (msgs : list DebateMessage) :
  fst (consumeStream i cs r msgs) = fold_left consumeChunk cs r.
Proof.
  revert r msgs. induction cs as [|c cs IH]; intros r msgs; simpl;
    [reflexivity|apply IH].
Qed.

(** The loop over the chunks only rewrites the placeholder slot. *)
Lemma consumeStream_snd (cs : list Gen.Chunk) (r : Reducer)
    (pre : list DebateMessage) (m : DebateMessage) :
  exists m', snd (consumeStream (length pre) cs r (pre ++ [m]))
             = pre ++ [m'].
Proof.
  revert r m. induction cs as [|c cs IH]; intros r m; simpl.
  - exists m. reflexivity.
  - unfold showProgress. rewrite alter_app_r_alt by lia.
    rewrite Nat.sub_diag. simpl. apply IH.
Qed.

Lemma runTurn_completed (st : Script) (turn : Turn) :
  well_aligned st ->
  Gen.failure (generateDebateTurnStream (request_of st turn)) = None ->
  exists st',
    run_turn st turn = inl st'
    /\ well_aligned st'
    /\ requests st' = requests st ++ [request_of st turn]
    /\ generatedMessages st'
       = generatedMessages st ++ [message_of (request_of st turn)].
Proof.
  intros (Hh & Hm & Hg) Hok. unfold runTurn. fold (request_of st turn).
  rewrite Hm, <- length_app.
  match goal with
  | |- context [consumeStream ?i ?cs ?r (?pre ++ [?m])] =>
      pose proof (consumeStream_fst i cs r (pre ++ [m])) as Hfst;
      destruct (consumeStream_snd cs r pre m) as [m' Hsnd];
      destruct (consumeStream i cs r (pre ++ [m])) as [r' msgs]
  end.
  simpl in Hfst, Hsnd. subst r' msgs. rewrite Hok.
  eexists. split; [reflexivity|]. simpl.
  rewrite insert_app_r_alt by lia. rewrite Nat.sub_diag. simpl.
  unfold aligned. simpl. rewrite Hh, Hg, !map_app, <- !app_assoc. simpl.
  repeat split; reflexivity.
Qed.

Lemma runTurn_requests (st : Script) (turn : Turn) :
  match run_turn st turn with
  | inl st' => requests st' = requests st ++ [request_of st turn]
  | inr (st', _) =>
      requests st' = requests st ++ [request_of st turn]
      /\ generatedMessages st' = generatedMessages st
  end.
Proof.
  unfold runTurn. fold (request_of st turn).
  destruct (consumeStream _ _ _ _) as [r msgs].
  destruct (Gen.failure _); simpl; auto.
Qed.

End TurnFacts.

Section CitationFacts.

Import Citations.

Lemma addGroundingChunk_firstSeen (r : Reducer) (g : Gen.GroundingChunk)
    (seen : list string) :
  tracks seen r ->
  match candidateOf g with
  | Some c =>
      if bool_decide (uri c ∈ seen)
      then addGroundingChunk r g = r
      else collected (addGroundingChunk r g) = collected r ++ [c]
           /\ tracks (uri c :: seen) (addGroundingChunk r g)
  | None => addGroundingChunk r g = r
  end.
Proof.
  intros Htr. unfold candidateOf, addGroundingChunk.
  destruct (Gen.web g) as [w|]; [|reflexivity].
  destruct (Gen.uri w) as [u|]; [|reflexivity].
  destruct (Str.truthy u); simpl; [|reflexivity].
  destruct (bool_decide_reflect (u ∈ seen)) as [Hin|Hnin].
  - rewrite bool_decide_eq_true_2 by (apply Htr; exact Hin). reflexivity.
  - rewrite bool_decide_eq_false_2
      by (intros Hu; apply Hnin, Htr; exact Hu).
    simpl. split; [reflexivity|]. intros v. simpl.
    rewrite elem_of_union, elem_of_singleton, elem_of_cons, (Htr v).
    reflexivity.
Qed.

Lemma fold_addGroundingChunk_firstSeen (gcs : list Gen.GroundingChunk)
    (r : Reducer) (seen : list string) (rest : list Source) :
  tracks seen r ->
  exists seen',
    tracks seen' (fold_left addGroundingChunk gcs r)
    /\ collected (fold_left addGroundingChunk gcs r)
         ++ firstSeen seen' rest
       = collected r ++ firstSeen seen (omap candidateOf gcs ++ rest).
Proof.
  revert r seen. induction gcs as [|g gcs IH]; intros r seen Htr.
  - exists seen. split; [exact Htr|reflexivity].
  - simpl fold_left.
    pose proof (addGroundingChunk_firstSeen r g seen Htr) as Hg.
    cbn [omap list_omap]. destruct (candidateOf g) as [c|].
    + cbn [app firstSeen]. destruct (bool_decide (uri c ∈ seen)).
      * rewrite Hg. apply IH, Htr.
      * destruct Hg as [Hc Htr'].
        destruct (IH _ _ Htr') as (seen' & Hs & Heq).
        exists seen'. split; [exact Hs|].
        rewrite Heq, Hc, <- app_assoc. reflexivity.
    + rewrite Hg. apply IH, Htr.
Qed.

Lemma fold_consumeChunk_firstSeen (cs : list Gen.Chunk) (r : Reducer)
    (seen : list string) :
  tracks seen r ->
  collected (fold_left consumeChunk cs r)
  = collected r ++ firstSeen seen (candidatesOf cs).
Proof.
  revert r seen. induction cs as [|c cs IH]; intros r seen Htr.
  - simpl. rewrite app_nil_r. reflexivity.
  - simpl fold_left. unfold candidatesOf. cbn [flat_map].
    fold (candidatesOf cs). unfold consumeChunk at 2, candidatesOfChunk.
    set (r1 := {| fullText := (fullText r ++ appendedText c)%string;
                  collected := collected r;
                  sourceUris := sourceUris r |}).
    assert (Htr1 : tracks seen r1) by exact Htr.
    destruct (groundingChunksOf c) as [gcs|].
    + destruct (fold_addGroundingChunk_firstSeen gcs r1 seen
                  (candidatesOf cs) Htr1) as (seen' & Hs & Heq).
      rewrite (IH _ _ Hs), Heq. reflexivity.
    + apply (IH _ _ Htr1).
Qed.

Lemma firstSeen_fresh (seen : list string) (l : list Source) :
  NoDup (map uri (firstSeen seen l))
  /\ forall c, c ∈ firstSeen seen l -> (uri c ∉ seen) /\ (c ∈ l).
Proof.
  revert seen. induction l as [|c l IH]; intros seen; simpl.
  - split; [constructor|]. intros c Hc. inversion Hc.
  - destruct (bool_decide_reflect (uri c ∈ seen)) as [Hin|Hnin].
    + destruct (IH seen) as [Hnd Hfr]. split; [exact Hnd|].
      intros d Hd. destruct (Hfr d Hd). split; [assumption|].
      apply elem_of_cons. right. assumption.
    + destruct (IH (uri c :: seen)) as [Hnd Hfr]. split.
      * simpl. apply NoDup_cons_2; [|exact Hnd].
        intros Hc. apply list_elem_of_fmap in Hc as (d & Hu & Hd).
        destruct (Hfr d Hd) as [Hns _]. apply Hns. rewrite Hu.
        apply elem_of_cons. left. reflexivity.
      * intros d Hd. apply elem_of_cons in Hd as [->|Hd].
        -- split; [exact Hnin|]. apply elem_of_cons. left. reflexivity.
        -- destruct (Hfr d Hd) as [Hns Hdl]. split.
           ++ intros Hs. apply Hns. apply elem_of_cons. right. exact Hs.
           ++ apply elem_of_cons. right. exact Hdl.
Qed.

End CitationFacts.

(** * Properties of the turn sequencer *)

Section TurnOrder.

Variable generateDebateTurnStream : TurnRequest -> Gen.Stream.
Variable systemMessages : list DebateMessage.
Variable currentSides : AIPersona -> string.
Variable currentQuestion : string.

Local Abbreviation run_turn :=
  (runTurn generateDebateTurnStream systemMessages currentSides
     currentQuestion).
Local Abbreviation run_turns :=
  (runTurns generateDebateTurnStream systemMessages currentSides
     currentQuestion).
Local Abbreviation request_of := (requestOf currentSides currentQuestion).
Local Abbreviation well_aligned :=
  (aligned generateDebateTurnStream systemMessages).

Lemma runTurn_inl_completed (st st' : Script) (turn : Turn) :
  run_turn st turn = inl st' ->
  Gen.failure (generateDebateTurnStream (request_of st turn)) = None.
Proof.
  unfold runTurn. fold (request_of st turn).
  destruct (consumeStream _ _ _ _) as [r msgs].
  destruct (Gen.failure _); [discriminate|reflexivity].
Qed.

Lemma persona_messageOf (req : TurnRequest) :
  persona (messageOf generateDebateTurnStream req)
  = Persona (reqPersona req).
Proof. reflexivity. Qed.

(** A completed run of the loop issues one request per turn, in the order
    of the turns, and appends one message per request. *)
Lemma runTurns_completed (turns : list Turn) (st st' : Script) :
  well_aligned st ->
  run_turns turns st = inl st' ->
  well_aligned st'
  /\ exists reqs,
      requests st' = requests st ++ reqs
      /\ map slotOf reqs = map (fun t => (turnPersona t, stage t)) turns.
Proof.
  revert st. induction turns as [|turn turns IH]; intros st Hal Hrun.
  - simpl in Hrun. injection Hrun as <-. split; [exact Hal|].
    exists []. rewrite app_nil_r. split; reflexivity.
  - simpl in Hrun. destruct (run_turn st turn) as [st1|e] eqn:Hturn;
      [|discriminate].
    pose proof (runTurn_inl_completed _ _ _ Hturn) as Hok.
    destruct (runTurn_completed _ _ currentSides currentQuestion st turn
                Hal Hok) as (st1' & Hst1 & Hal1 & Hreq1 & _).
    rewrite Hturn in Hst1. injection Hst1 as <-.
    destruct (IH st1 Hal1 Hrun) as (Hal' & reqs & Hreqs & Hslots).
    split; [exact Hal'|]. exists (request_of st turn :: reqs).
    rewrite Hreqs, Hreq1, <- app_assoc. split; [reflexivity|].
    simpl. rewrite Hslots. reflexivity.
Qed.

(** Every run issues its requests in the order of the turns, also the ones
    a failing stream aborts. *)
Lemma runTurns_prefix (turns : list Turn) (st st' : Script) (err : string) :
  run_turns turns st = inr (st', err) ->
  exists reqs,
    requests st' = requests st ++ reqs
    /\ map slotOf reqs
       `prefix_of` map (fun t => (turnPersona t, stage t)) turns.
Proof.
  revert st. induction turns as [|turn turns IH]; intros st Hrun;
    simpl in Hrun; [discriminate|].
  pose proof (runTurn_requests generateDebateTurnStream systemMessages
                currentSides currentQuestion st turn) as Hreq.
  destruct (run_turn st turn) as [st1|[st1 e]] eqn:Hturn.
  - destruct (IH st1 Hrun) as (reqs & Hreqs & Hpre).
    exists (request_of st turn :: reqs).
    rewrite Hreqs, Hreq, <- app_assoc. split; [reflexivity|].
    simpl. apply prefix_cons. exact Hpre.
  - injection Hrun as <- <-. destruct Hreq as [Hreq _].
    exists [request_of st turn]. split; [exact Hreq|].
    simpl. apply prefix_cons, prefix_nil.
Qed.

(** When no stream fails the loop runs to its end. *)
Lemma runTurns_total (turns : list Turn) (st : Script) :
  (forall req, Gen.failure (generateDebateTurnStream req) = None) ->
  well_aligned st ->
  exists st', run_turns turns st = inl st'.
Proof.
  intros Hok. revert st. induction turns as [|turn turns IH]; intros st Hal.
  - exists st. reflexivity.
  - destruct (runTurn_completed _ _ currentSides currentQuestion st turn
                Hal (Hok _)) as (st1 & Hst1 & Hal1 & _).
    simpl. rewrite Hst1. apply IH, Hal1.
Qed.

Lemma startScript_aligned : well_aligned (startScript systemMessages).
Proof.
  unfold aligned, startScript. simpl. rewrite app_nil_r.
  repeat split; reflexivity.
Qed.

End TurnOrder.




(** C6 (as the code has it): a grounding chunk proposes a citation when
    it carries a [web] source with a non-empty uri; such a candidate is
    appended iff its uri has not been seen before in this message, in
    arrival order, so the sources are the first occurrences of the uris,
    each with its first-seen label, and no uri occurs twice; two fragments
    with one non-empty uri and two labels give exactly one citation, with
    the first label. *)
Theorem C6_citation_dedup (cs : list Gen.Chunk)
    (u t1 t2 delta1 delta2 : string) :
  Str.truthy u = true ->
  Str.truthy t1 = true ->
  collected (reduceStream cs)
  = Citations.firstSeen [] (Citations.candidatesOf cs)
  /\ NoDup (map uri (collected (reduceStream cs)))
  /\ (forall (r : Reducer) (seen : list string) (g : Gen.GroundingChunk),
        tracks seen r ->
        match Citations.candidateOf g with
        | Some c =>
            (collected (addGroundingChunk r g) = collected r ++ [c]
             <-> uri c ∉ seen)
            /\ (uri c ∈ seen -> addGroundingChunk r g = r)
        | None => addGroundingChunk r g = r
        end)
  /\ collected
       (reduceStream
          [ Citations.fragment delta1 [Citations.cite u t1];
            Citations.fragment delta2 [Citations.cite u t2] ])
     = [mkSource u t1].
Proof.
  intros Hu Ht.
  assert (Hnew : tracks [] newReducer).
  { intros v. simpl. rewrite elem_of_empty, elem_of_nil. reflexivity. }
  assert (Hall : forall l, collected (reduceStream l)
                           = Citations.firstSeen [] (Citations.candidatesOf l)).
  { intros l. unfold reduceStream.
    rewrite (fold_consumeChunk_firstSeen l newReducer [] Hnew).
    reflexivity. }
  split; [apply Hall|]. split.
  { rewrite Hall. apply firstSeen_fresh. }
  split.
  - intros r seen g Htr.
    pose proof (addGroundingChunk_firstSeen r g seen Htr) as Hg.
    destruct (Citations.candidateOf g) as [c|]; [|exact Hg].
    destruct (bool_decide_reflect (uri c ∈ seen)) as [Hin|Hnin].
    + split; [|intros _; exact Hg]. rewrite Hg. split.
      * intros Heq. apply (f_equal length) in Heq.
        rewrite length_app in Heq. simpl in Heq. lia.
      * intros Hn. contradiction.
    + destruct Hg as [Hc _]. split; [|intros Hs; contradiction].
      split; [intros _; exact Hnin|intros _; exact Hc].
  - rewrite Hall. unfold Citations.candidatesOf, Citations.candidatesOfChunk,
      Citations.candidateOf. simpl. rewrite Hu. simpl.
    rewrite (bool_decide_eq_true_2 (u ∈ [u])) by (apply elem_of_cons; left; reflexivity).
    rewrite Ht. reflexivity.
Qed.

Lemma C6_citation_dedup_witness :
  collected
    (reduceStream
       [ Citations.fragment "Rights follow "
           [Citations.cite "https://example.org/a" "First"];
         Citations.fragment "from interests."
           [Citations.cite "https://example.org/a" "Second"] ])
  = [mkSource "https://example.org/a" "First"].
Proof.
  apply (C6_citation_dedup [] "https://example.org/a" "First" "Second"
           "Rights follow " "from interests."); reflexivity.
Defined.

(** C6 (as stated) fails: a candidate whose uri is the empty string has
    a uri that was not seen before, yet the guard on [source.uri] keeps
    it out of the sources. *)
Lemma C6_counterexample :
  let cs := [Citations.fragment "x" [Citations.cite "" "Untitled"]] in
  Citations.statedCitations cs = [mkSource "" "Untitled"]
  /\ collected (reduceStream cs) = []
  /\ collected (reduceStream cs) <> Citations.statedCitations cs.
Proof.
  vm_compute. repeat split; try reflexivity. discriminate.
Qed.

(** C7: whatever the service generates, a run of the turn loop that
    completes has issued its six requests for Logos/OPENING,
    Pathos/OPENING, Logos/REBUTTAL, Pathos/REBUTTAL, Logos/CLOSING,
    Pathos/CLOSING in this order, has generated exactly the message of
    each request, spoken by the request's persona, and shows them after
    the system messages; a run that a failing stream aborts has issued
    the first requests of the same sequence. *)
Theorem C7_turn_order
    (generateDebateTurnStream : TurnRequest -> Gen.Stream)
    (systemMessages : list DebateMessage)
    (currentSides : AIPersona -> string) (currentQuestion : string) :
  let slots :=
    [ (Logos, "OPENING"); (Pathos, "OPENING"); (Logos, "REBUTTAL");
      (Pathos, "REBUTTAL"); (Logos, "CLOSING"); (Pathos, "CLOSING") ] in
  map (fun t => (turnPersona t, stage t)) debateTurns = slots
  /\ (forall st : Script,
        generateScript generateDebateTurnStream systemMessages currentSides
          currentQuestion = inl st ->
        map slotOf (requests st) = slots
        /\ generatedMessages st
           = map (messageOf generateDebateTurnStream) (requests st)
        /\ map persona (generatedMessages st)
           = map (fun s => Persona (fst s)) slots
        /\ messages st = systemMessages ++ generatedMessages st)
  /\ (forall (st : Script) (err : string),
        generateScript generateDebateTurnStream systemMessages currentSides
          currentQuestion = inr (st, err) ->
        map slotOf (requests st) `prefix_of` slots).
Proof.
  intros slots. split; [reflexivity|]. split.
  - intros st Hrun. unfold generateScript in Hrun.
    destruct (runTurns_completed _ _ _ _ debateTurns _ _
                (startScript_aligned generateDebateTurnStream systemMessages)
                Hrun) as ((Hh & Hm & Hg) & reqs & Hreqs & Hslots).
    simpl in Hreqs. subst reqs.
    assert (Hp : map persona (generatedMessages st)
                 = map (fun s => Persona (fst s)) (map slotOf (requests st))).
    { rewrite Hg, !map_map. apply map_ext. intros req. reflexivity. }
    rewrite Hp, Hslots. repeat split; try assumption; reflexivity.
  - intros st err Hrun. unfold generateScript in Hrun.
    destruct (runTurns_prefix _ _ _ _ debateTurns _ _ _ Hrun)
      as (reqs & Hreqs & Hpre).
    simpl in Hreqs. subst reqs. exact Hpre.
Qed.

Lemma C7_turn_order_witness :
  exists st,
    generateScript Scenario.service Scenario.system Scenario.sides
      Scenario.question = inl st
    /\ map slotOf (requests st)
       = [ (Logos, "OPENING"); (Pathos, "OPENING"); (Logos, "REBUTTAL");
           (Pathos, "REBUTTAL"); (Logos, "CLOSING"); (Pathos, "CLOSING") ].
Proof.
  destruct (runTurns_total Scenario.service Scenario.system Scenario.sides
              Scenario.question debateTurns (startScript Scenario.system)
              (fun _ => eq_refl)
              (startScript_aligned Scenario.service Scenario.system))
    as [st Hst].
  exists st. split; [exact Hst|].
  apply (proj1 (proj2 (C7_turn_order Scenario.service Scenario.system
                         Scenario.sides Scenario.question)) st Hst).
Defined.

(** * Properties of the playback loop *)

(** Opens a state into its fields. *)
Ltac open_app st :=
  destruct st as [phase_ error_ status_ speaking_ summary_ comparison_
                    skipped_ trigger_ current_ context_ console_ pc_
                    pending_ decoding_ sounding_ effects_].

Section PlaybackFacts.

Variable generatedMessages : list DebateMessage.
Variable firstMessageOffset : nat.

Local Abbreviation loop_top := (loopTop generatedMessages firstMessageOffset).
Local Abbreviation step_ := (step generatedMessages firstMessageOffset).
Local Abbreviation run_ := (run generatedMessages firstMessageOffset).

Lemma elem_of_settle (i j : nat) (l : list nat) :
  j ∈ settle i l <-> j ∈ l /\ j <> i.
Proof. unfold settle. rewrite list_elem_of_filter. tauto. Qed.

Lemma wf_exitLoop (st : App) :
  isSkippedRef st = false \/ phase st <> DEBATING -> wf (exitLoop st).
Proof.
  intros H. unfold wf, exitLoop. open_app st; simpl in *.
  destruct skipped_; simpl; split; try reflexivity;
    destruct H; congruence.
Qed.

Lemma wf_loopTop (i : nat) (st : App) :
  isSkippedRef st = false -> phase st = DEBATING -> before i st ->
  wf (loop_top i st).
Proof.
  intros Hs Hp Hb. unfold loopTop.
  destruct (generatedMessages !! i) as [m|];
    [|apply wf_exitLoop; left; exact Hs].
  rewrite Hs. unfold wf, before in *. open_app st; simpl in *.
  repeat split; eauto.
  - apply elem_of_app. right. apply list_elem_of_singleton. reflexivity.
  - intros j [Hj|[Hj|Hj]]; apply Hb; auto.
    apply elem_of_app in Hj as [Hj|Hj]; [auto|].
    apply list_elem_of_singleton in Hj. discriminate.
Qed.

Lemma before_mono (i k : nat) (st : App) :
  (i <= k)%nat -> before i st -> before k st.
Proof. intros Hle Hb j Hj. specialize (Hb j Hj). lia. Qed.


Ltac before_tac Hb :=
  let j := fresh "j" in
  let Hj := fresh "Hj" in
  intros j Hj; simpl in Hj;
  repeat (rewrite elem_of_settle in Hj || rewrite elem_of_app in Hj
          || rewrite list_elem_of_singleton in Hj);
  pose proof (Hb j) as Hb; simpl in Hb;
  destruct Hj as [Hj|[Hj|Hj]];
  repeat match goal with
         | H : _ \/ _ |- _ => destruct H
         | H : _ /\ _ |- _ => destruct H
         end;
  simplify_eq; try lia;
  (match goal with
   | |- (?a < _)%nat => assert (a < _)%nat by (apply Hb; auto); lia
   end).

Lemma wf_afterAudio (i : nat) (d : string) (st : App) :
  skipTrigger st = Some i -> isSkippedRef st = false ->
  phase st = DEBATING -> is_Some (speakingMessageIndex st) ->
  before i st ->
  wf (afterAudio generatedMessages firstMessageOffset i d st).
Proof.
  intros Ht Hs Hp Hi Hb. unfold afterAudio.
  destruct (asInterrupt d) as [[]|]; cbn [afterInterrupt];
    [apply wf_loopTop;
       [assumption..|apply (before_mono i); [lia|assumption]]
    |apply wf_exitLoop; left; exact Hs|].
  destruct (Str.truthy d);
    [|apply wf_loopTop; [assumption..|apply (before_mono i); [lia|assumption]]].
  open_app st; simpl in *. subst. rewrite orb_false_r.
  destruct context_; simpl.
  - unfold wf. simpl. repeat split; auto.
    + left. apply elem_of_app. right. apply list_elem_of_singleton.
      reflexivity.
    + before_tac Hb.
  - apply wf_loopTop; simpl; auto. before_tac Hb.
Qed.

Lemma wf_catchRace (logged shown err : string) (st : App) :
  isSkippedRef st = false ->
  wf (catchRace logged shown err st).
Proof.
  intros Hs. unfold catchRace. rewrite Hs. apply wf_exitLoop. left.
  open_app st; simpl in *. exact Hs.
Qed.


Lemma wf_trigger (k : Interrupt) (st : App) :
  wf st -> wf (trigger generatedMessages firstMessageOffset k st).
Proof.
  intros Hwf. unfold trigger. pose proof Hwf as H. unfold wf in H.
  destruct (pc st) as [i|i|] eqn:Hpc; destruct (skipTrigger st) as [j|];
    try exact Hwf;
    (destruct (Nat.eqb_spec j i) as [->|Hne]; [|exact Hwf]);
    destruct H as (Ht & Hs & Hp & Hi & Hpend & Hb);
    (destruct k; simpl;
     [apply wf_loopTop; auto; apply (before_mono i); auto; lia
     |apply wf_exitLoop; left; exact Hs]).
Qed.

Lemma wf_step (st : App) (ev : Event) : wf st -> wf (step_ st ev).
Proof.
  intros Hwf. destruct ev as [i d|i e|i|i e|i| |]; simpl.
  - (* SpeechResolved *)
    case_bool_decide as Hin; [|exact Hwf].
    unfold wf in Hwf. open_app st; simpl in *.
    destruct pc_ as [j|j|]; try exact Hwf.
    destruct Hwf as (Ht & Hs & Hp & Hi & Hpend & Hb).
    destruct (Nat.eqb_spec j i) as [->|Hne].
    + apply wf_afterAudio; auto.
    + unfold wf. simpl. repeat split; auto.
      apply elem_of_settle. split; [assumption|congruence].
  - (* SpeechRejected *)
    case_bool_decide as Hin; [|exact Hwf].
    unfold wf in Hwf. open_app st; simpl in *.
    destruct pc_ as [j|j|]; try exact Hwf.
    destruct Hwf as (Ht & Hs & Hp & Hi & Hpend & Hb).
    destruct (Nat.eqb_spec j i) as [->|Hne].
    + apply wf_catchRace. exact Hs.
    + unfold wf. simpl. repeat split; auto.
      apply elem_of_settle. split; [assumption|congruence].
  - (* Decoded *)
    case_bool_decide as Hin; [|exact Hwf].
    destruct (isSkippedRef st) eqn:Hs.
    + unfold wf in Hwf. open_app st; simpl in *. subst.
      destruct pc_ as [j|j|]; try exact Hwf;
        destruct Hwf as (_ & ? & _); discriminate.
    + unfold wf in Hwf. open_app st; simpl in *.
      rewrite Hs. unfold wf. simpl.
      destruct pc_ as [j|j|]; try exact Hwf.
      * destruct Hwf as (Ht & _ & Hp & Hi & Hpend & Hb).
        assert (i < j)%nat by (apply Hb; auto).
        repeat split; auto. before_tac Hb.
      * destruct Hwf as (Ht & _ & Hp & Hi & Hpend & Hb).
        assert (i < S j)%nat by (apply Hb; auto).
        repeat split; auto.
        -- destruct (decide (j = i)) as [->|Hne].
           ++ right. apply elem_of_app. right.
              apply list_elem_of_singleton. reflexivity.
           ++ destruct Hpend as [Hd|Hd].
              ** left. apply elem_of_settle. auto.
              ** right. apply elem_of_app. auto.
        -- before_tac Hb.
  - (* DecodeFailed *)
    case_bool_decide as Hin; [|exact Hwf].
    unfold wf in Hwf. unfold playbackRejected. open_app st; simpl in *.
    destruct pc_ as [j|j|]; try exact Hwf.
    + unfold wf. simpl. destruct Hwf as (Ht & Hs & Hp & Hi & Hpend & Hb).
      repeat split; auto. before_tac Hb.
    + destruct Hwf as (Ht & Hs & Hp & Hi & Hpend & Hb).
      destruct (Nat.eqb_spec j i) as [->|Hne].
      * apply wf_catchRace. exact Hs.
      * unfold wf. simpl. repeat split; auto.
        -- destruct Hpend as [Hd|Hd]; [left|right; exact Hd].
           apply elem_of_settle. auto.
        -- before_tac Hb.
  - (* Ended *)
    case_bool_decide as Hin; [|exact Hwf].
    unfold wf in Hwf. unfold playbackResolved. open_app st; simpl in *.
    case_bool_decide as Hcur; simpl;
      (destruct pc_ as [j|j|]; [| |exact Hwf];
       destruct Hwf as (Ht & Hs & Hp & Hi & Hpend & Hb);
       [unfold wf; simpl; repeat split; auto; before_tac Hb|];
       destruct (Nat.eqb_spec j i) as [->|Hne];
       [apply wf_loopTop; simpl; auto; before_tac Hb|];
       unfold wf; simpl; repeat split; auto; try before_tac Hb;
       (destruct Hpend as [Hd|Hd]; [left; exact Hd|right];
        apply elem_of_settle; auto)).
  - (* ClickSkip *)
    destruct (phase st) eqn:Hp; try exact Hwf.
    destruct (speakingMessageIndex st) eqn:Hi; try exact Hwf.
    unfold handleSkip. apply wf_trigger.
    unfold stopCurrent. destruct (currentAudioSourceRef st); [|exact Hwf].
    unfold wf in *. open_app st; simpl in *.
    destruct pc_ as [j|j|]; try exact Hwf;
      destruct Hwf as (Ht & Hs & _ & _ & Hpend & Hb);
      repeat split; auto; before_tac Hb.
  - (* ClickSkipToVoting *)
    destruct (phase st) eqn:Hp; try exact Hwf.
    unfold handleSkipToVoting.
    destruct (isSkippedRef st) eqn:Hs; [exact Hwf|].
    unfold wf in Hwf. unfold trigger, stopCurrent.
    open_app st; simpl in *.
    destruct pc_ as [j|j|]; [| |destruct Hwf; congruence];
      destruct Hwf as (Ht & _ & _ & Hi & Hpend & Hb); subst;
      destruct current_; simpl; rewrite Nat.eqb_refl;
      simpl; apply wf_exitLoop; right; simpl; discriminate.
Qed.


Lemma run_app (st : App) (evs later : list Event) :
  run_ st (evs ++ later) = run_ (run_ st evs) later.
Proof. unfold run. apply fold_left_app. Qed.

Lemma wf_run (st : App) (evs : list Event) : wf st -> wf (run_ st evs).
Proof.
  revert st. induction evs as [|ev evs IH]; intros st Hwf; [exact Hwf|].
  simpl. apply IH, wf_step, Hwf.
Qed.

Lemma wf_startPlayback (webAudio : option string) (st : App) :
  isSkippedRef st = false -> skipTrigger st = None -> before 0 st ->
  wf (startPlayback generatedMessages firstMessageOffset webAudio st).
Proof.
  intros Hs Ht Hb. unfold startPlayback.
  destruct (audioContextRef st) eqn:Hctx; simpl; rewrite ?Hctx.
  - apply wf_loopTop; auto.
  - destruct webAudio as [message|].
    + unfold wf, failStart. simpl. split; [exact Ht|discriminate].
    + apply wf_loopTop; auto.
Qed.

(** ** After the loop has returned *)

(** Once [runDebate] has returned and the debate view is gone, the events
    that are still to come change neither the phase nor the error, start
    no request for audio, and, with the skip flag set, have no effect on
    the capabilities at all. *)
Lemma returned_step (st : App) (ev : Event) :
  pc st = Returned -> phase st <> DEBATING ->
  let st' := step_ st ev in
  pc st' = Returned /\ phase st' = phase st /\ error st' = error st
  /\ isSkippedRef st' = isSkippedRef st
  /\ summary st' = summary st /\ comparison st' = comparison st
  /\ (isSkippedRef st = true -> effects st' = effects st)
  /\ (forall j, SpeechRequested j ∈ effects st'
                -> SpeechRequested j ∈ effects st).
Proof.
  intros Hpc Hph. open_app st; simpl in *. subst.
  destruct ev as [i d|i e|i|i e|i| |]; simpl;
    repeat case_bool_decide; simpl;
    try (destruct phase_; try congruence; simpl);
    try (destruct skipped_; simpl);
    repeat split; auto; try congruence;
    intros j Hj; rewrite ?elem_of_app, ?list_elem_of_singleton in Hj;
    destruct Hj as [Hj|Hj]; auto; discriminate.
Qed.


(** ** A turn that was left behind *)

Lemma passed_exitLoop (i : nat) (st : App) :
  i ∉ decoding st -> i ∉ sounding st -> SourceStarted i ∉ effects st ->
  passed i (exitLoop st).
Proof.
  intros Hd Hs He. unfold passed, exitLoop. open_app st; simpl in *.
  destruct skipped_; simpl; auto.
Qed.

Lemma passed_loopTop (i j : nat) (st : App) :
  (i < j)%nat ->
  i ∉ decoding st -> i ∉ sounding st -> SourceStarted i ∉ effects st ->
  passed i (loop_top j st).
Proof.
  intros Hlt Hd Hs He. unfold loopTop.
  destruct (generatedMessages !! j); [|apply passed_exitLoop; auto].
  destruct (isSkippedRef st) eqn:Hsk; [apply passed_exitLoop; auto|].
  unfold passed. open_app st; simpl in *. repeat split; auto.
  rewrite elem_of_app, list_elem_of_singleton. intros [H|H]; [auto|].
  discriminate.
Qed.

Ltac notin_tac :=
  simpl;
  repeat (rewrite elem_of_settle || rewrite elem_of_app
          || rewrite list_elem_of_singleton);
  intros ?; repeat match goal with
                   | H : _ \/ _ |- _ => destruct H
                   | H : _ /\ _ |- _ => destruct H
                   end; simplify_eq; try lia; auto.

Lemma passed_step (i : nat) (st : App) (ev : Event) :
  passed i st -> passed i (step_ st ev).
Proof.
  intros (Hpc & Hd & Hs & He).
  destruct ev as [k d|k e|k|k e|k| |]; simpl.
  - case_bool_decide; [|repeat split; assumption].
    open_app st; simpl in *. destruct pc_ as [j|j|]; simpl;
      try (repeat split; assumption).
    destruct (Nat.eqb_spec j k) as [->|Hne]; [|repeat split; assumption].
    unfold afterAudio.
    destruct (asInterrupt d) as [[]|]; cbn [afterInterrupt];
      [apply passed_loopTop; simpl; auto; lia
      |apply passed_exitLoop; simpl; auto|].
    destruct (Str.truthy d);
      [|apply passed_loopTop; simpl; auto; lia].
    simpl. destruct (negb context_ || skipped_)%bool.
    + apply passed_loopTop; simpl; auto; lia.
    + unfold passed. simpl. repeat split; auto. notin_tac.
  - case_bool_decide; [|repeat split; assumption].
    open_app st; simpl in *. destruct pc_ as [j|j|]; simpl;
      try (repeat split; assumption).
    destruct (Nat.eqb_spec j k) as [->|Hne]; [|repeat split; assumption].
    unfold catchRace. simpl. destruct skipped_; simpl;
      apply passed_exitLoop; simpl; auto.
  - case_bool_decide as Hin; [|repeat split; assumption].
    assert (k <> i) by (intros ->; contradiction).
    unfold playbackResolved. open_app st; simpl in *.
    destruct skipped_; simpl.
    + destruct pc_ as [j|j|]; simpl; try (repeat split; auto; notin_tac).
      destruct (Nat.eqb_spec j k) as [->|Hne].
      * apply passed_loopTop; simpl; auto; try lia. notin_tac.
      * repeat split; auto. notin_tac.
    + repeat split; auto; notin_tac.
  - case_bool_decide as Hin; [|repeat split; assumption].
    unfold playbackRejected. open_app st; simpl in *.
    destruct pc_ as [j|j|]; simpl; try (repeat split; auto; notin_tac).
    destruct (Nat.eqb_spec j k) as [->|Hne].
    + unfold catchRace. simpl. destruct skipped_; simpl;
        apply passed_exitLoop; simpl; auto; notin_tac.
    + repeat split; auto. notin_tac.
  - case_bool_decide as Hin; [|repeat split; assumption].
    unfold playbackResolved. open_app st; simpl in *.
    case_bool_decide; simpl;
      (destruct pc_ as [j|j|]; simpl; try (repeat split; auto; notin_tac);
       destruct (Nat.eqb_spec j k) as [->|Hne];
       [apply passed_loopTop; simpl; auto; try lia; notin_tac
       |repeat split; auto; notin_tac]).
  - destruct (phase st); try (repeat split; assumption).
    destruct (speakingMessageIndex st); try (repeat split; assumption).
    unfold handleSkip, trigger, stopCurrent. open_app st; simpl in *.
    destruct current_; simpl;
      (destruct trigger_ as [t|]; simpl;
       [|destruct pc_; repeat split; auto; notin_tac]);
      (destruct pc_ as [j|j|]; simpl; try (repeat split; auto; notin_tac);
       (destruct (Nat.eqb_spec t j) as [->|Hne];
        [apply passed_loopTop; simpl; auto; try lia; notin_tac
        |repeat split; auto; notin_tac])).
  - destruct (phase st); try (repeat split; assumption).
    unfold handleSkipToVoting, trigger, stopCurrent.
    open_app st; simpl in *.
    destruct skipped_; simpl; [repeat split; assumption|].
    destruct current_; simpl;
      (destruct trigger_ as [t|]; simpl;
       [|destruct pc_; repeat split; auto; notin_tac]);
      (destruct pc_ as [j|j|]; simpl; try (repeat split; auto; notin_tac);
       (destruct (Nat.eqb_spec t j) as [->|Hne];
        [apply passed_exitLoop; simpl; auto; notin_tac
        |repeat split; auto; notin_tac])).
Qed.

Lemma passed_run (i : nat) (st : App) (evs : list Event) :
  passed i st -> passed i (run_ st evs).
Proof.
  revert st. induction evs as [|ev evs IH]; intros st H; [exact H|].
  simpl. apply IH, passed_step, H.
Qed.


(** ** An uninterrupted turn *)

Local Arguments loopTop : simpl never.

Lemma play_turn (i : nat) (d : string) (st : App) :
  wf st -> pc st = AwaitAudio i -> audioContextRef st = true ->
  Str.truthy d = true -> asInterrupt d = None ->
  exists st0,
    run_ st [SpeechResolved i d; Decoded i; Ended i] = loop_top (S i) st0
    /\ isSkippedRef st0 = false /\ phase st0 = DEBATING
    /\ audioContextRef st0 = true /\ before (S i) st0
    /\ error st0 = error st /\ summary st0 = summary st
    /\ comparison st0 = comparison st.
Proof.
  intros Hwf Hpc Hctx Hd Hv. unfold wf in Hwf. rewrite Hpc in Hwf.
  destruct Hwf as (Ht & Hs & Hp & Hi & Hpend & Hb).
  open_app st; simpl in *. subst.
  assert (Hlast : forall l : list nat, i ∈ l ++ [i])
    by (intros l; apply elem_of_app; right; apply list_elem_of_singleton;
        reflexivity).
  rewrite (bool_decide_eq_true_2 _ Hpend). simpl.
  rewrite Nat.eqb_refl. unfold afterAudio. rewrite Hv, Hd. simpl.
  rewrite (bool_decide_eq_true_2 _ (Hlast decoding_)). simpl.
  rewrite (bool_decide_eq_true_2 _ (Hlast sounding_)). simpl.
  rewrite (bool_decide_eq_true_2 (Some i = Some i)) by reflexivity. simpl.
  unfold playbackResolved. simpl. rewrite Nat.eqb_refl.
  eexists. split; [reflexivity|]. simpl.
  repeat split; auto. before_tac Hb.
Qed.

(** The head of an iteration and the end of the loop leave the decoder
    and the audio output alone. *)
Lemma loopTop_outputs (j : nat) (st : App) :
  decoding (loop_top j st) = decoding st
  /\ sounding (loop_top j st) = sounding st.
Proof.
  unfold loopTop, exitLoop. destruct (generatedMessages !! j);
    open_app st; simpl; destruct skipped_; split; reflexivity.
Qed.

Lemma exitLoop_voting (st : App) :
  isSkippedRef st = false ->
  pc (exitLoop st) = Returned /\ phase (exitLoop st) = VOTING
  /\ error (exitLoop st) = error st /\ summary (exitLoop st) = summary st
  /\ comparison (exitLoop st) = comparison st
  /\ decoding (exitLoop st) = decoding st
  /\ effects (exitLoop st) = effects st.
Proof.
  intros Hs. unfold exitLoop. open_app st; simpl in *. subst. simpl.
  repeat split; reflexivity.
Qed.

(** A turn whose audio data is one of the two interrupt strings: the
    loop takes the data for the interrupt, and the turn is over without
    having reached the decoder. *)
Lemma play_turn_interrupt (i : nat) (d : string) (k : Interrupt)
    (st : App) :
  wf st -> pc st = AwaitAudio i -> asInterrupt d = Some k ->
  exists st0,
    run_ st [SpeechResolved i d; Decoded i; Ended i]
    = afterInterrupt generatedMessages firstMessageOffset i k st0
    /\ isSkippedRef st0 = false /\ phase st0 = DEBATING
    /\ audioContextRef st0 = audioContextRef st /\ before (S i) st0
    /\ error st0 = error st /\ summary st0 = summary st
    /\ comparison st0 = comparison st.
Proof.
  intros Hwf Hpc Hv. unfold wf in Hwf. rewrite Hpc in Hwf.
  destruct Hwf as (Ht & Hs & Hp & Hi & Hpend & Hb).
  exists (setSpeechPending (settle i (speechPending st)) st).
  assert (Hd : i ∉ decoding st)
    by (intros H; pose proof (Hb i (or_introl H)); lia).
  assert (Hn : i ∉ sounding st)
    by (intros H; pose proof (Hb i (or_intror (or_introl H))); lia).
  split.
  - cbn [run fold_left step]. rewrite (bool_decide_eq_true_2 _ Hpend).
    assert (Hpc' : pc (setSpeechPending (settle i (speechPending st)) st)
                   = AwaitAudio i) by (rewrite <- Hpc; open_app st; reflexivity).
    rewrite Hpc', Nat.eqb_refl. unfold afterAudio. rewrite Hv.
    set (st0 := setSpeechPending (settle i (speechPending st)) st).
    assert (Hd0 : i ∉ decoding
                       (afterInterrupt generatedMessages firstMessageOffset
                          i k st0)).
    { destruct k; cbn [afterInterrupt].
      - rewrite (proj1 (loopTop_outputs (S i) st0)). subst st0.
        open_app st; exact Hd.
      - unfold exitLoop. subst st0. open_app st; simpl in *.
        destruct skipped_; exact Hd. }
    assert (Hn0 : i ∉ sounding
                       (afterInterrupt generatedMessages firstMessageOffset
                          i k st0)).
    { destruct k; cbn [afterInterrupt].
      - rewrite (proj2 (loopTop_outputs (S i) st0)). subst st0.
        open_app st; exact Hn.
      - unfold exitLoop. subst st0. open_app st; simpl in *.
        destruct skipped_; exact Hn. }
    rewrite (bool_decide_eq_false_2 _ Hd0), (bool_decide_eq_false_2 _ Hn0).
    reflexivity.
  - open_app st; simpl in *. repeat split; auto.
    apply (before_mono i); [lia|exact Hb].
Qed.

Lemma loopTop_cases (j : nat) (st0 : App) :
  isSkippedRef st0 = false ->
  let st := loop_top j st0 in
  error st = error st0 /\ summary st = summary st0
  /\ comparison st = comparison st0
  /\ match generatedMessages !! j with
     | Some _ =>
         pc st = AwaitAudio j /\ audioContextRef st = audioContextRef st0
         /\ last (effects st) = Some (SpeechRequested j)
     | None => pc st = Returned /\ phase st = VOTING
     end.
Proof.
  intros Hs. unfold loopTop. destruct (generatedMessages !! j).
  - rewrite Hs. open_app st0; simpl. repeat split; auto.
    apply last_snoc.
  - unfold exitLoop. open_app st0; simpl in *. subst. simpl.
    repeat split; auto.
Qed.

End PlaybackFacts.

Section SessionFacts.

Variable sv : Services.
Variable systemMessages : list DebateMessage.
Variable currentSides : AIPersona -> string.
Variable currentQuestion : string.

Local Abbreviation script :=
  (scriptOf sv systemMessages currentSides currentQuestion).
Local Abbreviation offset := (length systemMessages).
Local Abbreviation session_ :=
  (session sv systemMessages currentSides currentQuestion).

Lemma wf_session (evs : list Event) : wf (session_ evs).
Proof.
  unfold session. apply wf_run. unfold runDebate, scriptOf.
  destruct (generateScript _ _ _ _) as [sc|[sc message]]; simpl.
  - apply wf_startPlayback.
    + unfold analyse. destruct (Promise_all _ _ _) as [[s c]|m]; reflexivity.
    + unfold analyse. destruct (Promise_all _ _ _) as [[s c]|m]; reflexivity.
    + intros j. unfold analyse.
      destruct (Promise_all _ _ _) as [[s c]|m]; simpl;
        rewrite !elem_of_nil; tauto.
  - unfold wf. simpl. split; [reflexivity|discriminate].
Qed.

Lemma session_app (evs later : list Event) :
  session_ (evs ++ later) = run script offset (session_ evs) later.
Proof. unfold session. apply run_app. Qed.

Lemma returned_run (st : App) (evs : list Event) :
  pc st = Returned -> phase st <> DEBATING ->
  let st' := run script offset st evs in
  pc st' = Returned /\ phase st' = phase st /\ error st' = error st
  /\ isSkippedRef st' = isSkippedRef st
  /\ summary st' = summary st /\ comparison st' = comparison st
  /\ (isSkippedRef st = true -> effects st' = effects st)
  /\ (forall j, SpeechRequested j ∈ effects st'
                -> SpeechRequested j ∈ effects st).
Proof.
  revert st. induction evs as [|ev evs IH]; intros st Hpc Hph; simpl.
  - repeat split; auto.
  - destruct (returned_step script offset st ev Hpc Hph)
      as (Hpc1 & Hph1 & He1 & Hs1 & Hsum1 & Hcmp1 & Heff1 & Hreq1).
    assert (Hph1' : phase (step script offset st ev) <> DEBATING)
      by (rewrite Hph1; exact Hph).
    destruct (IH _ Hpc1 Hph1')
      as (Hpc2 & Hph2 & He2 & Hs2 & Hsum2 & Hcmp2 & Heff2 & Hreq2).
    repeat split; try congruence.
    + intros Hsk. rewrite Heff2 by congruence. auto.
    + intros j Hj. auto.
Qed.

(** From the head of turn [i] an uninterrupted playback of the turns that
    are left ends in the voting phase. *)
Lemma play_rest (audio : nat -> string) (k i : nat) (st0 : App) :
  (forall j, Str.truthy (audio j) = true) ->
  (i + k = length script)%nat ->
  isSkippedRef st0 = false -> phase st0 = DEBATING ->
  audioContextRef st0 = true -> before i st0 ->
  let st' :=
    run script offset (loopTop script offset i st0)
      (uninterrupted audio i k) in
  pc st' = Returned /\ phase st' = VOTING /\ error st' = error st0
  /\ summary st' = summary st0 /\ comparison st' = comparison st0.
Proof.
  intros Haudio. revert i st0.
  induction k as [|k IH]; intros i st0 Hlen Hs Hp Hctx Hb.
  - simpl. destruct (loopTop_cases script offset i st0 Hs)
      as (He & Hsum & Hcmp & Hcase).
    rewrite lookup_ge_None_2 in Hcase by lia.
    destruct Hcase. repeat split; assumption.
  - pose proof (wf_loopTop script offset i st0 Hs Hp Hb) as Hwf.
    destruct (loopTop_cases script offset i st0 Hs)
      as (He & Hsum & Hcmp & Hcase).
    destruct (lookup_lt_is_Some_2 script i) as [m Hm]; [lia|].
    rewrite Hm in Hcase. destruct Hcase as (Hpc & Hctx' & _).
    cbv zeta. unfold uninterrupted. cbn [seq flat_map].
    destruct (asInterrupt (audio i)) as [[]|] eqn:Hv.
    + destruct (play_turn_interrupt script offset i (audio i) toTurn _
                  Hwf Hpc Hv)
        as (st1 & Hrun & Hs1 & Hp1 & Hctx1 & Hb1 & He1 & Hsum1 & Hcmp1).
      rewrite run_app, Hrun. cbn [afterInterrupt].
      destruct (IH (S i) st1 ltac:(lia) Hs1 Hp1 ltac:(congruence) Hb1)
        as (Hpc2 & Hp2 & He2 & Hsum2 & Hcmp2).
      cbv zeta in *. unfold uninterrupted in *.
      repeat split; try assumption; congruence.
    + destruct (play_turn_interrupt script offset i (audio i) toVoting _
                  Hwf Hpc Hv)
        as (st1 & Hrun & Hs1 & Hp1 & Hctx1 & Hb1 & He1 & Hsum1 & Hcmp1).
      rewrite run_app, Hrun. cbn [afterInterrupt].
      destruct (exitLoop_voting st1 Hs1)
        as (Hpcx & Hpx & Hex & Hsumx & Hcmpx & _).
      destruct (returned_run (exitLoop st1)
                  (flat_map
                     (fun j => [SpeechResolved j (audio j); Decoded j;
                                Ended j]) (seq (S i) k))
                  Hpcx ltac:(rewrite Hpx; discriminate))
        as (Hpc2 & Hp2 & He2 & _ & Hsum2 & Hcmp2 & _).
      repeat split; try assumption; congruence.
    + destruct (play_turn script offset i (audio i) _ Hwf Hpc
                  (eq_trans Hctx' Hctx) (Haudio i) Hv)
        as (st1 & Hrun & Hs1 & Hp1 & Hctx1 & Hb1 & He1 & Hsum1 & Hcmp1).
      rewrite run_app, Hrun.
      destruct (IH (S i) st1 ltac:(lia) Hs1 Hp1 Hctx1 Hb1)
        as (Hpc2 & Hp2 & He2 & Hsum2 & Hcmp2).
      cbv zeta in *. unfold uninterrupted in *.
      repeat split; try assumption; congruence.
Qed.

End SessionFacts.

Section ClaimsOnSessions.

Variable sv : Services.
Variable systemMessages : list DebateMessage.
Variable currentSides : AIPersona -> string.
Variable currentQuestion : string.

Local Abbreviation script :=
  (scriptOf sv systemMessages currentSides currentQuestion).
Local Abbreviation offset := (length systemMessages).
Local Abbreviation session_ :=
  (session sv systemMessages currentSides currentQuestion).

Lemma session_snoc (evs : list Event) (ev : Event) :
  session_ (evs ++ [ev]) = step script offset (session_ evs) ev.
Proof. rewrite session_app. reflexivity. Qed.

Lemma session_cons (evs later : list Event) (ev : Event) :
  session_ (evs ++ ev :: later)
  = run script offset (step script offset (session_ evs) ev) later.
Proof. rewrite session_app. reflexivity. Qed.

(** What the invariant gives while the first race of turn [i] is
    pending. *)
Lemma awaiting_audio (evs : list Event) (i : nat) :
  pc (session_ evs) = AwaitAudio i ->
  skipTrigger (session_ evs) = Some i
  /\ isSkippedRef (session_ evs) = false
  /\ phase (session_ evs) = DEBATING
  /\ is_Some (speakingMessageIndex (session_ evs))
  /\ i ∈ speechPending (session_ evs)
  /\ before i (session_ evs).
Proof.
  intros Hpc. pose proof (wf_session sv systemMessages currentSides
                            currentQuestion evs) as Hwf.
  unfold wf in Hwf. rewrite Hpc in Hwf. exact Hwf.
Qed.

Lemma script_length (sc : Script) :
  generateScript (turnStream sv) systemMessages currentSides
    currentQuestion = inl sc ->
  length script = 6%nat.
Proof.
  intros Hgen. unfold scriptOf. rewrite Hgen.
  destruct (runTurns_completed _ _ _ _ debateTurns _ _
              (startScript_aligned (turnStream sv) systemMessages) Hgen)
    as ((_ & _ & Hg) & reqs & Hreqs & Hslots).
  simpl in Hreqs. subst reqs. rewrite Hg, length_map.
  apply (f_equal length) in Hslots. rewrite length_map in Hslots.
  exact Hslots.
Qed.

End ClaimsOnSessions.

(** C1 (as the code has it): the two analysis requests are awaited
    together; when both succeed both results are present, and when either
    fails both stay absent and the failure is only logged, whichever
    request it was; in every case no error is shown and the playback
    starts, and an uninterrupted playback of the six turns ends in the
    voting phase with the analysis as it was. *)
Theorem C1_analysis_all_or_nothing (sv : Services)
    (systemMessages : list DebateMessage)
    (currentSides : AIPersona -> string) (currentQuestion : string)
    (sc : Script) (audio : nat -> string) :
  generateScript (turnStream sv) systemMessages currentSides
    currentQuestion = inl sc ->
  webAudio sv = None ->
  (forall i, Str.truthy (audio i) = true) ->
  let st := session sv systemMessages currentSides currentQuestion [] in
  let final :=
    session sv systemMessages currentSides currentQuestion
      (uninterrupted audio 0 6) in
  match debateSummary sv, argumentComparison sv with
  | Fulfilled s, Fulfilled c =>
      summary st = Some s /\ comparison st = Some c /\ console st = []
  | Fulfilled _, Rejected e | Rejected e, Fulfilled _ =>
      summary st = None /\ comparison st = None
      /\ console st
         = [("Failed to generate post-debate analysis: " ++ e)%string]
  | Rejected es, Rejected ec =>
      summary st = None /\ comparison st = None
      /\ console st
         = [("Failed to generate post-debate analysis: "
               ++ (if comparisonFirst sv then ec else es))%string]
  end
  /\ error st = None /\ phase st = DEBATING /\ pc st = AwaitAudio 0
  /\ pc final = Returned /\ phase final = VOTING /\ error final = None
  /\ summary final = summary st /\ comparison final = comparison st.
Proof.
  intros Hgen Hweb Haudio st final.
  pose proof (script_length sv systemMessages currentSides currentQuestion
                sc Hgen) as Hlen.
  set (gm := scriptOf sv systemMessages currentSides currentQuestion)
    in *.
  set (st0 :=
         setAudioContextRef true
           (setStatusText "Debate script generated. Starting playback..."
              (setPhase DEBATING
                 (analyse (debateSummary sv) (argumentComparison sv)
                    (comparisonFirst sv)
                    (setStatusText "Generating debate script..."
                       analyzing))))).
  assert (Hst : st = loopTop gm (length systemMessages) 0 st0).
  { subst st gm st0. unfold session, scriptOf, runDebate. rewrite Hgen.
    simpl. unfold startPlayback. rewrite Hweb.
    unfold analyse. destruct (Promise_all _ _ _) as [[s c]|m]; reflexivity. }
  assert (Hs0 : isSkippedRef st0 = false)
    by (subst st0; unfold analyse;
        destruct (Promise_all _ _ _) as [[s c]|m]; reflexivity).
  assert (Hp0 : phase st0 = DEBATING)
    by (subst st0; unfold analyse;
        destruct (Promise_all _ _ _) as [[s c]|m]; reflexivity).
  assert (Hc0 : audioContextRef st0 = true)
    by (subst st0; unfold analyse;
        destruct (Promise_all _ _ _) as [[s c]|m]; reflexivity).
  assert (He0 : error st0 = None)
    by (subst st0; unfold analyse;
        destruct (Promise_all _ _ _) as [[s c]|m]; reflexivity).
  assert (Hb0 : before 0 st0).
  { intros j Hj. subst st0. unfold analyse in Hj.
    destruct (Promise_all _ _ _) as [[s c]|m]; simpl in Hj;
      rewrite !elem_of_nil in Hj; tauto. }
  destruct (loopTop_cases gm (length systemMessages) 0 st0 Hs0)
    as (He & Hsum & Hcmp & Hcase).
  destruct (lookup_lt_is_Some_2 gm 0) as [m Hm]; [lia|].
  rewrite Hm in Hcase. destruct Hcase as (Hpc & _ & _).
  destruct (play_rest sv systemMessages currentSides currentQuestion audio
              6 0 st0 Haudio (eq_sym Hlen) Hs0 Hp0 Hc0 Hb0)
    as (Hpcf & Hpf & Hef & Hsumf & Hcmpf).
  fold gm in Hpcf, Hpf, Hef, Hsumf, Hcmpf.
  assert (Hfinal : final
                   = run gm (length systemMessages) st (uninterrupted audio 0 6))
    by reflexivity.
  rewrite Hfinal, Hst.
  assert (Hwf := wf_loopTop gm (length systemMessages) 0 st0 Hs0 Hp0 Hb0).
  unfold wf in Hwf. rewrite Hpc in Hwf. destruct Hwf as (_ & _ & Hph & _).
  split.
  - rewrite Hsum, Hcmp.
    assert (Hcon : console (loopTop gm (length systemMessages) 0 st0)
                   = console st0).
    { unfold loopTop. rewrite Hm, Hs0. open_app st0; reflexivity. }
    rewrite Hcon. subst st0. unfold analyse.
    destruct (debateSummary sv), (argumentComparison sv); simpl;
      repeat split; reflexivity.
  - repeat split; try assumption; congruence.
Qed.

(** C2 (as the code has it): when the audio request of turn [i] rejects
    while its race is pending, no skip having been signalled, the loop is
    left at once and issues no further audio request, the error "Failed to
    generate audio for a turn." is shown and logged, and the code after the
    loop moves the phase to voting, where it stays with the error shown. *)
Theorem C2_audio_rejection (sv : Services)
    (systemMessages : list DebateMessage)
    (currentSides : AIPersona -> string) (currentQuestion : string)
    (evs later : list Event) (i : nat) (err : string) :
  let run_session :=
    session sv systemMessages currentSides currentQuestion in
  let st := run_session evs in
  let st1 := run_session (evs ++ [SpeechRejected i err]) in
  let st2 := run_session (evs ++ SpeechRejected i err :: later) in
  pc st = AwaitAudio i ->
  isSkippedRef st = false /\ phase st = DEBATING
  /\ pc st1 = Returned
  /\ error st1 = Some "Failed to generate audio for a turn."
  /\ console st1
     = console st ++ [("Error during audio generation: " ++ err)%string]
  /\ effects st1 = effects st
  /\ phase st1 = VOTING
  /\ pc st2 = Returned /\ phase st2 = VOTING
  /\ error st2 = Some "Failed to generate audio for a turn."
  /\ forall j, SpeechRequested j ∈ effects st2
               -> SpeechRequested j ∈ effects st.
Proof.
  intros run_session st st1 st2 Hpc.
  destruct (awaiting_audio sv systemMessages currentSides currentQuestion
              evs i Hpc) as (Ht & Hs & Hp & Hi & Hpend & Hb).
  fold run_session in Ht, Hs, Hp, Hi, Hpend, Hb. fold st in Ht, Hs, Hp,
    Hi, Hpend, Hb.
  set (gm := scriptOf sv systemMessages currentSides currentQuestion).
  assert (H1 : st1 = step gm (length systemMessages) st (SpeechRejected i err))
    by apply session_snoc.
  assert (H2 : st2 = run gm (length systemMessages) st1 later)
    by (rewrite H1; apply session_cons).
  assert (Hst1 : pc st1 = Returned
                 /\ error st1 = Some "Failed to generate audio for a turn."
                 /\ console st1
                    = console st
                      ++ [("Error during audio generation: " ++ err)%string]
                 /\ effects st1 = effects st /\ phase st1 = VOTING).
  { rewrite H1. clearbody st. clear H1 H2 st1 st2. simpl.
    rewrite (bool_decide_eq_true_2 _ Hpend).
    open_app st; simpl in *. subst. rewrite Nat.eqb_refl.
    repeat split; reflexivity. }
  destruct Hst1 as (Hpc1 & He1 & Hc1 & Hf1 & Hp1).
  destruct (returned_run sv systemMessages currentSides currentQuestion
              st1 later Hpc1 ltac:(rewrite Hp1; discriminate))
    as (Hpc2 & Hp2 & He2 & _ & _ & _ & _ & Hreq).
  fold gm in Hpc2, Hp2, He2, Hreq. rewrite <- H2 in Hpc2, Hp2, He2, Hreq.
  repeat split; try assumption; try congruence.
  intros j Hj. rewrite <- Hf1. apply Hreq, Hj.
Qed.

(** C8: a click on "Skip to Voting" while the loop is suspended sets the
    skip flag for good and makes the loop return in the same task, in the
    voting phase; whatever happens afterwards, also the settling of
    promises that were in flight, starts no audio request and no
    playback, and leaves flag, phase and loop where they are; a second
    click changes nothing, and neither does a second call of the
    handler. *)
Theorem C8_jump_to_voting (sv : Services)
    (systemMessages : list DebateMessage)
    (currentSides : AIPersona -> string) (currentQuestion : string)
    (evs later : list Event) :
  let run_session :=
    session sv systemMessages currentSides currentQuestion in
  let gm := scriptOf sv systemMessages currentSides currentQuestion in
  let st := run_session evs in
  let st1 := run_session (evs ++ [ClickSkipToVoting]) in
  let st2 := run_session (evs ++ ClickSkipToVoting :: later) in
  pc st <> Returned ->
  pc st1 = Returned /\ isSkippedRef st1 = true /\ phase st1 = VOTING
  /\ pc st2 = Returned /\ isSkippedRef st2 = true /\ phase st2 = VOTING
  /\ effects st2 = effects st1
  /\ run_session (evs ++ ClickSkipToVoting :: ClickSkipToVoting :: later)
     = st2
  /\ handleSkipToVoting gm (length systemMessages)
       (handleSkipToVoting gm (length systemMessages) st)
     = handleSkipToVoting gm (length systemMessages) st.
Proof.
  intros run_session gm st st1 st2 Hpc.
  pose proof (wf_session sv systemMessages currentSides currentQuestion
                evs) as Hwf.
  fold run_session in Hwf. fold st in Hwf.
  assert (H1 : st1 = step gm (length systemMessages) st ClickSkipToVoting)
    by apply session_snoc.
  assert (H2 : st2 = run gm (length systemMessages) st1 later)
    by (rewrite H1; apply session_cons).
  assert (H3 : run_session
                 (evs ++ ClickSkipToVoting :: ClickSkipToVoting :: later)
               = run gm (length systemMessages)
                   (step gm (length systemMessages) st1 ClickSkipToVoting)
                   later).
  { rewrite H1. unfold run_session.
    rewrite (session_cons sv systemMessages currentSides currentQuestion
               evs (ClickSkipToVoting :: later) ClickSkipToVoting).
    reflexivity. }
  assert (Hst1 : pc st1 = Returned /\ isSkippedRef st1 = true
                 /\ phase st1 = VOTING
                 /\ handleSkipToVoting gm (length systemMessages)
                      (handleSkipToVoting gm (length systemMessages) st)
                    = handleSkipToVoting gm (length systemMessages) st).
  { rewrite H1. clearbody st. clear H1 H2 H3 st1 st2.
    unfold wf in Hwf. open_app st; simpl in *.
    destruct pc_ as [i|i|]; [| |congruence];
      destruct Hwf as (Ht & Hs & Hp & _); subst; simpl;
      unfold handleSkipToVoting, trigger, stopCurrent; simpl;
      destruct current_; simpl; rewrite Nat.eqb_refl;
      simpl; repeat split; reflexivity. }
  destruct Hst1 as (Hpc1 & Hs1 & Hp1 & Hidem).
  destruct (returned_run sv systemMessages currentSides currentQuestion
              st1 later Hpc1 ltac:(rewrite Hp1; discriminate))
    as (Hpc2 & Hp2 & _ & Hs2 & _ & _ & Heff & _).
  fold gm in Hpc2, Hp2, Hs2, Heff. rewrite <- H2 in Hpc2, Hp2, Hs2, Heff.
  assert (Hagain : step gm (length systemMessages) st1 ClickSkipToVoting
                   = st1) by (simpl; rewrite Hp1; reflexivity).
  rewrite H3, Hagain, <- H2.
  repeat split; try assumption; try congruence. apply Heff, Hs1.
Qed.

(** C9: a click on "skip turn" while the audio of turn [i] is pending takes
    the loop to the head of turn [i+1] in the same task (the request for
    the next audio, or the end of the loop after the last turn); turn
    [i] never reaches the decoder or the audio output afterwards and the
    loop never awaits it again; and when the abandoned audio promise
    settles later, nothing but the list of pending promises changes. *)
Theorem C9_advance_pending_audio (sv : Services)
    (systemMessages : list DebateMessage)
    (currentSides : AIPersona -> string) (currentQuestion : string)
    (evs later : list Event) (i : nat) (audioData : string) :
  let run_session :=
    session sv systemMessages currentSides currentQuestion in
  let gm := scriptOf sv systemMessages currentSides currentQuestion in
  let st := run_session evs in
  let st1 := run_session (evs ++ [ClickSkip]) in
  let st2 := run_session (evs ++ ClickSkip :: later) in
  pc st = AwaitAudio i ->
  match gm !! S i with
  | Some _ =>
      pc st1 = AwaitAudio (S i)
      /\ last (effects st1) = Some (SpeechRequested (S i))
  | None => pc st1 = Returned /\ phase st1 = VOTING
  end
  /\ pc st2 <> AwaitAudio i /\ pc st2 <> AwaitPlay i
  /\ (i ∉ decoding st2) /\ (i ∉ sounding st2)
  /\ (SourceStarted i ∉ effects st2)
  /\ setSpeechPending (speechPending st2)
       (step gm (length systemMessages) st2 (SpeechResolved i audioData))
     = st2.
Proof.
  intros run_session gm st st1 st2 Hpc.
  destruct (awaiting_audio sv systemMessages currentSides currentQuestion
              evs i Hpc) as (Ht & Hs & Hp & Hi & Hpend & Hb).
  fold run_session in Ht, Hs, Hp, Hi, Hpend, Hb. fold st in Ht, Hs, Hp,
    Hi, Hpend, Hb.
  assert (H1 : st1 = step gm (length systemMessages) st ClickSkip)
    by apply session_snoc.
  assert (H2 : st2 = run gm (length systemMessages) st1 later)
    by (rewrite H1; apply session_cons).
  assert (Hnd : i ∉ decoding st)
    by (intros H; assert (i < i)%nat by (apply Hb; auto); lia).
  assert (Hns : i ∉ sounding st)
    by (intros H; assert (i < i)%nat by (apply Hb; auto); lia).
  assert (Hne : SourceStarted i ∉ effects st)
    by (intros H; assert (i < i)%nat by (apply Hb; auto); lia).
  assert (Hst1 : st1 = loopTop gm (length systemMessages) (S i)
                         (stopCurrent st)).
  { rewrite H1. simpl. rewrite Hp. destruct Hi as [k Hk]. rewrite Hk.
    unfold handleSkip, trigger.
    assert (Hpc' : pc (stopCurrent st) = AwaitAudio i)
      by (unfold stopCurrent; destruct (currentAudioSourceRef st);
          [open_app st; exact Hpc|exact Hpc]).
    assert (Ht' : skipTrigger (stopCurrent st) = Some i)
      by (unfold stopCurrent; destruct (currentAudioSourceRef st);
          [open_app st; exact Ht|exact Ht]).
    rewrite Ht', Hpc', Nat.eqb_refl. reflexivity. }
  assert (Hs' : isSkippedRef (stopCurrent st) = false)
    by (unfold stopCurrent; destruct (currentAudioSourceRef st);
        [open_app st; exact Hs|exact Hs]).
  assert (Hpassed : passed i st1).
  { rewrite Hst1. apply passed_loopTop; [lia|..];
      unfold stopCurrent; destruct (currentAudioSourceRef st);
      try assumption; open_app st; simpl in *; try assumption.
    rewrite elem_of_app, list_elem_of_singleton. intros [H|H]; [auto|].
    discriminate. }
  pose proof (passed_run gm (length systemMessages) i st1 later Hpassed)
    as (Hpc2 & Hd2 & Hs2 & He2).
  rewrite <- H2 in Hpc2, Hd2, Hs2, He2.
  split.
  { destruct (loopTop_cases gm (length systemMessages) (S i)
                (stopCurrent st) Hs') as (_ & _ & _ & Hcase).
    rewrite <- Hst1 in Hcase. destruct (gm !! S i); [|exact Hcase].
    destruct Hcase as (? & _ & ?). split; assumption. }
  assert (Hna : pc st2 <> AwaitAudio i)
    by (intros H; rewrite H in Hpc2; lia).
  assert (Hnp : pc st2 <> AwaitPlay i)
    by (intros H; rewrite H in Hpc2; lia).
  repeat split; try assumption.
  clearbody st2. clear - Hna. simpl. open_app st2; simpl in *.
  case_bool_decide; [|reflexivity]. simpl.
  destruct pc_ as [j|j|]; try reflexivity.
  destruct (Nat.eqb_spec j i) as [->|Hne]; [congruence|reflexivity].
Qed.

Lemma C1_analysis_all_or_nothing_witness :
  let final :=
    session Scenario.services Scenario.system Scenario.sides
      Scenario.question (uninterrupted Scenario.audio 0 6) in
  phase final = VOTING /\ error final = None.
Proof.
  destruct (runTurns_total Scenario.service Scenario.system Scenario.sides
              Scenario.question debateTurns (startScript Scenario.system)
              (fun _ => eq_refl)
              (startScript_aligned Scenario.service Scenario.system))
    as [sc Hsc].
  destruct (C1_analysis_all_or_nothing Scenario.services Scenario.system
              Scenario.sides Scenario.question sc Scenario.audio Hsc
              eq_refl (fun _ => eq_refl))
    as (_ & _ & _ & _ & _ & Hphase & Herror & _).
  split; assumption.
Defined.

(** C1 (as stated) fails: the summary request succeeds and only the
    comparison request fails, yet the summary stays absent, also when the
    uninterrupted playback has reached the voting phase. *)
Lemma C1_counterexample :
  let st :=
    session Scenario.services Scenario.system Scenario.sides
      Scenario.question [] in
  let final :=
    session Scenario.services Scenario.system Scenario.sides
      Scenario.question (uninterrupted Scenario.audio 0 6) in
  debateSummary Scenario.services = Fulfilled Scenario.summaryOfDebate
  /\ summary st = None /\ comparison st = None
  /\ phase final = VOTING
  /\ summary final <> Some Scenario.summaryOfDebate.
Proof.
  vm_compute. repeat split; try reflexivity. discriminate.
Qed.

Lemma C2_audio_rejection_witness :
  let st1 :=
    session Scenario.services Scenario.system Scenario.sides
      Scenario.question [SpeechRejected 0 "Failed to generate audio."] in
  pc st1 = Returned
  /\ error st1 = Some "Failed to generate audio for a turn.".
Proof.
  destruct (C2_audio_rejection Scenario.services Scenario.system
              Scenario.sides Scenario.question [] [] 0
              "Failed to generate audio." eq_refl)
    as (_ & _ & Hpc & Herr & _).
  split; assumption.
Defined.

(** C2 (as stated) fails: the audio request of the first turn rejects
    with no skip signalled, and the phase, which was the debate, is
    voting right afterwards. *)
Lemma C2_counterexample :
  let st :=
    session Scenario.services Scenario.system Scenario.sides
      Scenario.question [] in
  let st1 :=
    session Scenario.services Scenario.system Scenario.sides
      Scenario.question [SpeechRejected 0 "Failed to generate audio."] in
  pc st = AwaitAudio 0 /\ isSkippedRef st = false /\ phase st = DEBATING
  /\ error st1 = Some "Failed to generate audio for a turn."
  /\ phase st1 = VOTING.
Proof.
  vm_compute. repeat split; reflexivity.
Qed.

Lemma C8_jump_to_voting_witness :
  let st2 :=
    session Scenario.services Scenario.system Scenario.sides
      Scenario.question
      [SpeechResolved 0 (Scenario.audio 0); ClickSkipToVoting;
       Decoded 0; SpeechResolved 1 (Scenario.audio 1)] in
  pc st2 = Returned /\ isSkippedRef st2 = true /\ phase st2 = VOTING.
Proof.
  destruct (C8_jump_to_voting Scenario.services Scenario.system
              Scenario.sides Scenario.question
              [SpeechResolved 0 (Scenario.audio 0)]
              [Decoded 0; SpeechResolved 1 (Scenario.audio 1)])
    as (_ & _ & _ & Hpc & Hskip & Hphase & _).
  - vm_compute. discriminate.
  - repeat split; assumption.
Defined.

Lemma C9_advance_pending_audio_witness :
  let st1 :=
    session Scenario.services Scenario.system Scenario.sides
      Scenario.question [ClickSkip] in
  pc st1 = AwaitAudio 1
  /\ last (effects st1) = Some (SpeechRequested 1).
Proof.
  exact (proj1 (C9_advance_pending_audio Scenario.services Scenario.system
                  Scenario.sides Scenario.question [] [] 0
                  (Scenario.audio 0) eq_refl)).
Defined.
(** * Further properties of the score aggregator *)

Section ScoreFacts.

Lemma fold_addScoreItem_filter (scores : list Score) (total : number) :
  fold_left addScoreItem scores total
  = fold_left addScoreItem (List.filter matched scores) total.
Proof.
  revert total. induction scores as [|it r IH]; intros total;
    [reflexivity|].
  cbn [fold_left List.filter]. unfold matched at 1.
  pose proof (addScoreItem_matched total it) as H.
  destruct (weightKeyOf (criteria it)) as [k|].
  - cbn [fold_left]. apply IH.
  - rewrite H. apply IH.
Qed.

Lemma strip_lower_respelled (c c' : string) :
  respelled c c' ->
  Str.strip_non_word_space (Str.toLowerCase c')
  = Str.strip_non_word_space (Str.toLowerCase c).
Proof.
  induction 1 as [|a b s s' Hab _ IH|p s s' Hw Hs _ IH]; simpl.
  - reflexivity.
  - rewrite Hab, IH. reflexivity.
  - rewrite lower_char_word, lower_char_space, Hw, Hs. exact IH.
Qed.

Lemma lower_char_space_or_underscore (c : ascii) :
  space_or_underscore (Str.lower_char c) = space_or_underscore c.
Proof. destruct c as [[] [] [] [] [] [] [] []]; reflexivity. Qed.

Lemma space_or_underscore_kept (c : ascii) :
  space_or_underscore c = true -> (Str.is_word c || Str.is_space c)%bool = true.
Proof. destruct c as [[] [] [] [] [] [] [] []]; simpl; intros H; try reflexivity; discriminate. Qed.

Lemma any_strip_lower (c : string) :
  any space_or_underscore (Str.strip_non_word_space (Str.toLowerCase c))
  = any space_or_underscore c.
Proof.
  induction c as [|a r IH]; simpl; [reflexivity|].
  pose proof (lower_char_space_or_underscore a) as Hl.
  pose proof (space_or_underscore_kept (Str.lower_char a)) as Hk.
  destruct (Str.is_word (Str.lower_char a) || Str.is_space (Str.lower_char a))%bool
    eqn:Hkeep; simpl.
  - rewrite Hl, IH. reflexivity.
  - rewrite IH. destruct (space_or_underscore a); [|reflexivity].
    rewrite Hl in Hk. specialize (Hk eq_refl). discriminate.
Qed.

Lemma keys_plain (k : string) :
  k ∈ Object_keys scoreWeights ->
  any space_or_underscore (Str.toLowerCase k) = false.
Proof.
  intros H. apply list_elem_of_In in H. simpl in H.
  repeat (destruct H as [<-|H]; [reflexivity|]). contradiction.
Qed.

Lemma weightKeyOf_plain (c : string) :
  any space_or_underscore c = true -> weightKeyOf c = None.
Proof.
  intros Hc. destruct (weightKeyOf c) as [k|] eqn:Hk; [|reflexivity].
  pose proof (weightKeyOf_key _ _ Hk) as Hin.
  unfold weightKeyOf in Hk. apply find_some in Hk as [_ Heq].
  apply String.eqb_eq in Heq.
  pose proof (keys_plain k Hin) as Hp.
  rewrite Heq, any_strip_lower, Hc in Hp. discriminate.
Qed.

(** A weight of the table is a positive finite number. *)
Lemma weights_positive (k : string) (w : number) :
  get scoreWeights k = Some w ->
  exists m e, w = S754_finite false m e.
Proof.
  intros H. apply get_In in H. simpl in H.
  repeat (destruct H as [[= <- <-]|H]; [eexists; eexists; vm_compute; reflexivity|]).
  contradiction.
Qed.

Lemma addScoreItem_nan (it : Score) :
  addScoreItem S754_nan it = S754_nan.
Proof.
  pose proof (addScoreItem_matched S754_nan it) as H.
  destruct (weightKeyOf (criteria it)); [|exact H].
  destruct H as (w & _ & ->). reflexivity.
Qed.

Lemma fold_addScoreItem_nan (l : list Score) :
  fold_left addScoreItem l S754_nan = S754_nan.
Proof.
  induction l as [|it r IH]; simpl; [reflexivity|].
  rewrite addScoreItem_nan. exact IH.
Qed.

Lemma addScoreItem_stuck (s : bool) (total : number) (it : Score) :
  stuck s total -> stuck s (addScoreItem total it).
Proof.
  intros [->| ->]; [|right; apply addScoreItem_nan].
  pose proof (addScoreItem_matched (S754_infinity s) it) as H.
  destruct (weightKeyOf (criteria it)); [|left; exact H].
  destruct H as (w & Hw & ->).
  unfold Num.add. unfold stuck.
  destruct (Num.mul (score it) w) as [sy|sy| |sy my ey]; simpl; auto.
  destruct s, sy; auto.
Qed.

Lemma fold_addScoreItem_stuck (s : bool) (l : list Score) (total : number) :
  stuck s total -> stuck s (fold_left addScoreItem l total).
Proof.
  revert total. induction l as [|it r IH]; intros total H; simpl;
    [exact H|]. apply IH, addScoreItem_stuck, H.
Qed.

Lemma addScoreItem_infinite (s : bool) (total : number) (it : Score) :
  matched it = true -> score it = S754_infinity s ->
  stuck s (addScoreItem total it)
  /\ (stuck (negb s) total -> addScoreItem total it = S754_nan).
Proof.
  unfold matched. intros Hm Hs.
  pose proof (addScoreItem_matched total it) as H.
  destruct (weightKeyOf (criteria it)); [|discriminate].
  destruct H as (w & Hw & ->).
  destruct (weights_positive _ _ Hw) as (m & e & ->).
  rewrite Hs. unfold Num.add, Num.mul. simpl. rewrite xorb_false_r.
  split.
  - unfold stuck.
    destruct total as [t|t| |t mt et]; simpl; auto.
    destruct t, s; simpl; auto.
  - intros [->| ->]; [|reflexivity]. simpl. destruct s; reflexivity.
Qed.

End ScoreFacts.

(** X1: Items whose criterion resolves to no key of the weight table are
    skipped: the final score is the one of the matched items alone, and a
    list without a matched item, the empty list included, scores 0. *)
Theorem unmatched_items_ignored (scores : list Score) :
  calculateFinalScore scores
  = calculateFinalScore (List.filter matched scores)
  /\ (List.filter matched scores = [] ->
      calculateFinalScore scores = Num.zero).
Proof.
  assert (H : calculateFinalScore scores
              = calculateFinalScore (List.filter matched scores)).
  { unfold calculateFinalScore. rewrite fold_addScoreItem_filter.
    reflexivity. }
  split; [exact H|]. intros Hnone. rewrite H, Hnone. reflexivity.
Qed.

Lemma unmatched_items_ignored_witness :
  calculateFinalScore
    [mkScore "Charisma" five "not in the rubric";
     mkScore "Wit" (Num.lit 3 1) "not in the rubric"]
  = Num.zero.
Proof.
  apply (proj2 (unmatched_items_ignored
                  [mkScore "Charisma" five "not in the rubric";
                   mkScore "Wit" (Num.lit 3 1) "not in the rubric"])).
  reflexivity.
Defined.

(** X2: On criteria of Latin-1 characters (code units below 256, the
    strings of this model) the final score does not depend on the
    spelling: a character replaced by one with the same lowercase form,
    and characters that are neither word characters nor white space put
    in anywhere, change nothing. *)
Theorem criteria_spelling_irrelevant (scores scores' : list Score) :
  Forall2 (fun it it' => score it' = score it
                         /\ respelled (criteria it) (criteria it'))
    scores scores' ->
  calculateFinalScore scores' = calculateFinalScore scores.
Proof.
  intros H. unfold calculateFinalScore. f_equal. f_equal.
  generalize Num.zero.
  induction H as [|it it' r r' [Hs Hc] _ IH]; intros total;
    [reflexivity|].
  cbn [fold_left]. rewrite IH. f_equal.
  unfold addScoreItem, weightKeyOf.
  rewrite (strip_lower_respelled _ _ Hc), Hs. reflexivity.
Qed.

Lemma criteria_spelling_irrelevant_witness :
  calculateFinalScore [mkScore "**TONE:**" (Num.lit 45 10) "apt"]
  = calculateFinalScore [mkScore "Tone" (Num.lit 45 10) "apt"].
Proof.
  apply (criteria_spelling_irrelevant
           [mkScore "Tone" (Num.lit 45 10) "apt"]
           [mkScore "**TONE:**" (Num.lit 45 10) "apt"]).
  apply List.Forall2_cons; [|apply List.Forall2_nil].
  split; [reflexivity|]. simpl.
  do 2 (apply respelled_punct; [reflexivity|reflexivity|]).
  do 4 (apply respelled_char; [reflexivity|]).
  do 3 (apply respelled_punct; [reflexivity|reflexivity|]).
  apply respelled_nil.
Defined.

(** X3: White space and the underscore are not ignored: a criterion that
    contains either resolves to no key, and its item adds nothing to the
    total. *)
Theorem space_or_underscore_never_matches (it : Score) (total : number) :
  any space_or_underscore (criteria it) = true ->
  weightKeyOf (criteria it) = None /\ addScoreItem total it = total.
Proof.
  intros H. pose proof (weightKeyOf_plain _ H) as Hk.
  split; [exact Hk|]. unfold addScoreItem. rewrite Hk. reflexivity.
Qed.

Lemma space_or_underscore_never_matches_witness :
  weightKeyOf "Tone " = None
  /\ addScoreItem Num.zero (mkScore "Tone " five "trailing space")
     = Num.zero.
Proof.
  apply (space_or_underscore_never_matches
           (mkScore "Tone " five "trailing space") Num.zero).
  reflexivity.
Defined.

(** X4: With raw scores from 0 to 5 and no key matched twice, the final score
    is a whole number of hundredths from 0.00 to 5.00, and printing it
    with two decimals and reading it back gives the same number. *)
Theorem final_score_hundredths (scores : list Score) :
  Forall (fun it => inRange (score it)) scores ->
  NoDup (matchedKeys scores) ->
  exists h : Z,
    0 <= h <= 500
    /\ calculateFinalScore scores
       = (if h =? 0 then Num.zero else Num.lit h 100)
    /\ Num.toFixed2 (calculateFinalScore scores) = Num.FixedDecimal false h
    /\ Num.parseFloat (Num.toFixed2 (calculateFinalScore scores))
       = calculateFinalScore scores.
Proof.
  intros Hall Hnd. unfold calculateFinalScore.
  destruct (fold_addScoreItem_bound scores Num.zero Hall I) as [Hn Hu].
  { pose proof (matchedKeys_budget scores Hnd). simpl units. lia. }
  destruct (toFixed2_in_range _ Hn Hu) as (h & -> & Hh).
  exists h. split; [exact Hh|].
  assert (Hp : Num.parseFloat (Num.FixedDecimal false h)
               = (if h =? 0 then Num.zero else Num.lit h 100)).
  { unfold Num.parseFloat, Num.lit. destruct (Z.eqb_spec h 0); [reflexivity|].
    reflexivity. }
  assert (Hall' : forallb
                   (fun n =>
                      match Num.toFixed2
                              (Num.parseFloat
                                 (Num.FixedDecimal false (Z.of_nat n))) with
                      | Num.FixedDecimal false h' => h' =? Z.of_nat n
                      | _ => false
                      end)
                   (seq 0 501) = true) by (vm_compute; reflexivity).
  rewrite forallb_forall in Hall'.
  specialize (Hall' (Z.to_nat h)).
  rewrite Z2Nat.id in Hall' by lia.
  assert (Hin : In (Z.to_nat h) (seq 0 501)) by (apply in_seq; lia).
  specialize (Hall' Hin).
  assert (Hfix : Num.toFixed2 (Num.parseFloat (Num.FixedDecimal false h))
                 = Num.FixedDecimal false h).
  { destruct (Num.toFixed2 (Num.parseFloat (Num.FixedDecimal false h)))
      as [|?|?|[] h']; try discriminate.
    apply Z.eqb_eq in Hall'. rewrite Hall'. reflexivity. }
  split; [exact Hp|]. split; [exact Hfix|]. rewrite Hfix. reflexivity.
Qed.

Lemma final_score_hundredths_witness :
  exists h : Z,
    0 <= h <= 500
    /\ calculateFinalScore
         [mkScore "Argument" (Num.lit 45 10) "sound";
          mkScore "Tone" five "apt"]
       = (if h =? 0 then Num.zero else Num.lit h 100).
Proof.
  destruct (final_score_hundredths
              [mkScore "Argument" (Num.lit 45 10) "sound";
               mkScore "Tone" five "apt"])
    as (h & Hh & Hv & _).
  - repeat constructor.
  - apply (bool_decide_unpack _). vm_compute. exact I.
  - exists h. split; assumption.
Defined.

(** X5: When the judge's list of one side holds a matched item scored
    [Infinity] and a matched item scored [-Infinity], that side's final
    score is [NaN], and the verdict is a tie whatever the other side
    scored, although the two final scores are not equal. *)
Theorem infinite_scores_tie
    (l1 l2 l3 other : list Score) (a b : Score) (s : bool) :
  matched a = true -> score a = S754_infinity s ->
  matched b = true -> score b = S754_infinity (negb s) ->
  let scores := l1 ++ a :: l2 ++ b :: l3 in
  calculateFinalScore scores = S754_nan
  /\ winner (verdict scores other) = TIE
  /\ winner (verdict other scores) = TIE
  /\ Num.eq (finalLogos (verdict scores other))
       (finalPathos (verdict scores other)) = false.
Proof.
  intros Ha Hsa Hb Hsb scores.
  assert (Hnan : calculateFinalScore scores = S754_nan).
  { unfold calculateFinalScore, scores.
    rewrite fold_left_app. cbn [fold_left]. rewrite fold_left_app.
    cbn [fold_left].
    set (t1 := fold_left addScoreItem l1 Num.zero).
    destruct (addScoreItem_infinite s t1 a Ha Hsa) as [Hst _].
    pose proof (fold_addScoreItem_stuck s l2 _ Hst) as Hst2.
    destruct (addScoreItem_infinite (negb s)
                (fold_left addScoreItem l2 (addScoreItem t1 a)) b Hb Hsb)
      as [_ Hn].
    rewrite negb_involutive in Hn. rewrite (Hn Hst2).
    rewrite fold_addScoreItem_nan. reflexivity. }
  split; [exact Hnan|]. unfold verdict. cbn [winner finalLogos finalPathos].
  rewrite Hnan. unfold computeWinner, Num.gt, Num.eq.
  destruct (calculateFinalScore other); repeat split; reflexivity.
Qed.

Lemma infinite_scores_tie_witness :
  winner
    (verdict
       [mkScore "Argument" (S754_infinity false) "1e999";
        mkScore "Evidence" (S754_infinity true) "-1e999"]
       (rubricAllFive (fun _ => "flawless")))
  = TIE.
Proof.
  apply (infinite_scores_tie [] [] [] (rubricAllFive (fun _ => "flawless"))
           (mkScore "Argument" (S754_infinity false) "1e999")
           (mkScore "Evidence" (S754_infinity true) "-1e999") false);
    reflexivity.
Defined.

Section Accuracy.

(** Rounding, from both sides: the rounded value lies within [2^-48] of
    the exact one. *)
Lemma round_aux_near (K : Z) (s : bool) (mx : positive) (ex : Z) :
  1074 <= K -> 0 <= ex + K ->
  Zpos mx * 2 ^ (ex + K) < 2 ^ (3 + K) ->
  (binary_round_aux Num.prec Num.emax s (Zpos mx) ex loc_Exact = S754_zero s
   /\ Zpos mx * 2 ^ (ex + K) < 2 ^ (K - 48))
  \/ exists m e,
      binary_round_aux Num.prec Num.emax s (Zpos mx) ex loc_Exact
      = S754_finite s m e
      /\ -1074 <= e
      /\ Zpos mx * 2 ^ (ex + K) < Zpos m * 2 ^ (e + K) + 2 ^ (K - 48).
Proof.
  intros HK Hex Hlt.
  assert (HE : 0 < 2 ^ (ex + K)) by (apply pow2_pos; lia).
  assert (H50 : 0 < 2 ^ (K - 50)) by (apply pow2_pos; lia).
  assert (H49 : 2 ^ (K - 49) = 2 * 2 ^ (K - 50)).
  { replace (K - 49) with (1 + (K - 50)) by lia.
    rewrite (pow2_split 1) by lia. reflexivity. }
  assert (H48 : 2 ^ (K - 48) = 4 * 2 ^ (K - 50)).
  { replace (K - 48) with (2 + (K - 50)) by lia.
    rewrite (pow2_split 2) by lia. reflexivity. }
  assert (H3 : 2 ^ (3 + K) = 8 * 2 ^ K)
    by (rewrite (pow2_split 3) by lia; reflexivity).
  assert (HK50 : 2 ^ (K - 50) <= 2 ^ K) by (apply pow2_le; lia).
  pose proof (digits2_pos_bounds mx) as [Hd _].
  set (d := Zpos (digits2_pos mx)) in *.
  assert (Hdex : d + ex <= 3).
  { assert (2 ^ (d - 1 + (ex + K)) < 2 ^ (3 + K)).
    { rewrite pow2_split by lia. nia. }
    apply pow2_lt_inv in H; lia. }
  unfold binary_round_aux, shr_fexp.
  change (Zdigits2 (Zpos mx)) with d.
  set (f := fexp Num.prec Num.emax (d + ex)).
  assert (Hf : -1074 <= f <= -50) by (subst f; rewrite fexp64; lia).
  pose proof (shr_value K (Zpos mx) ex (f - ex) ltac:(lia) Hex) as H1.
  destruct (shr _ ex (f - ex)) as [r1 e1].
  destruct H1 as (Hr1 & He1 & Hv1 & Hexact & Hshift).
  set (m1 := round_nearest_even (shr_m r1) (loc_of_shr_record r1)).
  assert (Hm1 : 0 <= m1
                /\ -1074 <= e1
                /\ (m1 = 0 -> e1 <= -50)
                /\ m1 * 2 ^ (e1 + K)
                   <= Zpos mx * 2 ^ (ex + K) + 2 ^ (K - 50)
                /\ Zpos mx * 2 ^ (ex + K)
                   < m1 * 2 ^ (e1 + K) + 2 ^ (K - 50)).
  { pose proof (round_nearest_even_bounds (shr_m r1)
                  (loc_of_shr_record r1)) as Hb. fold m1 in Hb.
    destruct (Z_lt_le_dec 0 (f - ex)) as [Hn|Hn].
    - destruct (Hshift Hn) as [-> Hup].
      replace (ex + (f - ex)) with f in * by lia.
      assert (2 ^ (f + K) <= 2 ^ (K - 50)) by (apply pow2_le; lia).
      assert (0 < 2 ^ (f + K)) by (apply pow2_pos; lia).
      repeat split; try lia; nia.
    - destruct (Hexact Hn) as (Hl & Hm & ->).
      subst m1. rewrite Hl. simpl. rewrite Hm. repeat split; lia. }
  destruct Hm1 as (Hm1 & He1' & Hz1 & Hv & Hlow).
  set (n2 := fexp Num.prec Num.emax (Zdigits2 m1 + e1) - e1).
  pose proof (shr_value K m1 e1 n2 Hm1 ltac:(lia)) as H2.
  destruct (shr _ e1 n2) as [r2 e2].
  destruct H2 as (Hr2 & He2 & Hv2 & Hexact2 & Hshift2).
  assert (Hlow2 : m1 * 2 ^ (e1 + K)
                  < (shr_m r2 + 1) * 2 ^ (e2 + K)
                  /\ (0 < n2 -> 2 ^ (e2 + K) <= 2 ^ (K - 49))).
  { assert (0 < 2 ^ (e1 + K)) by (apply pow2_pos; lia).
    destruct (Z_lt_le_dec 0 n2) as [Hn|Hn].
    - destruct (Hshift2 Hn) as [He2' Hup]. split; [exact Hup|]. intros _.
      apply pow2_le. split; [lia|].
      assert (Hdig : Zdigits2 m1 + e1 <= 4).
      { destruct m1 as [|p1|p1]; [specialize (Hz1 eq_refl); simpl; lia| |lia].
        simpl Zdigits2. pose proof (digits2_pos_bounds p1) as [Hd1 _].
        assert (2 ^ (Zpos (digits2_pos p1) - 1 + (e1 + K)) < 2 ^ (4 + K)).
        { rewrite pow2_split by lia.
          replace (4 + K) with (1 + (3 + K)) by lia.
          rewrite (pow2_split 1 (3 + K)) by lia. change (2 ^ 1) with 2.
          nia. }
        apply pow2_lt_inv in H0; lia. }
      subst n2. rewrite fexp64 in He2'. lia.
    - destruct (Hexact2 Hn) as (_ & -> & ->). split; [lia|]. lia. }
  destruct Hlow2 as [Hlow2 Hstep].
  assert (Hnear : Zpos mx * 2 ^ (ex + K)
                  < shr_m r2 * 2 ^ (e2 + K) + 2 ^ (K - 48)).
  { destruct (Z_lt_le_dec 0 n2) as [Hn|Hn].
    - specialize (Hstep Hn). lia.
    - destruct (Hexact2 Hn) as (_ & Hm & He). rewrite Hm, He. lia. }
  destruct (shr_m r2) as [|m|m] eqn:Hm2; [left|right|lia].
  - split; [reflexivity|]. lia.
  - exists m, e2.
    assert (He2' : e2 < 4).
    { assert (0 < 2 ^ (e2 + K)) by (apply pow2_pos; lia).
      assert (2 ^ (e2 + K) < 2 ^ (4 + K)).
      { replace (4 + K) with (1 + (3 + K)) by lia.
        rewrite (pow2_split 1) by lia. change (2 ^ 1) with 2. nia. }
      apply pow2_lt_inv in H0; lia. }
    assert (Hle : (e2 <=? Num.emax - Num.prec) = true)
      by (apply Z.leb_le; unfold Num.emax, Num.prec; lia).
    rewrite Hle. split; [reflexivity|]. split; [lia|exact Hnear].
Qed.

Lemma mul_near (x w : number) :
  nonneg x -> nonneg w ->
  units x * units w < 2 ^ (3 + 2148) ->
  units x * units w < units (Num.mul x w) * 2 ^ 1074 + 2 ^ 2100.
Proof.
  intros Hx Hw Hlt.
  assert (H0 : 0 < 2 ^ 2100) by (apply pow2_pos; lia).
  destruct x as [sx|sx| |sx mx ex], w as [sw|sw| |sw mw ew];
    simpl in Hx, Hw; try contradiction; try (simpl; lia).
  destruct sx, sw; try contradiction.
  unfold Num.mul, SFmul.
  assert (HE : Zpos (mx * mw) * 2 ^ (ex + ew + 2148)
               = units (S754_finite false mx ex)
                 * units (S754_finite false mw ew)).
  { simpl units. replace (ex + ew + 2148) with ((ex + 1074) + (ew + 1074))
      by lia.
    rewrite (pow2_split (ex + 1074) (ew + 1074)) by lia.
    rewrite Pos2Z.inj_mul. ring. }
  destruct (round_aux_near 2148 (xorb false false) (mx * mw) (ex + ew)
              ltac:(lia) ltac:(lia) ltac:(rewrite HE; exact Hlt))
    as [[Hz Hv]|(m & e & Hr & He & Hv)].
  - rewrite Hz. rewrite HE in Hv. change (2148 - 48) with 2100 in Hv.
    simpl (units (S754_zero _)). lia.
  - rewrite Hr. rewrite HE in Hv. simpl (units (S754_finite _ m e)).
    replace (e + 2148) with ((e + 1074) + 1074) in Hv by lia.
    rewrite (pow2_split (e + 1074) 1074) in Hv by lia.
    change (2148 - 48) with 2100 in Hv. lia.
Qed.

Lemma add_near (t p : number) :
  nonneg t -> nonneg p ->
  units t + units p < 2 ^ (3 + 1074) ->
  units t + units p < units (Num.add t p) + 2 ^ 1026.
Proof.
  intros Ht Hp Hlt.
  assert (H1026 : 0 < 2 ^ 1026) by (apply pow2_pos; lia).
  destruct t as [st|st| |st mt et], p as [sp|sp| |sp mp ep];
    simpl in Ht, Hp; try contradiction.
  - unfold Num.add, SFadd. destruct st, sp; simpl; lia.
  - unfold Num.add, SFadd. destruct sp; try contradiction.
    simpl units. lia.
  - unfold Num.add, SFadd. destruct st; try contradiction.
    simpl units. lia.
  - destruct st, sp; try contradiction.
    unfold Num.add, SFadd. cbv zeta.
    set (ez := Z.min et ep).
    pose proof (shl_align_spec mt et ez) as Hat.
    pose proof (shl_align_spec mp ep ez) as Hap.
    destruct (shl_align mt et ez) as [mt' et'].
    destruct (shl_align mp ep ez) as [mp' ep'].
    destruct Hat as [Het' Hmt'], Hap as [Hep' Hmp'].
    assert (Het2 : et' = ez) by lia. assert (Hep2 : ep' = ez) by lia.
    clear Het' Hep'. subst et' ep'.
    cbn [fst cond_Zopp].
    change (Zpos mt' + Zpos mp') with (Zpos (mt' + mp')).
    unfold binary_normalize, binary_round.
    set (f := fexp Num.prec Num.emax (Zpos (digits2_pos (mt' + mp')) + ez)).
    assert (Hf : -1074 <= f) by (subst f; rewrite fexp64; lia).
    pose proof (shl_align_spec (mt' + mp') ez f) as Haz.
    destruct (shl_align (mt' + mp') ez f) as [mz ez'].
    destruct Haz as [Hez' Hmz].
    assert (HE : Zpos mz * 2 ^ (ez' + 1074)
                 = units (S754_finite false mt et)
                   + units (S754_finite false mp ep)).
    { simpl units. rewrite Hmz, Pos2Z.inj_add, Hmt', Hmp'.
      replace (et + 1074) with ((et - ez) + (ez - ez') + (ez' + 1074))
        by lia.
      replace (ep + 1074) with ((ep - ez) + (ez - ez') + (ez' + 1074))
        by lia.
      rewrite (pow2_split (et - ez + (ez - ez')) (ez' + 1074)) by lia.
      rewrite (pow2_split (ep - ez + (ez - ez')) (ez' + 1074)) by lia.
      rewrite (pow2_split (et - ez) (ez - ez')) by lia.
      rewrite (pow2_split (ep - ez) (ez - ez')) by lia.
      ring. }
    destruct (round_aux_near 1074 false mz ez' ltac:(lia) ltac:(lia)
                ltac:(rewrite HE; exact Hlt))
      as [[Hz Hv]|(m & e & Hr & He & Hv)].
    + rewrite Hz. rewrite HE in Hv. change (1074 - 48) with 1026 in Hv.
      simpl (units (S754_zero _)). lia.
    + rewrite Hr. rewrite HE in Hv.
      change (1074 - 48) with 1026 in Hv. exact Hv.
Qed.

(** The weight of a key as a binary64 number and as the decimal of the
    table, side by side. *)
Lemma find_weight_pair (P : string -> bool) :
  match List.find (fun kw => P (fst kw)) scoreWeights,
        List.find (fun kq => P (fst kq)) Claimed.weightTable with
  | Some (k, w), Some (k', q) =>
      k = k' /\ 0 <= Qnum q <= 20
      /\ - 2 ^ 1025 <= 100 * units w - Qnum q * 2 ^ 1074 <= 2 ^ 1025
  | None, None => True
  | _, _ => False
  end.
Proof.
  unfold scoreWeights, Claimed.weightTable. cbn [List.find fst].
  repeat (destruct (P _);
          [split; [reflexivity|];
           split; [cbn [Qnum]; lia|];
           split; apply Z.leb_le; vm_compute; reflexivity|]).
  exact I.
Qed.

Lemma weightTable_hundredths :
  Forall (fun kq => Qden (snd kq) = 100%positive) Claimed.weightTable.
Proof. repeat constructor. Qed.

(** On a criterion without underscore the code and the table of decimals
    resolve alike. *)
Lemma resolve_pair (c : string) :
  contains "_" c = false ->
  match weightKeyOf c, Claimed.resolve Claimed.weightTable c with
  | Some k, Some (k', q) =>
      exists w, get scoreWeights k = Some w
                /\ 0 <= Qnum q <= 20
                /\ - 2 ^ 1025 <= 100 * units w - Qnum q * 2 ^ 1074 <= 2 ^ 1025
  | None, None => True
  | _, _ => False
  end.
Proof.
  intros H. unfold weightKeyOf, Claimed.resolve.
  rewrite (strip_lower_normalize _ H).
  pose proof (find_key_entry
                (fun key => String.eqb (Str.toLowerCase key)
                              (Claimed.normalize c))) as Hf.
  pose proof (find_weight_pair
                (fun key => String.eqb (Str.toLowerCase key)
                              (Claimed.normalize c))) as Hp.
  cbv beta in Hf, Hp.
  destruct (List.find _ (Object_keys scoreWeights)) as [k|].
  - destruct Hf as (w & Hget & _ & Hfind). rewrite Hfind in Hp.
    destruct (List.find _ Claimed.weightTable) as [[k' q]|];
      [|contradiction].
    destruct Hp as (_ & Hq & Hw). exists w. repeat split; tauto.
  - rewrite Hf in Hp.
    destruct (List.find _ Claimed.weightTable) as [[k' q]|];
      [contradiction|exact I].
Qed.

(** One matched item moves the running total by its exact contribution,
    up to the rounding of the weight, of the product and of the sum. *)
Lemma addScoreItem_near (total : number) (it : Score) (k : string) :
  nonneg total -> inRange (score it) ->
  contains "_" (criteria it) = false ->
  weightKeyOf (criteria it) = Some k ->
  units total + cost k <= budget ->
  - 2 ^ 1034
  <= 100 * units (addScoreItem total it) - 100 * units total - exactUnits it
  <= 2 ^ 1034.
Proof.
  intros Ht Hs Hc Hk Hb.
  pose proof (addScoreItem_matched total it) as Hm. rewrite Hk in Hm.
  destruct Hm as (w & Hget & ->).
  pose proof (resolve_pair _ Hc) as Hr. rewrite Hk in Hr.
  unfold exactUnits.
  destruct (Claimed.resolve Claimed.weightTable (criteria it))
    as [[k' q]|]; [|contradiction].
  destruct Hr as (w' & Hget' & Hq & Hwq).
  rewrite Hget in Hget'. injection Hget' as <-.
  unfold cost in Hb. rewrite Hget in Hb.
  pose proof weights_small as Hw. rewrite Forall_forall in Hw.
  destruct (Hw (k, w) ltac:(apply list_elem_of_In, get_In, Hget))
    as [Hwn Hwu]. cbn [snd] in Hwn, Hwu.
  destruct (inRange_units _ Hs) as [Hsn Hsu].
  pose proof (units_nonneg (score it)) as Hs0.
  pose proof (units_nonneg w) as Hw0.
  pose proof (units_nonneg total) as Ht0.
  pose proof budget_small as HB.
  assert (H2098 : 2 ^ 2098 = 2 ^ 1024 * 2 ^ 1074)
    by (rewrite <- pow2_split by lia; reflexivity).
  assert (H2100 : 2 ^ 2100 = 4 * (2 ^ 1024 * 2 ^ 1074)).
  { change 2100 with (2 + (1024 + 1074)).
    rewrite (pow2_split 2), (pow2_split 1024 1074) by lia. reflexivity. }
  assert (H2151 : 2 ^ (3 + 2148) = 8 * (2 ^ 1074 * 2 ^ 1074)).
  { change (3 + 2148) with (3 + (1074 + 1074)).
    rewrite (pow2_split 3), (pow2_split 1074 1074) by lia. reflexivity. }
  assert (H1077 : 2 ^ (3 + 1074) = 8 * 2 ^ 1074)
    by (rewrite (pow2_split 3) by lia; reflexivity).
  assert (H1025 : 2 ^ 1025 = 2 * 2 ^ 1024)
    by (change 1025 with (1 + 1024); rewrite (pow2_split 1) by lia;
        reflexivity).
  assert (H1026 : 2 ^ 1026 = 4 * 2 ^ 1024)
    by (change 1026 with (2 + 1024); rewrite (pow2_split 2) by lia;
        reflexivity).
  assert (H1034 : 2 ^ 1034 = 1024 * 2 ^ 1024)
    by (change 1034 with (10 + 1024); rewrite (pow2_split 10) by lia;
        reflexivity).
  assert (HU : 0 < 2 ^ 1074) by (apply pow2_pos; lia).
  assert (HV : 0 < 2 ^ 1024) by (apply pow2_pos; lia).
  rewrite H1077 in HB. rewrite H1025 in *. rewrite H1034.
  assert (Hprod : units (score it) * units w < 2 ^ (3 + 2148)).
  { rewrite H2151. revert Hsu Hwu Hs0 Hw0 HU.
    generalize (units (score it)) (units w) (2 ^ 1074). intros a b U. nia. }
  destruct (mul_bound (score it) w Hsn Hwn Hprod) as [Hpn Hpu].
  pose proof (mul_near (score it) w Hsn Hwn Hprod) as Hpl.
  rewrite H2098 in Hpu. rewrite H2100 in Hpl.
  assert (Hp : units (Num.mul (score it) w) <= 5 * units w + 2 ^ 1024).
  { revert Hpu Hsu Hwu Hs0 Hw0 HU HV.
    generalize (units (Num.mul (score it) w)) (units (score it)) (units w)
      (2 ^ 1074) (2 ^ 1024). intros p a b U V. nia. }
  assert (Hsum : units total + units (Num.mul (score it) w)
                 < 2 ^ (3 + 1074)) by (rewrite H1077; lia).
  destruct (add_bound total (Num.mul (score it) w) Ht Hpn Hsum)
    as [Han Hau].
  pose proof (add_near total (Num.mul (score it) w) Ht Hpn Hsum) as Hal.
  rewrite H1026 in Hal.
  assert (Hmul : - (420 * 2 ^ 1024)
                 <= 100 * units (Num.mul (score it) w)
                    - units (score it) * Qnum q
                 <= 120 * 2 ^ 1024).
  { revert Hpu Hpl Hsu Hs0 Hwq Hq HU HV.
    generalize (units (Num.mul (score it) w)) (units (score it)) (units w)
      (Qnum q) (2 ^ 1074) (2 ^ 1024). intros p a b c U V.
    intros Hpu Hpl Hsu Hs0 Hwq Hq HU HV.
    assert (Hab : - (2 * V) * a <= a * (100 * b - c * U) <= (2 * V) * a)
      by nia.
    assert (HaV : (2 * V) * a <= 10 * V * U) by nia.
    split.
    - apply (Z.mul_le_mono_pos_r _ _ U HU). nia.
    - apply (Z.mul_le_mono_pos_r _ _ U HU). nia. }
  lia.
Qed.

Lemma fold_addScoreItem_near (scores : list Score) (total : number) :
  Forall (fun it => inRange (score it)) scores ->
  Forall (fun it => contains "_" (criteria it) = false) scores ->
  nonneg total ->
  units total + sumZ cost (matchedKeys scores) <= budget ->
  - (2 ^ 1034 * Z.of_nat (length (matchedKeys scores)))
  <= 100 * units (fold_left addScoreItem scores total)
     - 100 * units total - sumZ exactUnits scores
  <= 2 ^ 1034 * Z.of_nat (length (matchedKeys scores)).
Proof.
  intros Hall Hplain. revert total Hplain.
  induction Hall as [|it scores Hit _ IH]; intros total Hplain Ht Hb.
  - simpl. lia.
  - apply Forall_cons in Hplain as [Hc Hplain].
    simpl fold_left. unfold matchedKeys in *. cbn [omap list_omap] in *.
    fold (matchedKeys scores) in *.
    cbn [sumZ fold_right]. fold (sumZ exactUnits scores).
    pose proof (addScoreItem_matched total it) as Hm.
    pose proof (resolve_pair _ Hc) as Hr.
    destruct (weightKeyOf (criteria it)) as [k|] eqn:Hk.
    + cbn [sumZ fold_right] in Hb. fold (sumZ cost (matchedKeys scores)) in Hb.
      assert (0 <= sumZ cost (matchedKeys scores)).
      { clear. induction (matchedKeys scores) as [|a l IHl]; simpl; [lia|].
        pose proof (cost_nonneg a). lia. }
      destruct (addScoreItem_bound total it k Ht Hit Hk ltac:(lia))
        as [Hn Hu].
      pose proof (addScoreItem_near total it k Ht Hit Hc Hk ltac:(lia))
        as Hnear.
      specialize (IH (addScoreItem total it) Hplain Hn ltac:(lia)).
      cbn [length]. rewrite Nat2Z.inj_succ.
      assert (0 < 2 ^ 1034) by (apply pow2_pos; lia).
      revert IH Hnear. generalize (2 ^ 1034). intros B IH Hnear. nia.
    + rewrite Hm. specialize (IH total Hplain Ht Hb).
      assert (He : exactUnits it = 0).
      { unfold exactUnits.
        destruct (Claimed.resolve Claimed.weightTable (criteria it))
          as [[k' q]|]; [contradiction|reflexivity]. }
      rewrite He. lia.
Qed.

Lemma matchedKeys_length (scores : list Score) :
  NoDup (matchedKeys scores) -> (length (matchedKeys scores) <= 8)%nat.
Proof.
  intros Hnd.
  change 8%nat with (length (Object_keys scoreWeights)).
  apply submseteq_length, NoDup_submseteq; [exact Hnd|].
  intros k Hk. unfold matchedKeys in Hk.
  apply list_elem_of_omap in Hk as (it & _ & Hit).
  apply (weightKeyOf_key _ _ Hit).
Qed.

(** [toFixed(2)] picks the nearest number of hundredths:
    [h - 1/2 <= 100 * total < h + 1/2]. *)
Lemma toFixed2_nearest (total : number) (h : Z) :
  nonneg total ->
  Num.toFixed2 total = Num.FixedDecimal false h ->
  (2 * h - 1) * 2 ^ 1074 <= 200 * units total < (2 * h + 1) * 2 ^ 1074.
Proof.
  intros Hn Hfix.
  assert (HU : 0 < 2 ^ 1074) by (apply pow2_pos; lia).
  destruct total as [s|s| |s m e]; cbn [nonneg] in Hn; try contradiction.
  - simpl in Hfix. injection Hfix as <-. simpl units. lia.
  - destruct s; [contradiction|]. unfold Num.toFixed2 in Hfix.
    destruct (Num.at_least_1e21 m e); [discriminate|].
    injection Hfix as <-. cbn [units].
    pose proof (hundredths_of_nearest m e) as Hh. cbv zeta in Hh.
    destruct e as [|p|p].
    + rewrite Hh. change (2 ^ 0) with 1. change (0 + 1074) with 1074. nia.
    + rewrite Hh. rewrite (pow2_split (Zpos p) 1074) by lia.
      assert (0 < 2 ^ Zpos p) by (apply pow2_pos; lia). nia.
    + destruct Hh as [Hlo Hhi].
      assert (HP : 0 < 2 ^ Zpos p) by (apply pow2_pos; lia).
      assert (HQ : 0 < 2 ^ (Zneg p + 1074)) by (apply pow2_pos; lia).
      assert (Heq : 2 ^ 1074 = 2 ^ Zpos p * 2 ^ (Zneg p + 1074)).
      { rewrite <- pow2_split by lia. f_equal. lia. }
      rewrite Heq.
      revert Hlo Hhi HP HQ.
      generalize (Num.hundredths_of m (Zneg p)) (2 ^ Zpos p)
        (2 ^ (Zneg p + 1074)). intros h P Q Hlo Hhi HP HQ. nia.
Qed.

(** The running total and the exact weighted sum, and the hundredths
    that [toFixed(2)] prints. *)
Lemma final_score_units (scores : list Score) :
  Forall (fun it => inRange (score it)) scores ->
  Forall (fun it => contains "_" (criteria it) = false) scores ->
  NoDup (matchedKeys scores) ->
  exists h : Z,
    0 <= h <= 500
    /\ Num.toFixed2 (fold_left addScoreItem scores Num.zero)
       = Num.FixedDecimal false h
    /\ - (2 ^ 1074 + 2 ^ 1038)
       <= 2 * h * 2 ^ 1074 - 2 * sumZ exactUnits scores
       <= 2 ^ 1074 + 2 ^ 1038.
Proof.
  intros Hall Hplain Hnd.
  pose proof (matchedKeys_budget scores Hnd) as Hbud.
  destruct (fold_addScoreItem_bound scores Num.zero Hall I) as [Hn Hu];
    [simpl units; lia|].
  pose proof (fold_addScoreItem_near scores Num.zero Hall Hplain I) as Hnear.
  cbn [units Num.zero] in Hnear. specialize (Hnear ltac:(lia)).
  destruct (toFixed2_in_range _ Hn Hu) as (h & Hfix & Hh).
  pose proof (toFixed2_nearest _ h Hn Hfix) as Hnst.
  pose proof (matchedKeys_length scores Hnd) as Hlen.
  exists h. split; [exact Hh|]. split; [exact Hfix|].
  assert (H1038 : 2 ^ 1038 = 16 * 2 ^ 1034)
    by (change 1038 with (4 + 1034); rewrite (pow2_split 4) by lia;
        reflexivity).
  assert (0 < 2 ^ 1034) by (apply pow2_pos; lia).
  rewrite H1038.
  revert Hnear Hnst H.
  generalize (units (fold_left addScoreItem scores Num.zero))
    (sumZ exactUnits scores) (2 ^ 1034) (2 ^ 1074).
  intros T S B N Hnear Hnst HB.
  assert (Hl : 0 <= Z.of_nat (length (matchedKeys scores)) <= 8) by lia.
  revert Hl Hnear. generalize (Z.of_nat (length (matchedKeys scores))).
  intros n Hl Hnear. nia.
Qed.

Lemma exact_units (x : number) :
  nonneg x ->
  (Claimed.exact x * inject_Z (2 ^ 1074) == inject_Z (units x))%Q.
Proof.
  destruct x as [s|s| |s m e]; cbn [nonneg Claimed.exact units];
    try contradiction.
  - intros _. rewrite Qmult_0_l. reflexivity.
  - destruct s; [contradiction|]. intros He.
    rewrite inject_Z_mult, (Zpower_Qpower 2 (e + 1074)) by lia.
    rewrite (Zpower_Qpower 2 1074) by lia.
    rewrite Qpower_plus by discriminate.
    change (inject_Z 2) with 2%Q. ring.
Qed.

Lemma weighted_units (it : Score) :
  nonneg (score it) ->
  (Claimed.weighted it * inject_Z (100 * 2 ^ 1074)
   == inject_Z (exactUnits it))%Q.
Proof.
  intros Hn. unfold Claimed.weighted, exactUnits, Claimed.resolve.
  destruct (List.find _ Claimed.weightTable) as [[k q]|] eqn:Hf.
  - apply find_some in Hf as [Hin _].
    pose proof weightTable_hundredths as Hd. rewrite Forall_forall in Hd.
    specialize (Hd (k, q) ltac:(apply list_elem_of_In, Hin)).
    cbn [snd] in Hd.
    assert (Hq : (q * inject_Z 100 == inject_Z (Qnum q))%Q).
    { destruct q as [n d]. cbn [Qden Qnum] in *. subst d.
      unfold Qeq, Qmult, inject_Z. cbn [Qnum Qden]. lia. }
    rewrite !inject_Z_mult, <- (exact_units _ Hn), <- Hq. ring.
  - rewrite Qmult_0_l. reflexivity.
Qed.

Lemma weightedSum_units (scores : list Score) :
  Forall (fun it => inRange (score it)) scores ->
  (Claimed.weightedSum scores * inject_Z (100 * 2 ^ 1074)
   == inject_Z (sumZ exactUnits scores))%Q.
Proof.
  intros Hall. unfold Claimed.weightedSum.
  induction Hall as [|it scores Hit _ IH].
  - simpl. rewrite Qmult_0_l. reflexivity.
  - cbn [map fold_right sumZ]. fold (sumZ exactUnits scores).
    rewrite inject_Z_plus, <- IH,
      <- (weighted_units it (proj1 (inRange_units _ Hit))).
    ring.
Qed.

(** From the integers to the rationals. *)
Lemma hundredths_near (h S N : Z) (W : Q) :
  0 < N ->
  (W * inject_Z (100 * N) == inject_Z S)%Q ->
  - (N + 2 ^ 1038) <= 2 * h * N - 2 * S <= N + 2 ^ 1038 ->
  100000000000 * 2 ^ 1038 <= 2 * N ->
  (Qabs ((h # 100) - W) <= (1 # 200) + (1 # 10000000000000))%Q
  /\ Claimed.round2 W - 1 <= h <= Claimed.round2 W + 1.
Proof.
  intros HN HW Hh HE.
  set (P := Z.to_pos (100 * N)).
  assert (HP : Zpos P = 100 * N) by (subst P; rewrite Z2Pos.id; lia).
  assert (Heq : (W == S # P)%Q).
  { destruct W as [n d]. unfold Qeq, Qmult, inject_Z in *.
    cbn [Qnum Qden] in *. rewrite HP. rewrite Pos.mul_1_r in HW. lia. }
  unfold Claimed.round2. rewrite Heq. clear Heq HW W.
  revert Hh HE. generalize (2 ^ 1038). intros E Hh HE.
  split.
  - apply Qabs_Qle_condition.
    unfold Qle, Qminus, Qplus, Qopp. cbn [Qnum Qden].
    rewrite !Pos2Z.inj_mul, HP. split; nia.
  - unfold Qfloor, Qplus, Qmult. cbn [Qnum Qden].
    rewrite !Pos2Z.inj_mul, HP.
    set (D := 100 * N * 1 * 2).
    set (X := S * 100 * 2 + 1 * (100 * N * 1)).
    assert (HD : 0 < D) by (subst D; lia).
    pose proof (Z.mul_div_le X D HD).
    pose proof (Z.mul_succ_div_gt X D HD).
    subst D X. split; nia.
Qed.

End Accuracy.

(** X29: With raw scores from 0 to 5, criteria without underscore and no
    key matched twice, the final score is a number of hundredths that
    lies within 0.005 (and a rounding error below 10^-13) of the exact
    weighted sum with the decimal weights of the table: it is the
    standard rounding of that sum to two decimals or one hundredth next
    to it. *)
Theorem final_score_accuracy (scores : list Score) :
  Forall (fun it => inRange (score it)) scores ->
  Forall (fun it => contains "_" (criteria it) = false) scores ->
  NoDup (matchedKeys scores) ->
  exists h : Z,
    calculateFinalScore scores = Num.lit h 100
    /\ (Qabs ((h # 100) - Claimed.weightedSum scores)
        <= (1 # 200) + (1 # 10000000000000))%Q
    /\ Claimed.round2 (Claimed.weightedSum scores) - 1 <= h
       <= Claimed.round2 (Claimed.weightedSum scores) + 1.
Proof.
  intros Hall Hplain Hnd.
  destruct (final_score_units scores Hall Hplain Hnd)
    as (h & Hh & Hfix & Hnear).
  exists h. split.
  - unfold calculateFinalScore. rewrite Hfix. unfold Num.parseFloat.
    destruct (Z.eqb_spec h 0) as [->|_]; reflexivity.
  - apply (hundredths_near h (sumZ exactUnits scores) (2 ^ 1074)).
    + apply pow2_pos. lia.
    + apply weightedSum_units, Hall.
    + exact Hnear.
    + apply Z.leb_le. vm_compute. reflexivity.
Qed.

Lemma final_score_accuracy_witness :
  exists h : Z,
    calculateFinalScore [mkScore "Refutation" (Num.lit 5 10) ""]
    = Num.lit h 100
    /\ Claimed.round2
         (Claimed.weightedSum [mkScore "Refutation" (Num.lit 5 10) ""]) - 1
       <= h.
Proof.
  destruct (final_score_accuracy [mkScore "Refutation" (Num.lit 5 10) ""])
    as (h & Hv & _ & Hlo & _).
  - repeat constructor.
  - repeat constructor.
  - apply (bool_decide_unpack _). vm_compute. exact I.
  - exists h. split; assumption.
Defined.

(** * Further properties of the script generation *)

Section StreamingFacts.

Variable generateDebateTurnStream : TurnRequest -> Gen.Stream.
Variable systemMessages : list DebateMessage.
Variable currentSides : AIPersona -> string.
Variable currentQuestion : string.

Lemma consumeStream_shown (cs : list Gen.Chunk) (r : Reducer)
    (pre : list DebateMessage) (m : DebateMessage) :
  consumeStream (length pre) cs r (pre ++ [m])
  = (fold_left consumeChunk cs r,
     pre ++ [match cs with
             | [] => m
             | _ =>
                 let r' := fold_left consumeChunk cs r in
                 {| persona := persona m; text := fullText r';
                    isStreaming := isStreaming m;
                    sources := sourcesOrUndefined (collected r') |}
             end]).
Proof.
  revert r m. induction cs as [|c cs IH]; intros r m; [reflexivity|].
  cbn [consumeStream fold_left]. unfold showProgress.
  rewrite alter_app_r_alt by lia. rewrite Nat.sub_diag.
  cbn [alter list_alter]. rewrite IH. f_equal. f_equal.
  destruct cs; reflexivity.
Qed.

Lemma threaded_step (st st' : Script) (turn : Turn) (final : DebateMessage) :
  aligned generateDebateTurnStream systemMessages st ->
  threaded systemMessages currentSides currentQuestion st ->
  requests st'
  = requests st ++ [requestOf currentSides currentQuestion st turn] ->
  (generatedMessages st' = generatedMessages st ++ [final]
   \/ generatedMessages st' = generatedMessages st) ->
  threaded systemMessages currentSides currentQuestion st'.
Proof.
  intros (Hh & _ & Hg) Hth Hreq Hgen i req Hi.
  assert (Hlen : length (requests st) = length (generatedMessages st))
    by (rewrite Hg, length_map; reflexivity).
  rewrite Hreq in Hi.
  destruct (Nat.lt_ge_cases i (length (requests st))) as [Hlt|Hge].
  - rewrite lookup_app_l in Hi by exact Hlt.
    destruct (Hth i req Hi) as (H1 & H2 & H3).
    repeat split; try assumption. rewrite H1. f_equal.
    destruct Hgen as [-> | ->]; [|reflexivity].
    rewrite take_app_le by lia. reflexivity.
  - rewrite lookup_app_r in Hi by exact Hge.
    destruct (i - length (requests st))%nat as [|n] eqn:Hn;
      [|destruct n; discriminate].
    injection Hi as <-. assert (i = length (generatedMessages st)) by lia.
    subst i. unfold requestOf. cbn [reqHistory reqSide reqQuestion reqPersona].
    repeat split. rewrite Hh. f_equal.
    destruct Hgen as [-> | ->].
    + rewrite take_app_le by lia. rewrite take_ge by lia. reflexivity.
    + rewrite take_ge by lia. reflexivity.
Qed.

Lemma runTurns_threaded (turns : list Turn) (st : Script) :
  aligned generateDebateTurnStream systemMessages st ->
  threaded systemMessages currentSides currentQuestion st ->
  match runTurns generateDebateTurnStream systemMessages currentSides
          currentQuestion turns st with
  | inl st' | inr (st', _) =>
      threaded systemMessages currentSides currentQuestion st'
  end.
Proof.
  revert st. induction turns as [|turn turns IH]; intros st Hal Hth;
    [exact Hth|].
  cbn [runTurns].
  pose proof (runTurn_requests generateDebateTurnStream systemMessages
                currentSides currentQuestion st turn) as Hreq.
  destruct (runTurn _ _ _ _ st turn) as [st1|[st1 e]] eqn:Hturn.
  - pose proof (runTurn_inl_completed _ _ _ _ _ _ _ Hturn) as Hok.
    destruct (runTurn_completed _ _ currentSides currentQuestion st turn
                Hal Hok) as (st1' & Hst1 & Hal1 & _ & Hgen).
    rewrite Hturn in Hst1. injection Hst1 as <-.
    apply IH; [exact Hal1|].
    eapply threaded_step; [exact Hal|exact Hth|exact Hreq|].
    left. exact Hgen.
  - destruct Hreq as [Hreq Hgen].
    eapply (threaded_step st st1 turn (mkMessage SYSTEM "" None None));
      [exact Hal|exact Hth|exact Hreq|]. right. exact Hgen.
Qed.

End StreamingFacts.

Section IdleFacts.

Variable generatedMessages : list DebateMessage.
Variable firstMessageOffset : nat.

(** Outside the debating phase and with no promise pending, no event
    changes anything. *)
Lemma settled_step (st : App) (ev : Event) :
  phase st <> DEBATING -> speechPending st = [] -> decoding st = [] ->
  sounding st = [] ->
  step generatedMessages firstMessageOffset st ev = st.
Proof.
  intros Hp Hs Hd Hn.
  destruct ev; simpl; rewrite ?Hs, ?Hd, ?Hn; try reflexivity.
  - destruct (phase st); try reflexivity. contradiction.
  - destruct (phase st); try reflexivity. contradiction.
Qed.

Lemma settled_run (st : App) (evs : list Event) :
  phase st <> DEBATING -> speechPending st = [] -> decoding st = [] ->
  sounding st = [] ->
  run generatedMessages firstMessageOffset st evs = st.
Proof.
  intros Hp Hs Hd Hn. induction evs as [|ev evs IH]; [reflexivity|].
  simpl. rewrite settled_step by assumption. exact IH.
Qed.

End IdleFacts.

(** X6: While a turn is streamed, only its placeholder slot of [messages]
    changes: before the first chunk it holds the placeholder, and after
    any number of chunks what the chunks have appended so far (the text
    of a chunk, the string "undefined" for a chunk without a text part)
    and the sources received so far, the persona and the streaming flag
    as in the placeholder; the messages before that slot are left as they
    are. *)
Theorem streaming_shows_progress (pre : list DebateMessage)
    (tempMessage : DebateMessage) (cs : list Gen.Chunk) :
  consumeStream (length pre) cs newReducer (pre ++ [tempMessage])
  = (reduceStream cs, pre ++ [shownWhileStreaming tempMessage cs])
  /\ text (shownWhileStreaming tempMessage cs)
     = match cs with [] => text tempMessage | _ => concatTexts cs end
  /\ isStreaming (shownWhileStreaming tempMessage cs)
     = isStreaming tempMessage
  /\ persona (shownWhileStreaming tempMessage cs) = persona tempMessage.
Proof.
  split; [|split; [|split]].
  - rewrite consumeStream_shown. unfold shownWhileStreaming, reduceStream.
    destruct cs; reflexivity.
  - destruct cs as [|c cs]; [reflexivity|].
    cbn [shownWhileStreaming text]. unfold reduceStream.
    rewrite fold_consumeChunk_fullText. reflexivity.
  - destruct cs; reflexivity.
  - destruct cs; reflexivity.
Qed.

Lemma generateScript_threaded
    (generateDebateTurnStream : TurnRequest -> Gen.Stream)
    (systemMessages : list DebateMessage)
    (currentSides : AIPersona -> string) (currentQuestion : string) :
  match generateScript generateDebateTurnStream systemMessages currentSides
          currentQuestion with
  | inl st | inr (st, _) =>
      threaded systemMessages currentSides currentQuestion st
  end.
Proof.
  unfold generateScript.
  apply (runTurns_threaded generateDebateTurnStream systemMessages
           currentSides currentQuestion debateTurns
           (startScript systemMessages)).
  - apply startScript_aligned.
  - intros i req Hi. destruct i; discriminate Hi.
Qed.

(** X7: Each call of [generateDebateTurnStream], in runs that complete and in
    runs a failing stream aborts, receives as history the system messages
    followed by the final messages of all turns before it, and the side
    of its persona and the question of the debate. *)
Theorem requests_carry_history
    (generateDebateTurnStream : TurnRequest -> Gen.Stream)
    (systemMessages : list DebateMessage)
    (currentSides : AIPersona -> string) (currentQuestion : string) :
  match generateScript generateDebateTurnStream systemMessages currentSides
          currentQuestion with
  | inl st | inr (st, _) =>
      forall (i : nat) (req : TurnRequest),
        requests st !! i = Some req ->
        reqHistory req = systemMessages ++ take i (generatedMessages st)
        /\ reqSide req = currentSides (reqPersona req)
        /\ reqQuestion req = currentQuestion
  end.
Proof.
  unfold generateScript.
  pose proof (runTurns_threaded generateDebateTurnStream systemMessages
                currentSides currentQuestion debateTurns
                (startScript systemMessages)
                (startScript_aligned generateDebateTurnStream
                   systemMessages)) as H.
  apply H. intros i req Hi. destruct i; discriminate Hi.
Qed.

(** X8: When a stream of part 1 throws, [runDebate] is over: no analysis is
    requested and none stored, no audio is requested, the phase is back
    to idle with the thrown message shown (or "Failed to start debate."
    when it is empty), and nothing that happens later changes the
    state. *)
Theorem script_failure_aborts (sv : Services)
    (systemMessages : list DebateMessage)
    (currentSides : AIPersona -> string) (currentQuestion : string)
    (sc : Script) (message : string) (evs : list Event) :
  generateScript (turnStream sv) systemMessages currentSides
    currentQuestion = inr (sc, message) ->
  let st := fst (runDebate sv systemMessages currentSides currentQuestion) in
  phase st = IDLE
  /\ error st = Some (if Str.truthy message then message
                      else "Failed to start debate.")
  /\ summary st = None /\ comparison st = None /\ console st = []
  /\ effects st = [] /\ pc st = Returned
  /\ snd (runDebate sv systemMessages currentSides currentQuestion)
     = messages sc
  /\ session sv systemMessages currentSides currentQuestion evs = st.
Proof.
  intros Hgen st. subst st. unfold session, runDebate. rewrite Hgen.
  cbn [fst snd]. repeat split.
  apply settled_run; try reflexivity. discriminate.
Qed.

Lemma script_failure_aborts_witness :
  let sv :=
    mkServices
      (fun req => Gen.mkStream [Gen.mkChunk (Some "Rights ") None]
                    (Some "The model is overloaded."))
      (Fulfilled Scenario.summaryOfDebate) (Fulfilled []) false None in
  error (session sv Scenario.system Scenario.sides Scenario.question
           [ClickSkip; ClickSkipToVoting])
  = Some "The model is overloaded.".
Proof.
  intros sv.
  destruct (script_failure_aborts sv Scenario.system Scenario.sides
              Scenario.question
              {| generatedMessages := [];
                 currentHistory := Scenario.system;
                 messages :=
                   Scenario.system
                   ++ [mkMessage (Persona Logos) "Rights " (Some true) None];
                 requests :=
                   [mkTurnRequest Scenario.system Logos
                      (Scenario.sides Logos) "OPENING" Scenario.question] |}
              "The model is overloaded." [ClickSkip; ClickSkipToVoting]
              eq_refl)
    as (_ & Herr & _ & _ & _ & _ & _ & _ & Hrun).
  rewrite Hrun. exact Herr.
Defined.

(** * Further properties of the playback *)

Section TrackedFacts.

Variable generatedMessages : list DebateMessage.
Variable firstMessageOffset : nat.

Local Abbreviation loop_top := (loopTop generatedMessages firstMessageOffset).
Local Abbreviation step_ := (step generatedMessages firstMessageOffset).
Local Abbreviation run_ := (run generatedMessages firstMessageOffset).
Local Abbreviation tracked_ := (tracked generatedMessages firstMessageOffset).

Lemma tracked_exitLoop (n : nat) (st : App) :
  requested st = seq 0 n -> (n <= length generatedMessages)%nat ->
  (isSkippedRef st = true -> phase st = VOTING) ->
  tracked_ (exitLoop st).
Proof.
  intros Hr Hn Hp. unfold tracked, exitLoop, requested in *.
  open_app st; simpl in *.
  destruct skipped_; simpl; (split; [auto|exists n; auto]).
Qed.

Lemma tracked_loopTop (j : nat) (st : App) :
  requested st = seq 0 j -> (j <= length generatedMessages)%nat ->
  isSkippedRef st = false -> audioContextRef st = true ->
  error st = None ->
  tracked_ (loop_top j st).
Proof.
  intros Hr Hj Hs Hc He. unfold loopTop.
  destruct (generatedMessages !! j) as [m|] eqn:Hm;
    [|apply (tracked_exitLoop j); auto; congruence].
  rewrite Hs. apply lookup_lt_Some in Hm.
  assert (Hq : seq 0 (S j) = seq 0 j ++ [j]) by (rewrite seq_S; reflexivity).
  unfold tracked, requested in *. open_app st; simpl in *.
  rewrite omap_app, Hr. simpl. rewrite Hq. repeat split; auto.
Qed.

Lemma requested_other (st : App) (e : Effect) (l : list Effect) :
  (forall i, e <> SpeechRequested i) ->
  omap (fun e => match e with SpeechRequested i => Some i | _ => None end)
    (l ++ [e])
  = omap (fun e => match e with SpeechRequested i => Some i | _ => None end)
      l.
Proof.
  intros H. rewrite omap_app. simpl.
  destruct e as [i| |]; [destruct (H i eq_refl)| |]; simpl;
    apply app_nil_r.
Qed.

Ltac other_tac :=
  rewrite ?requested_other by (exact analyzing || (intros; discriminate)).

Lemma tracked_step (st : App) (ev : Event) :
  wf st -> tracked_ st -> tracked_ (step_ st ev).
Proof.
  intros Hwf Htr.
  destruct ev as [i d|i e|i|i e|i| |]; simpl.
  - (* SpeechResolved *)
    case_bool_decide as Hin; [|exact Htr].
    unfold wf in Hwf. unfold tracked in Htr.
    open_app st; simpl in *.
    destruct pc_ as [j|j|]; try exact Htr.
    destruct (Nat.eqb_spec j i) as [->|Hne]; [|exact Htr].
    destruct Hwf as (Ht & Hs & Hp & Hi & Hpend & Hb).
    destruct Htr as (Hr & Hlt & Hidx & Hctx & Herr). subst.
    unfold afterAudio.
    destruct (asInterrupt d) as [[]|]; cbn [afterInterrupt];
      [apply tracked_loopTop; simpl; auto
      |apply (tracked_exitLoop (S i)); simpl; auto; discriminate|].
    destruct (Str.truthy d); simpl.
    + unfold tracked. simpl. repeat split; auto.
    + apply tracked_loopTop; simpl; auto.
  - (* SpeechRejected *)
    case_bool_decide as Hin; [|exact Htr].
    unfold wf in Hwf. unfold tracked in Htr.
    open_app st; simpl in *.
    destruct pc_ as [j|j|]; try exact Htr.
    destruct (Nat.eqb_spec j i) as [->|Hne]; [|exact Htr].
    destruct Hwf as (Ht & Hs & Hp & Hi & Hpend & Hb).
    destruct Htr as (Hr & Hlt & Hidx & Hctx & Herr). subst.
    unfold catchRace. simpl.
    apply (tracked_exitLoop (S i)); simpl; auto. discriminate.
  - (* Decoded *)
    case_bool_decide as Hin; [|exact Htr].
    unfold wf in Hwf. unfold tracked in Htr. unfold playbackResolved.
    open_app st; simpl in *.
    destruct skipped_; simpl.
    + destruct pc_ as [j|j|]; try exact Htr;
        destruct Hwf as (_ & ? & _); discriminate.
    + unfold tracked, requested. simpl. other_tac.
      destruct pc_ as [j|j|]; exact Htr.
  - (* DecodeFailed *)
    case_bool_decide as Hin; [|exact Htr].
    unfold wf in Hwf. unfold tracked in Htr. unfold playbackRejected.
    open_app st; simpl in *.
    destruct pc_ as [j|j|]; try exact Htr.
    destruct (Nat.eqb_spec j i) as [->|Hne]; [|exact Htr].
    destruct Hwf as (Ht & Hs & Hp & Hi & Hpend & Hb).
    destruct Htr as (Hr & Hlt & Hidx & Hctx & Herr). subst.
    unfold catchRace. simpl.
    apply (tracked_exitLoop (S i)); simpl; auto. discriminate.
  - (* Ended *)
    case_bool_decide as Hin; [|exact Htr].
    unfold wf in Hwf. unfold tracked in Htr. unfold playbackResolved.
    open_app st; simpl in *.
    case_bool_decide as Hcur; simpl;
      (destruct pc_ as [j|j|]; try exact Htr;
       destruct (Nat.eqb_spec j i) as [->|Hne]; [|exact Htr];
       destruct Hwf as (Ht & Hs & Hp & Hi & Hpend & Hb);
       destruct Htr as (Hr & Hlt & Hidx & Hctx & Herr); subst;
       apply tracked_loopTop; simpl; auto).
  - (* ClickSkip *)
    destruct (phase st) eqn:Hp; try exact Htr.
    destruct (speakingMessageIndex st) eqn:Hi; try exact Htr.
    unfold handleSkip, trigger, stopCurrent.
    unfold wf in Hwf. unfold tracked in Htr.
    open_app st; simpl in *.
    destruct current_; simpl;
      (destruct trigger_ as [t|]; simpl;
       [|destruct pc_; unfold tracked, requested; simpl; other_tac;
         exact Htr]);
      (destruct pc_ as [j|j|]; simpl;
       [| |unfold tracked, requested; simpl; other_tac; exact Htr]);
      (destruct (Nat.eqb_spec t j) as [->|Hne];
       [|unfold tracked, requested; simpl; other_tac; exact Htr]);
      destruct Hwf as (Ht & Hs & _ & _ & Hpend & Hb);
      destruct Htr as (Hr & Hlt & Hidx & Hctx & Herr); subst;
      apply tracked_loopTop; unfold requested; simpl; other_tac; auto.
  - (* ClickSkipToVoting *)
    destruct (phase st) eqn:Hp; try exact Htr.
    unfold handleSkipToVoting, trigger, stopCurrent.
    unfold wf in Hwf. unfold tracked in Htr.
    open_app st; simpl in *.
    destruct skipped_; simpl; [exact Htr|].
    destruct pc_ as [j|j|]; [| |destruct Htr; congruence];
      destruct Hwf as (Ht & _ & _ & Hi & Hpend & Hb);
      destruct Htr as (Hr & Hlt & Hidx & Hctx & Herr); subst;
      destruct current_; simpl; rewrite Nat.eqb_refl; simpl;
      apply (tracked_exitLoop (S j)); unfold requested; simpl; other_tac;
      auto.
Qed.

Lemma tracked_run (st : App) (evs : list Event) :
  wf st -> tracked_ st -> tracked_ (run_ st evs).
Proof.
  revert st. induction evs as [|ev evs IH]; intros st Hwf Htr;
    [exact Htr|].
  simpl. apply IH; [apply wf_step, Hwf|apply tracked_step; assumption].
Qed.

(** No event takes the loop back. *)
Lemma notBehind_refl (p : Pc) : notBehind p p.
Proof. destruct p; unfold notBehind; simpl; auto. Qed.

Lemma notBehind_trans (p q r : Pc) :
  notBehind p q -> notBehind q r -> notBehind p r.
Proof.
  unfold notBehind. destruct p, q, r; simpl; try tauto; lia.
Qed.

Lemma notBehind_exitLoop (p : Pc) (st : App) : notBehind p (pc (exitLoop st)).
Proof.
  unfold exitLoop. open_app st; simpl. destruct skipped_; simpl;
    destruct p; exact I.
Qed.

Lemma notBehind_loopTop (p : Pc) (j : nat) (st : App) :
  notBehind p (AwaitAudio j) -> notBehind p (pc (loop_top j st)).
Proof.
  intros H. unfold loopTop. destruct (generatedMessages !! j);
    [|apply notBehind_exitLoop].
  destruct (isSkippedRef st); [apply notBehind_exitLoop|].
  open_app st; simpl. exact H.
Qed.

Lemma notBehind_step (st : App) (ev : Event) :
  notBehind (pc st) (pc (step_ st ev)).
Proof.
  assert (Hnext : forall j st',
             notBehind (AwaitAudio j) (pc (loop_top (S j) st'))
             /\ notBehind (AwaitPlay j) (pc (loop_top (S j) st'))).
  { intros j st'. split; apply notBehind_loopTop; unfold notBehind; simpl;
      lia. }
  pose proof notBehind_exitLoop as Hexit.
  destruct ev as [i d|i e|i|i e|i| |]; simpl.
  - case_bool_decide; [|apply notBehind_refl].
    open_app st; simpl. destruct pc_ as [j|j|]; try apply notBehind_refl.
    destruct (Nat.eqb_spec j i) as [->|Hne]; [|apply notBehind_refl].
    unfold afterAudio.
    destruct (asInterrupt d) as [[]|]; cbn [afterInterrupt];
      [apply Hnext|apply Hexit|].
    destruct (Str.truthy d); [|apply Hnext]. simpl.
    destruct (negb context_ || skipped_)%bool; [apply Hnext|].
    unfold notBehind. simpl. lia.
  - case_bool_decide; [|apply notBehind_refl].
    open_app st; simpl. destruct pc_ as [j|j|]; try apply notBehind_refl.
    destruct (Nat.eqb_spec j i) as [->|Hne]; [|apply notBehind_refl].
    unfold catchRace. apply Hexit.
  - case_bool_decide; [|apply notBehind_refl].
    unfold playbackResolved. open_app st; simpl.
    destruct skipped_; simpl; [|apply notBehind_refl].
    destruct pc_ as [j|j|]; try apply notBehind_refl.
    destruct (Nat.eqb_spec j i) as [->|Hne]; [|apply notBehind_refl].
    apply Hnext.
  - case_bool_decide; [|apply notBehind_refl].
    unfold playbackRejected. open_app st; simpl.
    destruct pc_ as [j|j|]; try apply notBehind_refl.
    destruct (Nat.eqb_spec j i) as [->|Hne]; [|apply notBehind_refl].
    unfold catchRace. apply Hexit.
  - case_bool_decide; [|apply notBehind_refl].
    unfold playbackResolved. open_app st; simpl.
    case_bool_decide; simpl;
      (destruct pc_ as [j|j|]; try apply notBehind_refl;
       destruct (Nat.eqb_spec j i) as [->|Hne]; [|apply notBehind_refl];
       apply Hnext).
  - destruct (phase st); try apply notBehind_refl.
    destruct (speakingMessageIndex st); try apply notBehind_refl.
    unfold handleSkip, trigger, stopCurrent. open_app st; simpl.
    destruct current_; simpl;
      (destruct trigger_ as [t|]; simpl;
       [|destruct pc_; apply notBehind_refl]);
      (destruct pc_ as [j|j|]; simpl; try apply notBehind_refl;
       (destruct (Nat.eqb_spec t j) as [->|Hne];
        [apply Hnext|apply notBehind_refl])).
  - destruct (phase st); try apply notBehind_refl.
    unfold handleSkipToVoting, trigger, stopCurrent. open_app st; simpl.
    destruct skipped_; simpl; [apply notBehind_refl|].
    destruct current_; simpl;
      (destruct trigger_ as [t|]; simpl;
       [|destruct pc_; apply notBehind_refl]);
      (destruct pc_ as [j|j|]; simpl; try apply notBehind_refl;
       (destruct (Nat.eqb_spec t j) as [->|Hne];
        [apply Hexit|apply notBehind_refl])).
Qed.

Lemma notBehind_run (st : App) (evs : list Event) :
  notBehind (pc st) (pc (run_ st evs)).
Proof.
  revert st. induction evs as [|ev evs IH]; intros st;
    [apply notBehind_refl|].
  simpl. eapply notBehind_trans; [apply notBehind_step|apply IH].
Qed.

(** The analysis is not touched by the playback. *)
Lemma analysis_step (st : App) (ev : Event) :
  summary (step_ st ev) = summary st
  /\ comparison (step_ st ev) = comparison st.
Proof.
  assert (Hexit : forall s, summary (exitLoop s) = summary s
                            /\ comparison (exitLoop s) = comparison s).
  { intros s. unfold exitLoop. open_app s; simpl.
    destruct skipped_; split; reflexivity. }
  assert (Htop : forall j s, summary (loop_top j s) = summary s
                             /\ comparison (loop_top j s) = comparison s).
  { intros j s. unfold loopTop. destruct (generatedMessages !! j);
      [|apply Hexit]. destruct (isSkippedRef s); [apply Hexit|].
    open_app s; split; reflexivity. }
  destruct ev as [i d|i e|i|i e|i| |]; simpl.
  - case_bool_decide; [|split; reflexivity].
    open_app st; simpl. destruct pc_ as [j|j|]; try (split; reflexivity).
    destruct (Nat.eqb j i); [|split; reflexivity].
    unfold afterAudio.
    destruct (asInterrupt d) as [[]|]; cbn [afterInterrupt];
      [apply Htop|apply Hexit|].
    destruct (Str.truthy d); [|apply Htop]. simpl.
    destruct (negb context_ || skipped_)%bool;
      [apply Htop|split; reflexivity].
  - case_bool_decide; [|split; reflexivity].
    open_app st; simpl. destruct pc_ as [j|j|]; try (split; reflexivity).
    destruct (Nat.eqb j i); [|split; reflexivity].
    unfold catchRace, exitLoop. simpl.
    destruct skipped_; split; reflexivity.
  - case_bool_decide; [|split; reflexivity].
    unfold playbackResolved. open_app st; simpl.
    destruct skipped_; simpl; [|split; reflexivity].
    destruct pc_ as [j|j|]; try (split; reflexivity).
    destruct (Nat.eqb j i); [apply Htop|split; reflexivity].
  - case_bool_decide; [|split; reflexivity].
    unfold playbackRejected. open_app st; simpl.
    destruct pc_ as [j|j|]; try (split; reflexivity).
    destruct (Nat.eqb j i); [|split; reflexivity].
    unfold catchRace, exitLoop. simpl.
    destruct skipped_; split; reflexivity.
  - case_bool_decide; [|split; reflexivity].
    unfold playbackResolved. open_app st; simpl.
    case_bool_decide; simpl;
      (destruct pc_ as [j|j|]; try (split; reflexivity);
       destruct (Nat.eqb j i); [apply Htop|split; reflexivity]).
  - destruct (phase st); try (split; reflexivity).
    destruct (speakingMessageIndex st); try (split; reflexivity).
    unfold handleSkip, trigger, stopCurrent. open_app st; simpl.
    destruct current_; simpl;
      (destruct trigger_ as [t|]; simpl;
       [|destruct pc_; split; reflexivity]);
      (destruct pc_ as [j|j|]; simpl; try (split; reflexivity);
       (destruct (Nat.eqb t j); [apply Htop|split; reflexivity])).
  - destruct (phase st); try (split; reflexivity).
    unfold handleSkipToVoting, trigger, stopCurrent. open_app st; simpl.
    destruct skipped_; simpl; [split; reflexivity|].
    destruct current_; simpl;
      (destruct trigger_ as [t|]; simpl;
       [|destruct pc_; split; reflexivity]);
      (destruct pc_ as [j|j|]; simpl; try (split; reflexivity);
       (destruct (Nat.eqb t j); [|split; reflexivity]);
       unfold exitLoop; split; reflexivity).
Qed.

Lemma analysis_run (st : App) (evs : list Event) :
  summary (run_ st evs) = summary st
  /\ comparison (run_ st evs) = comparison st.
Proof.
  revert st. induction evs as [|ev evs IH]; intros st;
    [split; reflexivity|].
  simpl. destruct (IH (step_ st ev)) as [H1 H2].
  destruct (analysis_step st ev) as [H3 H4]. split; congruence.
Qed.

End TrackedFacts.

Section TraceFacts.

Variable generatedMessages : list DebateMessage.
Variable firstMessageOffset : nat.

Local Abbreviation loop_top := (loopTop generatedMessages firstMessageOffset).
Local Abbreviation step_ := (step generatedMessages firstMessageOffset).
Local Abbreviation run_ := (run generatedMessages firstMessageOffset).

(** Once the loop has returned, nothing is logged or shown any more. *)
Lemma returned_quiet_step (st : App) (ev : Event) :
  pc st = Returned -> phase st <> DEBATING ->
  console (step_ st ev) = console st
  /\ statusText (step_ st ev) = statusText st
  /\ speakingMessageIndex (step_ st ev) = speakingMessageIndex st.
Proof.
  intros Hpc Hph. open_app st; simpl in *. subst.
  destruct ev as [i d|i e|i|i e|i| |]; simpl;
    repeat case_bool_decide; simpl;
    try (destruct phase_; try congruence; simpl);
    try (destruct skipped_; simpl);
    repeat split; reflexivity.
Qed.

Lemma returned_quiet_run (st : App) (evs : list Event) :
  pc st = Returned -> phase st <> DEBATING ->
  console (run_ st evs) = console st
  /\ statusText (run_ st evs) = statusText st
  /\ speakingMessageIndex (run_ st evs) = speakingMessageIndex st.
Proof.
  revert st. induction evs as [|ev evs IH]; intros st Hpc Hph;
    [repeat split; reflexivity|].
  simpl.
  destruct (returned_step generatedMessages firstMessageOffset st ev Hpc Hph)
    as (Hpc1 & Hph1 & _).
  destruct (returned_quiet_step st ev Hpc Hph) as (H1 & H2 & H3).
  destruct (IH (step_ st ev) Hpc1 ltac:(rewrite Hph1; exact Hph))
    as (H4 & H5 & H6).
  repeat split; congruence.
Qed.

Lemma settle_fresh (i : nat) (l : list nat) :
  i ∉ l -> settle i (l ++ [i]) = l.
Proof.
  intros Hi. unfold settle. rewrite filter_app.
  rewrite (filter_cons_False _ i []) by (intros H; apply H; reflexivity).
  rewrite filter_nil, app_nil_r.
  induction l as [|a l IH]; [reflexivity|].
  apply not_elem_of_cons in Hi as [Hne Hi].
  rewrite filter_cons_True by congruence. rewrite IH by exact Hi.
  reflexivity.
Qed.

Local Arguments loopTop : simpl never.


End TraceFacts.

Section SessionTrace.

Variable sv : Services.
Variable systemMessages : list DebateMessage.
Variable currentSides : AIPersona -> string.
Variable currentQuestion : string.

Local Abbreviation script :=
  (scriptOf sv systemMessages currentSides currentQuestion).
Local Abbreviation offset := (length systemMessages).
Local Abbreviation session_ :=
  (session sv systemMessages currentSides currentQuestion).
Local Abbreviation started :=
  (fst (runDebate sv systemMessages currentSides currentQuestion)).

Lemma loopTop_analysis (gm : list DebateMessage) (j : nat) (st : App) :
  summary (loopTop gm offset j st) = summary st
  /\ comparison (loopTop gm offset j st) = comparison st.
Proof.
  unfold loopTop, exitLoop. destruct (gm !! j);
    [destruct (isSkippedRef st) eqn:Hs|]; open_app st; simpl in *;
    subst; simpl; try (split; reflexivity);
    destruct skipped_; split; reflexivity.
Qed.

(** The analysis with which the playback starts is the one part 2
    stored. *)
Lemma started_analysis (sc : Script) :
  generateScript (turnStream sv) systemMessages currentSides
    currentQuestion = inl sc ->
  match Promise_all (debateSummary sv) (argumentComparison sv)
          (comparisonFirst sv) with
  | Fulfilled (s, c) => summary started = Some s /\ comparison started = Some c
  | Rejected _ => summary started = None /\ comparison started = None
  end.
Proof.
  intros Hgen. unfold runDebate. rewrite Hgen. cbn [fst].
  unfold startPlayback, analyse.
  destruct (Promise_all _ _ _) as [[s c]|m]; simpl;
    (destruct (webAudio sv); [split; reflexivity|]);
    match goal with
    | |- context [loopTop ?g _ ?j ?s] =>
        destruct (loopTop_analysis g j s) as [-> ->]
    end; split; reflexivity.
Qed.

Lemma tracked_session (sc : Script) (evs : list Event) :
  generateScript (turnStream sv) systemMessages currentSides
    currentQuestion = inl sc ->
  webAudio sv = None ->
  tracked script offset (session_ evs).
Proof.
  intros Hgen Hweb. unfold session. apply tracked_run.
  - apply (wf_session sv systemMessages currentSides currentQuestion []).
  - assert (Hsc : script = generatedMessages sc)
      by (unfold scriptOf; rewrite Hgen; reflexivity).
    rewrite Hsc. unfold runDebate. rewrite Hgen. cbn [fst].
    unfold startPlayback. rewrite Hweb.
    unfold analyse.
    destruct (Promise_all _ _ _) as [[s c]|m]; simpl;
      apply tracked_loopTop; try reflexivity; lia.
Qed.

(** When the start fails, nothing happens afterwards. *)
Lemma failed_start_settled (evs : list Event) :
  phase started = IDLE ->
  session_ evs = started /\ effects started = [].
Proof.
  intros Hp. unfold session.
  assert (H : speechPending started = [] /\ decoding started = []
              /\ sounding started = [] /\ effects started = []).
  { revert Hp. unfold runDebate.
    destruct (generateScript _ _ _ _) as [sc|[sc message]]; cbn [fst];
      [|repeat split; reflexivity].
    unfold startPlayback, analyse.
    destruct (Promise_all _ _ _) as [[s c]|m]; simpl;
      (destruct (webAudio sv); [repeat split; reflexivity|]);
      intros Hp; exfalso; revert Hp;
      match goal with
      | |- phase (loopTop ?g ?o ?j ?s) = IDLE -> False =>
          pose proof (wf_loopTop g o j s eq_refl eq_refl) as Hwf
      end;
      (unfold wf in Hwf;
       match type of Hwf with
       | ?P -> _ =>
           assert (Hb : P)
             by (intros j Hj; simpl in Hj; rewrite !elem_of_nil in Hj;
                 tauto);
           specialize (Hwf Hb)
       end);
      unfold loopTop, exitLoop in *;
      destruct (_ !! 0%nat); simpl in *; intros; discriminate. }
  destruct H as (H1 & H2 & H3 & H4). split; [|exact H4].
  apply settled_run; try assumption. rewrite Hp. discriminate.
Qed.

End SessionTrace.

Section StartFacts.

Variable sv : Services.
Variable systemMessages : list DebateMessage.
Variable currentSides : AIPersona -> string.
Variable currentQuestion : string.

Local Abbreviation script :=
  (scriptOf sv systemMessages currentSides currentQuestion).
Local Abbreviation offset := (length systemMessages).
Local Abbreviation session_ :=
  (session sv systemMessages currentSides currentQuestion).
Local Abbreviation started :=
  (fst (runDebate sv systemMessages currentSides currentQuestion)).

(** The two ways in which [runDebate] throws. *)
Lemma failed_start (evs : list Event) :
  (exists sc message,
      generateScript (turnStream sv) systemMessages currentSides
        currentQuestion = inr (sc, message))
  \/ (exists message, webAudio sv = Some message) ->
  phase (session_ evs) = IDLE /\ pc (session_ evs) = Returned
  /\ effects (session_ evs) = [] /\ session_ evs = started.
Proof.
  intros H.
  assert (Hst : phase started = IDLE /\ pc started = Returned).
  { unfold runDebate.
    destruct (generateScript _ _ _ _) as [sc|[sc message]] eqn:Hgen;
      cbn [fst]; [|split; reflexivity].
    destruct H as [(sc' & message & H)|[message Hweb]]; [discriminate|].
    unfold startPlayback, analyse. rewrite Hweb.
    destruct (Promise_all _ _ _) as [[s c]|m]; split; reflexivity. }
  destruct Hst as [Hp Hpc].
  destruct (failed_start_settled sv systemMessages currentSides
              currentQuestion evs Hp) as [Hrun Heff].
  rewrite Hrun. repeat split; assumption.
Qed.

Lemma script_of (sc : Script) :
  generateScript (turnStream sv) systemMessages currentSides
    currentQuestion = inl sc ->
  script = generatedMessages sc
  /\ snd (runDebate sv systemMessages currentSides currentQuestion)
     = systemMessages ++ generatedMessages sc.
Proof.
  intros Hgen. unfold scriptOf, runDebate. rewrite Hgen. cbn [snd].
  split; [reflexivity|].
  unfold generateScript in Hgen.
  destruct (runTurns_completed _ _ _ _ debateTurns _ _
              (startScript_aligned (turnStream sv) systemMessages) Hgen)
    as ((_ & Hm & _) & _).
  exact Hm.
Qed.

End StartFacts.

(** X9: In every session the audio of the turns is requested in the order of
    the turns, starting with the first, each turn at most once and never
    more than six; while the loop waits for turn [i], the requests made
    are exactly those of the turns up to [i]. *)
Theorem audio_requested_in_order (sv : Services)
    (systemMessages : list DebateMessage)
    (currentSides : AIPersona -> string) (currentQuestion : string)
    (evs : list Event) :
  let st := session sv systemMessages currentSides currentQuestion evs in
  exists n : nat,
    requested st = seq 0 n /\ (n <= 6)%nat
    /\ match pc st with
       | AwaitAudio i | AwaitPlay i => n = S i
       | Returned => True
       end.
Proof.
  intros st. subst st.
  destruct (generateScript (turnStream sv) systemMessages currentSides
              currentQuestion) as [sc|[sc message]] eqn:Hgen.
  - destruct (webAudio sv) as [message|] eqn:Hweb.
    + destruct (failed_start sv systemMessages currentSides currentQuestion
                  evs) as (_ & Hpc & Heff & _); [right; eauto|].
      exists 0%nat. unfold requested. rewrite Heff, Hpc.
      repeat split; auto; lia.
    + pose proof (tracked_session sv systemMessages currentSides
                    currentQuestion sc evs Hgen Hweb) as Htr.
      pose proof (script_length sv systemMessages currentSides
                    currentQuestion sc Hgen) as Hlen.
      unfold tracked in Htr. rewrite Hlen in Htr.
      destruct (pc (session _ _ _ _ evs)) as [i|i|].
      * destruct Htr as (Hr & Hlt & _). exists (S i).
        repeat split; auto; lia.
      * destruct Htr as (Hr & Hlt & _). exists (S i).
        repeat split; auto; lia.
      * destruct Htr as (_ & n & Hr & Hn). exists n. repeat split; auto.
  - destruct (failed_start sv systemMessages currentSides currentQuestion
                evs) as (_ & Hpc & Heff & _); [left; eauto|].
    exists 0%nat. unfold requested. rewrite Heff, Hpc.
    repeat split; auto; lia.
Qed.

(** X10: While the loop waits for the audio or the playback of turn [i], the
    highlighted message, the one that carries the skip button, is the
    message of turn [i] in [messages]. *)
Theorem highlight_follows_turn (sv : Services)
    (systemMessages : list DebateMessage)
    (currentSides : AIPersona -> string) (currentQuestion : string)
    (evs : list Event) (i : nat) :
  let st := session sv systemMessages currentSides currentQuestion evs in
  let shown :=
    snd (runDebate sv systemMessages currentSides currentQuestion) in
  pc st = AwaitAudio i \/ pc st = AwaitPlay i ->
  exists m,
    speakingMessageIndex st = Some (length systemMessages + i)%nat
    /\ shown !! (length systemMessages + i)%nat = Some m
    /\ scriptOf sv systemMessages currentSides currentQuestion !! i
       = Some m
    /\ persona m <> SYSTEM.
Proof.
  intros st shown Hpc. subst st shown.
  destruct (generateScript (turnStream sv) systemMessages currentSides
              currentQuestion) as [sc|[sc message]] eqn:Hgen.
  - destruct (webAudio sv) as [message|] eqn:Hweb.
    + destruct (failed_start sv systemMessages currentSides currentQuestion
                  evs) as (_ & Hret & _); [right; eauto|].
      rewrite Hret in Hpc. destruct Hpc; discriminate.
    + pose proof (tracked_session sv systemMessages currentSides
                    currentQuestion sc evs Hgen Hweb) as Htr.
      destruct (script_of sv systemMessages currentSides currentQuestion
                  sc Hgen) as [Hsc Hshown].
      unfold tracked in Htr.
      assert (H : speakingMessageIndex
                    (session sv systemMessages currentSides currentQuestion
                       evs) = Some (length systemMessages + i)%nat
                  /\ (i < length (scriptOf sv systemMessages currentSides
                                    currentQuestion))%nat).
      { destruct Hpc as [Hpc|Hpc]; rewrite Hpc in Htr;
          destruct Htr as (_ & Hlt & Hidx & _); split; assumption. }
      destruct H as [Hidx Hlt].
      destruct (lookup_lt_is_Some_2 _ _ Hlt) as [m Hm].
      exists m. split; [exact Hidx|]. split; [|split; [exact Hm|]].
      * rewrite Hshown, lookup_app_r by lia.
        replace (length systemMessages + i - length systemMessages)%nat
          with i by lia.
        rewrite <- Hsc. exact Hm.
      * rewrite Hsc in Hm. unfold generateScript in Hgen.
        destruct (runTurns_completed _ _ _ _ debateTurns _ _
                    (startScript_aligned (turnStream sv) systemMessages)
                    Hgen) as ((_ & _ & Hg) & _).
        rewrite Hg in Hm. rewrite list_lookup_fmap in Hm.
        destruct (requests sc !! i); [|discriminate].
        injection Hm as <-. discriminate.
  - destruct (failed_start sv systemMessages currentSides currentQuestion
                evs) as (_ & Hret & _); [left; eauto|].
    rewrite Hret in Hpc. destruct Hpc; discriminate.
Qed.

Lemma highlight_follows_turn_witness :
  speakingMessageIndex
    (session Scenario.services Scenario.system Scenario.sides
       Scenario.question
       [SpeechResolved 0 (Scenario.audio 0); Decoded 0; Ended 0])
  = Some 4%nat.
Proof.
  destruct (highlight_follows_turn Scenario.services Scenario.system
              Scenario.sides Scenario.question
              [SpeechResolved 0 (Scenario.audio 0); Decoded 0; Ended 0]
              1%nat)
    as (m & Hidx & _).
  - left. reflexivity.
  - exact Hidx.
Defined.

(** X11: Once part 3 has started, the phase is the debate exactly while the
    loop is suspended at one of its races, with no error shown and the
    skip flag unset; and however the loop is left (the last turn played,
    a skip to the vote, or a failure of the audio), the phase is then the
    vote. *)
Theorem loop_left_into_voting (sv : Services)
    (systemMessages : list DebateMessage)
    (currentSides : AIPersona -> string) (currentQuestion : string)
    (sc : Script) (evs : list Event) :
  generateScript (turnStream sv) systemMessages currentSides
    currentQuestion = inl sc ->
  webAudio sv = None ->
  let st := session sv systemMessages currentSides currentQuestion evs in
  (pc st <> Returned /\ phase st = DEBATING /\ error st = None
   /\ isSkippedRef st = false /\ audioContextRef st = true)
  \/ (pc st = Returned /\ phase st = VOTING).
Proof.
  intros Hgen Hweb st. subst st.
  pose proof (tracked_session sv systemMessages currentSides
                currentQuestion sc evs Hgen Hweb) as Htr.
  pose proof (wf_session sv systemMessages currentSides currentQuestion
                evs) as Hwf.
  unfold tracked in Htr. unfold wf in Hwf.
  destruct (pc (session _ _ _ _ evs)) as [i|i|].
  - left. destruct Htr as (_ & _ & _ & Hc & He).
    destruct Hwf as (_ & Hs & Hp & _). repeat split; auto; discriminate.
  - left. destruct Htr as (_ & _ & _ & Hc & He).
    destruct Hwf as (_ & Hs & Hp & _). repeat split; auto; discriminate.
  - right. destruct Htr as [Hp _]. split; [reflexivity|exact Hp].
Qed.

Lemma loop_left_into_voting_witness :
  phase
    (session Scenario.services Scenario.system Scenario.sides
       Scenario.question
       [SpeechResolved 0 (Scenario.audio 0); DecodeFailed 0 "bad data"])
  = VOTING.
Proof.
  destruct (runTurns_total Scenario.service Scenario.system Scenario.sides
              Scenario.question debateTurns (startScript Scenario.system)
              (fun _ => eq_refl)
              (startScript_aligned Scenario.service Scenario.system))
    as [sc Hsc].
  destruct (loop_left_into_voting Scenario.services Scenario.system
              Scenario.sides Scenario.question sc
              [SpeechResolved 0 (Scenario.audio 0);
               DecodeFailed 0 "bad data"] Hsc eq_refl)
    as [(Hpc & _)|(_ & Hp)].
  - exfalso. apply Hpc. reflexivity.
  - exact Hp.
Defined.

(** X12: The playback only moves forward: from the wait for a turn's audio to
    its playback, from a turn to the next one, or out of the loop; no
    event takes it back to an earlier point, and once the loop has
    returned it stays so. *)
Theorem playback_moves_forward (sv : Services)
    (systemMessages : list DebateMessage)
    (currentSides : AIPersona -> string) (currentQuestion : string)
    (evs later : list Event) :
  let run_session :=
    session sv systemMessages currentSides currentQuestion in
  notBehind (pc (run_session evs)) (pc (run_session (evs ++ later)))
  /\ (pc (run_session evs) = Returned ->
      pc (run_session (evs ++ later)) = Returned)
  /\ (forall i j,
        pc (run_session evs) = AwaitPlay i ->
        pc (run_session (evs ++ later)) = AwaitAudio j -> (i < j)%nat).
Proof.
  intros run_session. subst run_session.
  rewrite session_app.
  pose proof (notBehind_run
                (scriptOf sv systemMessages currentSides currentQuestion)
                (length systemMessages)
                (session sv systemMessages currentSides currentQuestion evs)
                later) as H.
  split; [exact H|]. unfold notBehind in H. split.
  - intros Hpc. rewrite Hpc in H. simpl in H.
    destruct (pc (run _ _ _ later)); simpl in H; try contradiction.
    reflexivity.
  - intros i j Hi Hj. rewrite Hi, Hj in H. simpl in H. lia.
Qed.

(** X13: The playback never touches the analysis of part 2, so the two vote
    buttons are enabled, at any moment of a session whose script was
    generated, exactly when both analysis requests were fulfilled; when
    either was rejected they stay disabled for the rest of the session. *)
Theorem vote_buttons_follow_analysis (sv : Services)
    (systemMessages : list DebateMessage)
    (currentSides : AIPersona -> string) (currentQuestion : string)
    (sc : Script) (evs : list Event) :
  generateScript (turnStream sv) systemMessages currentSides
    currentQuestion = inl sc ->
  let run_session :=
    session sv systemMessages currentSides currentQuestion in
  summary (run_session evs) = summary (run_session [])
  /\ comparison (run_session evs) = comparison (run_session [])
  /\ (voteDisabled (run_session evs) = false
      <-> exists s c, debateSummary sv = Fulfilled s
                      /\ argumentComparison sv = Fulfilled c).
Proof.
  intros Hgen run_session. subst run_session.
  destruct (analysis_run
              (scriptOf sv systemMessages currentSides currentQuestion)
              (length systemMessages)
              (fst (runDebate sv systemMessages currentSides
                      currentQuestion)) evs) as [Hs Hc].
  fold (session sv systemMessages currentSides currentQuestion evs)
    in Hs, Hc.
  split; [exact Hs|]. split; [exact Hc|].
  unfold voteDisabled. rewrite Hs, Hc.
  pose proof (started_analysis sv systemMessages currentSides
                currentQuestion sc Hgen) as Ha.
  unfold Promise_all in Ha.
  destruct (debateSummary sv) as [s|es], (argumentComparison sv) as [c|ec];
    destruct Ha as [-> ->]; simpl; split;
      try discriminate; try (intros (s' & c' & ? & ?); discriminate).
  - intros _. eauto.
  - intros _. rewrite ?bool_decide_eq_true_2 by eauto. reflexivity.
Qed.

Lemma vote_buttons_follow_analysis_witness :
  voteDisabled
    (session Scenario.services Scenario.system Scenario.sides
       Scenario.question (uninterrupted Scenario.audio 0 6))
  = true.
Proof.
  destruct (runTurns_total Scenario.service Scenario.system Scenario.sides
              Scenario.question debateTurns (startScript Scenario.system)
              (fun _ => eq_refl)
              (startScript_aligned Scenario.service Scenario.system))
    as [sc Hsc].
  destruct (vote_buttons_follow_analysis Scenario.services Scenario.system
              Scenario.sides Scenario.question sc
              (uninterrupted Scenario.audio 0 6) Hsc)
    as (_ & _ & Hiff).
  apply Bool.not_false_iff_true. intros H.
  apply Hiff in H as (s & c & _ & Hc). discriminate Hc.
Defined.

(** X14: When the audio context cannot be created, the playback does not
    start: no audio is requested, the phase is back to idle, and what the
    user sees is the message of the thrown error ("Failed to start
    debate." when it is empty), which replaces the message of
    [initializeAudio]; the failure is logged, and nothing that happens
    later changes the state. *)
Theorem audio_context_failure (sv : Services)
    (systemMessages : list DebateMessage)
    (currentSides : AIPersona -> string) (currentQuestion : string)
    (sc : Script) (message : string) (evs : list Event) :
  generateScript (turnStream sv) systemMessages currentSides
    currentQuestion = inl sc ->
  webAudio sv = Some message ->
  let st := session sv systemMessages currentSides currentQuestion evs in
  phase st = IDLE /\ pc st = Returned /\ effects st = []
  /\ error st = Some (if Str.truthy message then message
                      else "Failed to start debate.")
  /\ last (console st)
     = Some ("Error creating AudioContext: " ++ message)%string
  /\ audioContextRef st = false.
Proof.
  intros Hgen Hweb st. subst st.
  destruct (failed_start sv systemMessages currentSides currentQuestion evs)
    as (Hp & Hpc & Heff & Hrun); [right; eauto|].
  split; [exact Hp|]. split; [exact Hpc|]. split; [exact Heff|].
  rewrite Hrun. unfold runDebate. rewrite Hgen. cbn [fst].
  unfold startPlayback, analyse. rewrite Hweb.
  destruct (Promise_all _ _ _) as [[s c]|m]; simpl;
    repeat split; try reflexivity; apply last_snoc.
Qed.

Lemma audio_context_failure_witness :
  let sv :=
    mkServices Scenario.service (Fulfilled Scenario.summaryOfDebate)
      (Fulfilled []) false (Some "AudioContext is not defined") in
  error (session sv Scenario.system Scenario.sides Scenario.question
           [ClickSkipToVoting])
  = Some "AudioContext is not defined".
Proof.
  intros sv.
  destruct (runTurns_total Scenario.service Scenario.system Scenario.sides
              Scenario.question debateTurns (startScript Scenario.system)
              (fun _ => eq_refl)
              (startScript_aligned Scenario.service Scenario.system))
    as [sc Hsc].
  destruct (audio_context_failure sv Scenario.system Scenario.sides
              Scenario.question sc "AudioContext is not defined"
              [ClickSkipToVoting] Hsc eq_refl)
    as (_ & _ & _ & Herr & _).
  exact Herr.
Defined.

(** X15: When the playback of turn [i] fails while the loop waits for it, no
    skip having been signalled, the loop is left at once: the error
    "Failed to play audio for a turn." is shown and the failure logged,
    no further audio is requested, and the phase moves to the vote, where
    it stays with the error shown. *)
Theorem playback_failure_aborts (sv : Services)
    (systemMessages : list DebateMessage)
    (currentSides : AIPersona -> string) (currentQuestion : string)
    (evs later : list Event) (i : nat) (err : string) :
  let run_session :=
    session sv systemMessages currentSides currentQuestion in
  let st := run_session evs in
  let st1 := run_session (evs ++ [DecodeFailed i err]) in
  let st2 := run_session (evs ++ DecodeFailed i err :: later) in
  pc st = AwaitPlay i -> i ∈ decoding st ->
  pc st1 = Returned /\ phase st1 = VOTING
  /\ error st1 = Some "Failed to play audio for a turn."
  /\ console st1
     = console st ++ [("Error during audio playback: " ++ err)%string]
  /\ effects st1 = effects st
  /\ pc st2 = Returned /\ phase st2 = VOTING
  /\ error st2 = Some "Failed to play audio for a turn."
  /\ console st2 = console st1
  /\ forall j, SpeechRequested j ∈ effects st2
               -> SpeechRequested j ∈ effects st.
Proof.
  intros run_session st st1 st2 Hpc Hdec.
  pose proof (wf_session sv systemMessages currentSides currentQuestion
                evs) as Hwf.
  fold run_session in Hwf. fold st in Hwf. unfold wf in Hwf.
  rewrite Hpc in Hwf. destruct Hwf as (Ht & Hs & Hp & Hi & Hpend & Hb).
  set (gm := scriptOf sv systemMessages currentSides currentQuestion).
  assert (H1 : st1 = step gm (length systemMessages) st (DecodeFailed i err))
    by apply session_snoc.
  assert (H2 : st2 = run gm (length systemMessages) st1 later)
    by (rewrite H1; apply session_cons).
  assert (Hst1 : pc st1 = Returned
                 /\ error st1 = Some "Failed to play audio for a turn."
                 /\ console st1
                    = console st
                      ++ [("Error during audio playback: " ++ err)%string]
                 /\ effects st1 = effects st /\ phase st1 = VOTING).
  { rewrite H1. clearbody st. clear H1 H2 st1 st2. simpl.
    rewrite (bool_decide_eq_true_2 _ Hdec). unfold playbackRejected.
    open_app st; simpl in *. subst. rewrite Nat.eqb_refl.
    repeat split; reflexivity. }
  destruct Hst1 as (Hpc1 & He1 & Hc1 & Hf1 & Hp1).
  destruct (returned_run sv systemMessages currentSides currentQuestion
              st1 later Hpc1 ltac:(rewrite Hp1; discriminate))
    as (Hpc2 & Hp2 & He2 & _ & _ & _ & _ & Hreq).
  destruct (returned_quiet_run gm (length systemMessages) st1 later Hpc1
              ltac:(rewrite Hp1; discriminate)) as (Hc2 & _).
  fold gm in Hpc2, Hp2, He2, Hreq. rewrite <- H2 in Hpc2, Hp2, He2, Hreq, Hc2.
  repeat split; try assumption; try congruence.
  intros j Hj. rewrite <- Hf1. apply Hreq, Hj.
Qed.

Lemma playback_failure_aborts_witness :
  let st1 :=
    session Scenario.services Scenario.system Scenario.sides
      Scenario.question
      [SpeechResolved 0 (Scenario.audio 0); DecodeFailed 0 "bad data"] in
  pc st1 = Returned
  /\ error st1 = Some "Failed to play audio for a turn.".
Proof.
  destruct (playback_failure_aborts Scenario.services Scenario.system
              Scenario.sides Scenario.question
              [SpeechResolved 0 (Scenario.audio 0)] [] 0 "bad data")
    as (Hpc & _ & Herr & _).
  - reflexivity.
  - apply (bool_decide_unpack _). vm_compute. exact I.
  - split; assumption.
Defined.

Section SkipFacts.

Variable generatedMessages : list DebateMessage.
Variable firstMessageOffset : nat.

Local Abbreviation step_ := (step generatedMessages firstMessageOffset).


Lemma loopTop_effects (j : nat) (st : App) :
  isSkippedRef st = false ->
  effects (loopTop generatedMessages firstMessageOffset j st)
  = match generatedMessages !! j with
    | Some _ => effects st ++ [SpeechRequested j]
    | None => effects st
    end.
Proof.
  intros Hs. unfold loopTop, exitLoop.
  destruct (generatedMessages !! j); rewrite ?Hs;
    open_app st; simpl in *; subst; reflexivity.
Qed.

End SkipFacts.

Section TraceSession.

Variable sv : Services.
Variable systemMessages : list DebateMessage.
Variable currentSides : AIPersona -> string.
Variable currentQuestion : string.

Local Abbreviation script :=
  (scriptOf sv systemMessages currentSides currentQuestion).
Local Abbreviation offset := (length systemMessages).


End TraceSession.





(** X18: After a click on "Skip to Voting" the component reports nothing
    any more: whatever the promises in flight do afterwards, rejections
    included, [runDebate] shows no error and prints no line of its own
    (the [catch] blocks of its two races are guarded by the skip flag;
    the line that [generateSpeech] prints itself when its request fails
    is not the component's and is not recorded in [console]), the status
    line stays empty and no message is highlighted. *)
Theorem skip_to_voting_is_silent (sv : Services)
    (systemMessages : list DebateMessage)
    (currentSides : AIPersona -> string) (currentQuestion : string)
    (evs later : list Event) :
  let run_session :=
    session sv systemMessages currentSides currentQuestion in
  let st := run_session evs in
  let st2 := run_session (evs ++ ClickSkipToVoting :: later) in
  pc st <> Returned ->
  error st2 = error st /\ console st2 = console st
  /\ statusText st2 = "" /\ speakingMessageIndex st2 = None.
Proof.
  intros run_session st st2 Hpc.
  pose proof (wf_session sv systemMessages currentSides currentQuestion
                evs) as Hwf.
  fold run_session in Hwf. fold st in Hwf.
  set (gm := scriptOf sv systemMessages currentSides currentQuestion).
  set (st1 := step gm (length systemMessages) st ClickSkipToVoting).
  assert (H2 : st2 = run gm (length systemMessages) st1 later)
    by apply session_cons.
  assert (Hst1 : pc st1 = Returned /\ phase st1 = VOTING
                 /\ error st1 = error st /\ console st1 = console st
                 /\ statusText st1 = ""
                 /\ speakingMessageIndex st1 = None).
  { subst st1. clearbody st. clear H2 st2. unfold wf in Hwf. simpl.
    unfold handleSkipToVoting, trigger, stopCurrent.
    open_app st; simpl in *.
    destruct pc_ as [j|j|]; [| |congruence];
      destruct Hwf as (Ht & Hs & Hp & _); subst; simpl;
      destruct current_; simpl; rewrite Nat.eqb_refl; simpl;
      repeat split; reflexivity. }
  destruct Hst1 as (Hpc1 & Hp1 & He1 & Hc1 & Hs1 & Hi1).
  destruct (returned_run sv systemMessages currentSides currentQuestion
              st1 later Hpc1 ltac:(rewrite Hp1; discriminate))
    as (_ & _ & He2 & _).
  destruct (returned_quiet_run gm (length systemMessages) st1 later Hpc1
              ltac:(rewrite Hp1; discriminate)) as (Hc2 & Hs2 & Hi2).
  fold gm in He2. rewrite <- H2 in He2, Hc2, Hs2, Hi2.
  repeat split; congruence.
Qed.

Lemma skip_to_voting_is_silent_witness :
  error
    (session Scenario.services Scenario.system Scenario.sides
       Scenario.question
       [ClickSkipToVoting; SpeechRejected 0 "Failed to generate audio."])
  = None.
Proof.
  destruct (skip_to_voting_is_silent Scenario.services Scenario.system
              Scenario.sides Scenario.question []
              [SpeechRejected 0 "Failed to generate audio."])
    as (Herr & _).
  - vm_compute. discriminate.
  - exact Herr.
Defined.

(** * Properties of the services *)

Section ServiceFacts.

Variable generateDebateTurnStream : TurnRequest -> Gen.Stream.
Variable systemMessages : list DebateMessage.
Variable currentSides : AIPersona -> string.
Variable currentQuestion : string.

(** In runs that complete and in runs that are aborted, the request of
    index [i] is the one of the turn of index [i]. *)
Lemma request_slot (st : Script) (i : nat) (req : TurnRequest) :
  match generateScript generateDebateTurnStream systemMessages currentSides
          currentQuestion with
  | inl st' | inr (st', _) => st' = st
  end ->
  requests st !! i = Some req ->
  exists turn,
    debateTurns !! i = Some turn
    /\ reqPersona req = turnPersona turn /\ reqStage req = stage turn.
Proof.
  intros Hst Hi.
  assert (Hpre : map slotOf (requests st)
                 `prefix_of` map (fun t => (turnPersona t, stage t))
                               debateTurns).
  { unfold generateScript in Hst.
    destruct (runTurns _ _ _ _ debateTurns _) as [st'|[st' e]] eqn:Hrun;
      subst st'.
    - destruct (runTurns_completed _ _ _ _ debateTurns _ _
                  (startScript_aligned generateDebateTurnStream
                     systemMessages) Hrun)
        as (_ & reqs & Hreqs & Hslots).
      simpl in Hreqs. subst reqs. rewrite Hslots. reflexivity.
    - destruct (runTurns_prefix _ _ _ _ debateTurns _ _ _ Hrun)
        as (reqs & Hreqs & Hpre).
      simpl in Hreqs. subst reqs. exact Hpre. }
  destruct Hpre as [k Hk].
  assert (Hl : map (fun t => (turnPersona t, stage t)) debateTurns !! i
               = Some (slotOf req)).
  { rewrite Hk. apply lookup_app_l_Some.
    change (map slotOf (requests st)) with (slotOf <$> requests st).
    rewrite list_lookup_fmap, Hi. reflexivity. }
  change (map (fun t => (turnPersona t, stage t)) debateTurns)
    with ((fun t => (turnPersona t, stage t)) <$> debateTurns) in Hl.
  rewrite list_lookup_fmap in Hl.
  destruct (debateTurns !! i) as [turn|]; [|discriminate].
  injection Hl as Hp Hs. exists turn. repeat split; congruence.
Qed.

Lemma debateTurns_speaker (i : nat) (turn : Turn) :
  debateTurns !! i = Some turn ->
  turnPersona turn = speakerOf i
  /\ (stage turn = "OPENING" \/ stage turn = "REBUTTAL"
      \/ stage turn = "CLOSING").
Proof.
  intros H.
  do 6 (destruct i as [|i]; [injection H as <-; simpl; auto|]).
  discriminate.
Qed.

Lemma promptOf_not_fallback (stage question : string) :
  stage = "OPENING" \/ stage = "REBUTTAL" \/ stage = "CLOSING" ->
  promptOf stage question <> fallbackPrompt.
Proof.
  intros [->|[->| ->]]; vm_compute; discriminate.
Qed.

End ServiceFacts.

(** X19: [generateSpeech] fulfils only with a non-empty string, the audio of
    the first part of the first candidate, and then logs nothing; in every
    other case (the call fails, or the response holds no audio or an empty
    one) it rejects with the one message "Failed to generate audio for
    the debate." and logs one line. *)
Theorem generateSpeech_outcomes (answer : Settled Tts.Response) :
  match generateSpeech answer with
  | (Fulfilled audioData, logged) =>
      Str.truthy audioData = true /\ logged = []
      /\ exists response,
          answer = Fulfilled response
          /\ base64AudioOf response = Some audioData
  | (Rejected err, logged) =>
      err = "Failed to generate audio for the debate."
      /\ length logged = 1%nat
      /\ forall response,
          answer = Fulfilled response ->
          match base64AudioOf response with
          | Some audioData => Str.truthy audioData = false
          | None => True
          end
  end.
Proof.
  unfold generateSpeech, guarded.
  destruct answer as [response|e].
  - destruct (base64AudioOf response) as [d|] eqn:Hd.
    + destruct (Str.truthy d) eqn:Ht.
      * repeat split; eauto.
      * repeat split. intros r [= <-]. rewrite Hd. exact Ht.
    + repeat split. intros r [= <-]. rewrite Hd. exact I.
  - repeat split. intros r H. discriminate.
Qed.

(** X20: How the loop takes a call of [generateSpeech] for the awaited
    turn, however it settles.  A rejection, also the one for an empty
    audio, leaves the loop with the error "Failed to generate audio for a
    turn." shown and logged.  An audio that [generateSpeech] returns is
    never empty, and the loop compares it by value with the two interrupt
    strings: the audio "voting" ends the playback in the voting phase and
    the audio "turn" takes the loop to the next turn, both without
    playing anything and without an error; every other audio is handed
    to the decoder of the turn. *)
Theorem speech_outcome_in_loop (sv : Services)
    (systemMessages : list DebateMessage)
    (currentSides : AIPersona -> string) (currentQuestion : string)
    (sc : Script) (evs : list Event) (i : nat)
    (answer : Settled Tts.Response) :
  generateScript (turnStream sv) systemMessages currentSides
    currentQuestion = inl sc ->
  webAudio sv = None ->
  let run_session :=
    session sv systemMessages currentSides currentQuestion in
  let st := run_session evs in
  let st1 := run_session (evs ++ [speechEvent i answer]) in
  pc st = AwaitAudio i ->
  match fst (generateSpeech answer) with
  | Rejected _ =>
      pc st1 = Returned /\ phase st1 = VOTING
      /\ error st1 = Some "Failed to generate audio for a turn."
      /\ last (console st1)
         = Some
             "Error during audio generation: Failed to generate audio for the debate."
      /\ effects st1 = effects st
  | Fulfilled audioData =>
      Str.truthy audioData = true /\ error st1 = None
      /\ match asInterrupt audioData with
         | None =>
             pc st1 = AwaitPlay i /\ i ∈ decoding st1
             /\ effects st1 = effects st
         | Some toVoting =>
             pc st1 = Returned /\ phase st1 = VOTING
             /\ (i ∉ decoding st1) /\ effects st1 = effects st
         | Some toTurn =>
             (i ∉ decoding st1)
             /\ match generatedMessages sc !! S i with
                | Some _ =>
                    pc st1 = AwaitAudio (S i)
                    /\ effects st1 = effects st ++ [SpeechRequested (S i)]
                | None =>
                    pc st1 = Returned /\ phase st1 = VOTING
                    /\ effects st1 = effects st
                end
         end
  end.
Proof.
  intros Hgen Hweb run_session st st1 Hpc.
  pose proof (wf_session sv systemMessages currentSides currentQuestion
                evs) as Hwf.
  pose proof (tracked_session sv systemMessages currentSides
                currentQuestion sc evs Hgen Hweb) as Htr.
  fold run_session in Hwf, Htr. fold st in Hwf, Htr.
  unfold wf in Hwf. unfold tracked in Htr. rewrite Hpc in Hwf, Htr.
  destruct Hwf as (Ht & Hs & Hp & Hi & Hpend & Hb).
  destruct Htr as (_ & _ & _ & Hctx & Herr).
  assert (Hsc : scriptOf sv systemMessages currentSides currentQuestion
                = generatedMessages sc)
    by (unfold scriptOf; rewrite Hgen; reflexivity).
  assert (H1 : st1 = step (generatedMessages sc) (length systemMessages) st
                       (speechEvent i answer))
    by (rewrite <- Hsc; apply session_snoc).
  rewrite H1. clearbody st. clear H1 st1.
  assert (Hdec : i ∉ decoding st)
    by (intros H; pose proof (Hb i (or_introl H)); lia).
  set (gm := generatedMessages sc) in *.
  set (st0 := setSpeechPending (settle i (speechPending st)) st).
  assert (H0 : isSkippedRef st0 = false /\ error st0 = None
               /\ decoding st0 = decoding st /\ effects st0 = effects st)
    by (subst st0; open_app st; simpl in *; auto).
  destruct H0 as (Hs0 & He0 & Hd0 & Hf0).
  assert (Hex : pc (exitLoop st0) = Returned /\ phase (exitLoop st0) = VOTING
                /\ error (exitLoop st0) = None
                /\ decoding (exitLoop st0) = decoding st
                /\ effects (exitLoop st0) = effects st).
  { destruct (exitLoop_voting st0 Hs0) as (? & ? & ? & _ & _ & ? & ?).
    repeat split; congruence. }
  assert (Hres : forall d,
             step gm (length systemMessages) st (SpeechResolved i d)
             = afterAudio gm (length systemMessages) i d st0).
  { intros d. simpl. rewrite (bool_decide_eq_true_2 _ Hpend).
    subst st0. open_app st; simpl in *. subst. rewrite Nat.eqb_refl.
    reflexivity. }
  unfold speechEvent, generateSpeech, guarded.
  destruct answer as [response|e];
    [destruct (base64AudioOf response) as [d|];
     [destruct (Str.truthy d) eqn:Hd|]|]; cbn [fst];
    try (simpl; rewrite (bool_decide_eq_true_2 _ Hpend);
         open_app st; simpl in *; subst; rewrite Nat.eqb_refl;
         repeat split; auto; apply last_snoc).
  rewrite Hres. unfold afterAudio.
  destruct (asInterrupt d) as [[]|]; cbn [afterInterrupt].
  - (* the audio is the string of the turn interrupt *)
    destruct (loopTop_cases gm (length systemMessages) (S i) st0 Hs0)
      as (He & _ & _ & Hcase).
    pose proof (loopTop_effects gm (length systemMessages) (S i) st0 Hs0)
      as Heff.
    destruct (loopTop_outputs gm (length systemMessages) (S i) st0)
      as [Hdd _].
    split; [exact Hd|]. split; [congruence|].
    split; [rewrite Hdd, Hd0; exact Hdec|].
    destruct (gm !! S i).
    + destruct Hcase as (Hpc1 & _). split; [exact Hpc1|]. congruence.
    + destruct Hcase as (Hpc1 & Hp1). repeat split; congruence.
  - (* the audio is the string of the voting interrupt *)
    destruct Hex as (Hpc1 & Hp1 & He1 & Hd1 & Hf1).
    repeat split; try assumption. rewrite Hd1. exact Hdec.
  - rewrite Hd. subst st0. open_app st; simpl in *. subst. simpl.
    repeat split; auto.
    apply elem_of_app. right. apply list_elem_of_singleton. reflexivity.
Qed.

Lemma speech_outcome_in_loop_witness :
  let st1 :=
    session Scenario.services Scenario.system Scenario.sides
      Scenario.question
      [speechEvent 0
         (Fulfilled
            (Tts.mkResponse
               (Some [Tts.mkCandidate
                        (Some (Tts.mkContent
                                 (Some [Tts.mkPart
                                          (Some (Tts.mkInlineData
                                                   (Some "turn")))])))])))]
  in
  error st1 = None /\ (0%nat ∉ decoding st1).
Proof.
  destruct (runTurns_total Scenario.service Scenario.system Scenario.sides
              Scenario.question debateTurns (startScript Scenario.system)
              (fun _ => eq_refl)
              (startScript_aligned Scenario.service Scenario.system))
    as [sc Hsc].
  destruct (speech_outcome_in_loop Scenario.services Scenario.system
              Scenario.sides Scenario.question sc [] 0
              (Fulfilled
                 (Tts.mkResponse
                    (Some [Tts.mkCandidate
                             (Some (Tts.mkContent
                                      (Some [Tts.mkPart
                                               (Some (Tts.mkInlineData
                                                        (Some "turn")))])))])))
              Hsc eq_refl eq_refl)
    as (_ & Herr & Hdec & _).
  split; assumption.
Defined.

(** X21: Every call of [generateDebateTurnStream] that [runDebate] makes is for
    the persona and the stage of its turn, so the prompt is the one of
    the opening, the rebuttal or the closing and never the fallback of
    the [switch]; the search tool is configured exactly for the turns of
    Logos, the turns of even index. *)
Theorem turn_prompts_never_fallback
    (generateDebateTurnStream : TurnRequest -> Gen.Stream)
    (systemMessages : list DebateMessage)
    (currentSides : AIPersona -> string) (currentQuestion : string) :
  match generateScript generateDebateTurnStream systemMessages currentSides
          currentQuestion with
  | inl st | inr (st, _) =>
      forall (i : nat) (req : TurnRequest),
        requests st !! i = Some req ->
        exists turn,
          debateTurns !! i = Some turn
          /\ chatMessage (chatRequestOf req)
             = promptOf (stage turn) currentQuestion
          /\ chatMessage (chatRequestOf req) <> fallbackPrompt
          /\ systemInstruction (chatRequestOf req)
             = personaSystemInstructions (speakerOf i)
                 (currentSides (speakerOf i))
          /\ googleSearch (chatRequestOf req) = Nat.even i
  end.
Proof.
  pose proof (generateScript_threaded generateDebateTurnStream
                systemMessages currentSides currentQuestion) as Hth.
  unfold threaded in Hth.
  pose proof (fun st => request_slot generateDebateTurnStream
                          systemMessages currentSides currentQuestion st)
    as Hslot.
  assert (H : forall st,
             (forall i req, requests st !! i = Some req ->
                exists turn,
                  debateTurns !! i = Some turn
                  /\ reqPersona req = turnPersona turn
                  /\ reqStage req = stage turn) ->
             (forall i req, requests st !! i = Some req ->
                reqHistory req
                = systemMessages ++ take i (generatedMessages st)
                /\ reqSide req = currentSides (reqPersona req)
                /\ reqQuestion req = currentQuestion) ->
             forall (i : nat) (req : TurnRequest),
               requests st !! i = Some req ->
               exists turn,
                 debateTurns !! i = Some turn
                 /\ chatMessage (chatRequestOf req)
                    = promptOf (stage turn) currentQuestion
                 /\ chatMessage (chatRequestOf req) <> fallbackPrompt
                 /\ systemInstruction (chatRequestOf req)
                    = personaSystemInstructions (speakerOf i)
                        (currentSides (speakerOf i))
                 /\ googleSearch (chatRequestOf req) = Nat.even i).
  { intros st Hs Hh i req Hi.
    destruct (Hs i req Hi) as (turn & Ht & Hp & Hg).
    destruct (Hh i req Hi) as (_ & Hside & Hq).
    destruct (debateTurns_speaker i turn Ht) as [Hsp Hst].
    exists turn. unfold chatRequestOf. cbn [chatMessage systemInstruction
                                              googleSearch].
    rewrite Hg, Hq, Hside, Hp, Hsp.
    repeat split; auto.
    - apply promptOf_not_fallback, Hst.
    - unfold speakerOf. destruct (Nat.even i); reflexivity. }
  destruct (generateScript _ _ _ _) as [st|[st e]];
    (apply H; [intros i req; apply Hslot; reflexivity|exact Hth]).
Qed.

Section TranscriptFacts.

Lemma speakerOf_same (i j : nat) :
  bool_decide (Persona (speakerOf j) = Persona (speakerOf i))
  = Nat.even (i + j).
Proof.
  rewrite Nat.even_add. unfold speakerOf.
  destruct (Nat.even i), (Nat.even j); reflexivity.
Qed.

Lemma filter_system_app (sys l : list DebateMessage) :
  Forall (fun m => persona m = SYSTEM) sys ->
  List.filter (fun msg => negb (bool_decide (persona msg = SYSTEM)))
    (sys ++ l)
  = List.filter (fun msg => negb (bool_decide (persona msg = SYSTEM))) l.
Proof.
  induction 1 as [|m sys Hm _ IH]; [reflexivity|].
  simpl. rewrite Hm. simpl. exact IH.
Qed.

Lemma filter_spoken (l : list DebateMessage) :
  Forall (fun m => persona m <> SYSTEM) l ->
  List.filter (fun msg => negb (bool_decide (persona msg = SYSTEM))) l = l.
Proof.
  induction 1 as [|m l Hm _ IH]; [reflexivity|].
  simpl. rewrite bool_decide_eq_false_2 by exact Hm. simpl.
  rewrite IH. reflexivity.
Qed.

(** The messages a completed script has generated: one per turn, spoken
    by the persona of the turn. *)
Lemma generated_speakers
    (generateDebateTurnStream : TurnRequest -> Gen.Stream)
    (systemMessages : list DebateMessage)
    (currentSides : AIPersona -> string) (currentQuestion : string)
    (st : Script) :
  match generateScript generateDebateTurnStream systemMessages currentSides
          currentQuestion with
  | inl st' | inr (st', _) => st' = st
  end ->
  forall (j : nat) (m : DebateMessage),
    generatedMessages st !! j = Some m ->
    persona m = Persona (speakerOf j)
    /\ exists req, requests st !! j = Some req
                   /\ m = messageOf generateDebateTurnStream req.
Proof.
  intros Hst j m Hj.
  assert (Hg : exists k, requests st
                         = k ++ drop (length (generatedMessages st))
                                  (requests st)
                         /\ generatedMessages st
                            = map (messageOf generateDebateTurnStream) k).
  { unfold generateScript in Hst.
    destruct (runTurns _ _ _ _ debateTurns _) as [st'|[st' e]] eqn:Hrun;
      subst st'.
    - destruct (runTurns_completed _ _ _ _ debateTurns _ _
                  (startScript_aligned generateDebateTurnStream
                     systemMessages) Hrun) as ((_ & _ & Hg) & _).
      exists (requests st). split; [|exact Hg].
      rewrite Hg, length_map, drop_all, app_nil_r. reflexivity.
    - clear Hj. revert Hrun.
      generalize (startScript_aligned generateDebateTurnStream
                    systemMessages).
      generalize (startScript systemMessages).
      induction debateTurns as [|turn turns IH]; intros s0 Hal Hrun;
        [discriminate|].
      cbn [runTurns] in Hrun.
      pose proof (runTurn_requests generateDebateTurnStream systemMessages
                    currentSides currentQuestion s0 turn) as Hreq.
      destruct (runTurn _ _ _ _ s0 turn) as [s1|[s1 e1]] eqn:Hturn.
      + pose proof (runTurn_inl_completed _ _ _ _ _ _ _ Hturn) as Hok.
        destruct (runTurn_completed _ _ currentSides currentQuestion s0
                    turn Hal Hok) as (s1' & Hs1 & Hal1 & _).
        rewrite Hturn in Hs1. injection Hs1 as <-.
        apply (IH s1 Hal1 Hrun).
      + injection Hrun as <- <-. destruct Hreq as [Hreq Hgen].
        destruct Hal as (_ & _ & Hg).
        exists (requests s0). rewrite Hgen. split; [|exact Hg].
        rewrite Hreq. f_equal.
        rewrite Hg, length_map, drop_app_length. reflexivity. }
  destruct Hg as (k & Hk & Hg).
  rewrite Hg in Hj.
  change (map (messageOf generateDebateTurnStream) k)
    with (messageOf generateDebateTurnStream <$> k) in Hj.
  rewrite list_lookup_fmap in Hj.
  destruct (k !! j) as [req|] eqn:Hkj; [|discriminate].
  injection Hj as <-.
  assert (Hr : requests st !! j = Some req)
    by (rewrite Hk; apply lookup_app_l_Some, Hkj).
  destruct (request_slot generateDebateTurnStream systemMessages
              currentSides currentQuestion st j req Hst Hr)
    as (turn & Ht & Hp & _).
  destruct (debateTurns_speaker j turn Ht) as [Hsp _].
  split; [|eauto]. simpl. rewrite Hp, Hsp. reflexivity.
Qed.

End TranscriptFacts.

(** X22: In the chat history of a turn's request the system messages are of
    role user, and the message of an earlier turn is of role model when
    that turn was one of the requesting persona (the two indices have
    the same parity) and of role user when it was the opponent's. *)
Theorem chat_roles_alternate
    (generateDebateTurnStream : TurnRequest -> Gen.Stream)
    (systemMessages : list DebateMessage)
    (currentSides : AIPersona -> string) (currentQuestion : string) :
  Forall (fun m => persona m = SYSTEM) systemMessages ->
  match generateScript generateDebateTurnStream systemMessages currentSides
          currentQuestion with
  | inl st | inr (st, _) =>
      forall (i : nat) (req : TurnRequest),
        requests st !! i = Some req ->
        chatHistory (chatRequestOf req)
        = map (fun m => ("user"%string, text m)) systemMessages
          ++ imap (fun j m =>
                     ((if Nat.even (i + j) then "model" else "user")%string,
                      text m))
               (take i (generatedMessages st))
  end.
Proof.
  intros Hsys.
  pose proof (generateScript_threaded generateDebateTurnStream
                systemMessages currentSides currentQuestion) as Hth.
  pose proof (fun st => request_slot generateDebateTurnStream
                          systemMessages currentSides currentQuestion st)
    as Hslot.
  pose proof (fun st => generated_speakers generateDebateTurnStream
                          systemMessages currentSides currentQuestion st)
    as Hgen.
  assert (H : forall st,
             threaded systemMessages currentSides currentQuestion st ->
             (forall i req, requests st !! i = Some req ->
                exists turn,
                  debateTurns !! i = Some turn
                  /\ reqPersona req = turnPersona turn
                  /\ reqStage req = stage turn) ->
             (forall j m, generatedMessages st !! j = Some m ->
                persona m = Persona (speakerOf j)
                /\ exists req, requests st !! j = Some req
                               /\ m = messageOf generateDebateTurnStream
                                        req) ->
             forall (i : nat) (req : TurnRequest),
               requests st !! i = Some req ->
               chatHistory (chatRequestOf req)
               = map (fun m => ("user"%string, text m)) systemMessages
                 ++ imap (fun j m =>
                            ((if Nat.even (i + j) then "model"
                              else "user")%string, text m))
                      (take i (generatedMessages st))).
  { intros st Ht Hs Hg i req Hi.
    destruct (Ht i req Hi) as (Hh & _).
    destruct (Hs i req Hi) as (turn & Hturn & Hp & _).
    destruct (debateTurns_speaker i turn Hturn) as [Hsp _].
    unfold chatRequestOf. cbn [chatHistory]. rewrite Hh, map_app.
    f_equal.
    - clear -Hsys. induction Hsys as [|m l Hm _ IH]; [reflexivity|].
      simpl. rewrite IH. unfold roleOf. rewrite Hm. reflexivity.
    - apply list_eq. intros j.
      change (map ?f ?l) with (f <$> l).
      rewrite list_lookup_fmap, list_lookup_imap.
      destruct (take i (generatedMessages st) !! j) as [m|] eqn:Hj;
        [|reflexivity].
      apply lookup_take_Some in Hj as [Hj _].
      destruct (Hg j m Hj) as [Hm _].
      simpl. unfold roleOf. rewrite Hm, Hp, Hsp, speakerOf_same.
      reflexivity. }
  destruct (generateScript _ _ _ _) as [st|[st e]];
    (apply H; [exact Hth|intros i req; apply Hslot; reflexivity
              |intros j m; apply Hgen; reflexivity]).
Qed.

Lemma chat_roles_alternate_witness :
  exists st,
    generateScript Scenario.service Scenario.system Scenario.sides
      Scenario.question = inl st
    /\ forall req,
        requests st !! 2%nat = Some req ->
        map fst (chatHistory (chatRequestOf req))
        = ["user"; "user"; "user"; "model"; "user"]%string.
Proof.
  pose proof (chat_roles_alternate Scenario.service Scenario.system
                Scenario.sides Scenario.question
                ltac:(repeat constructor)) as H.
  destruct (runTurns_total Scenario.service Scenario.system Scenario.sides
              Scenario.question debateTurns (startScript Scenario.system)
              (fun _ => eq_refl)
              (startScript_aligned Scenario.service Scenario.system))
    as [st Hst].
  exists st. split; [exact Hst|].
  unfold generateScript in H. rewrite Hst in H.
  intros req Hreq. rewrite (H 2%nat req Hreq).
  pose proof (script_length Scenario.services Scenario.system
                Scenario.sides Scenario.question st Hst) as Hlen.
  unfold scriptOf in Hlen. cbn [turnStream Scenario.services] in Hlen.
  unfold generateScript in Hlen. rewrite Hst in Hlen.
  destruct (generatedMessages st) as [|m0 [|m1 l]];
    try discriminate Hlen.
  reflexivity.
Defined.

(** X23: The transcript that goes into the prompts of the summary, the
    comparison and the judge leaves the system messages out and holds one
    line per generated message, the name of the speaker, a colon and the
    whole text of the turn (what its chunks appended: the text of a
    chunk, the string "undefined" for a chunk without a text part), in
    the order of the turns, with Logos and Pathos alternating; it is the
    same for the history of part 1 and for the messages on the screen. *)
Theorem transcript_of_debate
    (generateDebateTurnStream : TurnRequest -> Gen.Stream)
    (systemMessages : list DebateMessage)
    (currentSides : AIPersona -> string) (currentQuestion : string)
    (st : Script) :
  Forall (fun m => persona m = SYSTEM) systemMessages ->
  generateScript generateDebateTurnStream systemMessages currentSides
    currentQuestion = inl st ->
  debateTranscript (currentHistory st)
  = join lf (map transcriptLine (generatedMessages st))
  /\ debateTranscript (messages st) = debateTranscript (currentHistory st)
  /\ length (generatedMessages st) = 6%nat
  /\ forall (j : nat) (m : DebateMessage),
      generatedMessages st !! j = Some m ->
      exists req,
        requests st !! j = Some req
        /\ transcriptLine m
           = (personaName (Persona (speakerOf j)) ++ ": "
              ++ concatTexts (Gen.chunks (generateDebateTurnStream req)))%string.
Proof.
  intros Hsys Hgen.
  pose proof Hgen as Hrun. unfold generateScript in Hrun.
  destruct (runTurns_completed _ _ _ _ debateTurns _ _
              (startScript_aligned generateDebateTurnStream systemMessages)
              Hrun) as ((Hh & Hm & Hg) & reqs & Hreqs & Hslots).
  simpl in Hreqs. subst reqs.
  assert (Hsp : forall j m,
             generatedMessages st !! j = Some m ->
             persona m = Persona (speakerOf j)
             /\ exists req, requests st !! j = Some req
                            /\ m = messageOf generateDebateTurnStream req).
  { apply (generated_speakers generateDebateTurnStream systemMessages
             currentSides currentQuestion st). rewrite Hgen. reflexivity. }
  assert (Hspoken : Forall (fun m => persona m <> SYSTEM)
                      (generatedMessages st)).
  { apply Forall_lookup. intros j m Hj. destruct (Hsp j m Hj) as [-> _].
    discriminate. }
  assert (Ht : debateTranscript (currentHistory st)
               = join lf (map transcriptLine (generatedMessages st))).
  { unfold debateTranscript. rewrite Hh, filter_system_app by exact Hsys.
    rewrite filter_spoken by exact Hspoken. reflexivity. }
  split; [exact Ht|]. split; [rewrite Hm, Hh; reflexivity|]. split.
  - rewrite Hg, length_map. apply (f_equal length) in Hslots.
    rewrite length_map in Hslots. exact Hslots.
  - intros j m Hj. destruct (Hsp j m Hj) as (Hp & req & Hr & ->).
    exists req. split; [exact Hr|]. unfold transcriptLine.
    rewrite Hp. f_equal. f_equal. unfold messageOf, finalMessage.
    cbn [text]. unfold reduceStream.
    rewrite fold_consumeChunk_fullText. reflexivity.
Qed.

Lemma transcript_of_debate_witness :
  exists st,
    generateScript Scenario.service Scenario.system Scenario.sides
      Scenario.question = inl st
    /\ length (generatedMessages st) = 6%nat.
Proof.
  destruct (runTurns_total Scenario.service Scenario.system Scenario.sides
              Scenario.question debateTurns (startScript Scenario.system)
              (fun _ => eq_refl)
              (startScript_aligned Scenario.service Scenario.system))
    as [st Hst].
  exists st. split; [exact Hst|].
  apply (transcript_of_debate Scenario.service Scenario.system
           Scenario.sides Scenario.question st); [|exact Hst].
  repeat constructor.
Defined.

(** X24: Under a message the debate view lists at most three sources: none
    while the message is streamed, whatever has been collected by then,
    and for a final message the first three of the uris cited in its
    stream, in the order of their first occurrence and without
    repetition. *)
Theorem at_most_three_sources_shown (p : AIPersona) (cs : list Gen.Chunk)
    (tempMessage : DebateMessage) :
  shownSources (finalMessage p (reduceStream cs))
  = take 3 (Citations.firstSeen [] (Citations.candidatesOf cs))
  /\ (length (shownSources (finalMessage p (reduceStream cs))) <= 3)%nat
  /\ NoDup (map uri (shownSources (finalMessage p (reduceStream cs))))
  /\ (isStreaming tempMessage = Some true ->
      shownSources (shownWhileStreaming tempMessage cs) = []).
Proof.
  assert (Hnew : tracks [] newReducer).
  { intros v. simpl. rewrite elem_of_empty, elem_of_nil. reflexivity. }
  assert (Hc : collected (reduceStream cs)
               = Citations.firstSeen [] (Citations.candidatesOf cs)).
  { unfold reduceStream.
    rewrite (fold_consumeChunk_firstSeen cs newReducer [] Hnew).
    reflexivity. }
  assert (H : shownSources (finalMessage p (reduceStream cs))
              = take 3 (Citations.firstSeen []
                          (Citations.candidatesOf cs))).
  { unfold shownSources, finalMessage. cbn [sources isStreaming].
    rewrite Hc.
    destruct (Citations.firstSeen [] (Citations.candidatesOf cs));
      reflexivity. }
  split; [exact H|]. rewrite H. split; [|split].
  - rewrite length_take. lia.
  - destruct (firstSeen_fresh [] (Citations.candidatesOf cs)) as [Hnd _].
    change (map uri ?l) with (uri <$> l) in *.
    rewrite fmap_take.
    rewrite <- (take_drop 3 (uri <$> _)) in Hnd.
    apply NoDup_app in Hnd as [Hnd _]. exact Hnd.
  - intros Hs. unfold shownSources, shownWhileStreaming.
    destruct cs as [|c cs']; cbn [sources isStreaming]; rewrite Hs.
    + destruct (sources tempMessage) as [[|? ?]|]; reflexivity.
    + destruct (sourcesOrUndefined _) as [[|? ?]|]; reflexivity.
Qed.

Lemma at_most_three_sources_shown_witness :
  shownSources
    (shownWhileStreaming
       (mkMessage (Persona Logos) "..." (Some true) None)
       [Citations.fragment "Rights follow "
          [Citations.cite "https://example.org/a" "First"]])
  = [].
Proof.
  apply (proj2 (proj2 (proj2
           (at_most_three_sources_shown Logos
              [Citations.fragment "Rights follow "
                 [Citations.cite "https://example.org/a" "First"]]
              (mkMessage (Persona Logos) "..." (Some true) None))))).
  reflexivity.
Defined.

(** * Properties of the start, vote and reset handlers *)

Section PageFacts.

Lemma trimEnd_blank (s : string) :
  Str.truthy (trimEnd s) = negb (blank s).
Proof.
  induction s as [|c r IH]; [reflexivity|]. simpl.
  destruct (trimEnd r) as [|c' r'] eqn:Hr; simpl in IH.
  - destruct (blank r); [|discriminate].
    destruct (Str.is_space c); reflexivity.
  - destruct (blank r); [discriminate|].
    rewrite andb_false_r. reflexivity.
Qed.

Lemma trim_blank (s : string) : Str.truthy (trim s) = negb (blank s).
Proof.
  unfold trim. rewrite trimEnd_blank. f_equal.
  induction s as [|c r IH]; [reflexivity|]. simpl.
  destruct (Str.is_space c) eqn:Hc; [exact IH|].
  simpl. rewrite Hc. reflexivity.
Qed.

End PageFacts.

(** X25: A debate is started only for a question that is not blank and whose
    stances could be determined.  For a question of white space only, the
    empty one included, the handler shows "Please enter a question to
    debate." and leaves everything else as it is, whatever the services
    would answer; when [getDebateSides] fails, for whatever reason, the
    user sees "Could not analyze the question. Please try a different
    one.", the phase is idle again, and neither a message nor a request
    for audio exists. *)
Theorem debate_not_started (question : string)
    (sidesBody : Settled (string * string)) (sv : Services) :
  let p := handleStartDebate question sidesBody sv in
  (blank question = true ->
   p = Page.mk
         (setError (Some "Please enter a question to debate.") initialApp)
         question (Page.sides initialPage) [] None None)
  /\ (blank question = false ->
      forall e, sidesBody = Rejected e ->
      phase (Page.app p) = IDLE
      /\ error (Page.app p)
         = Some "Could not analyze the question. Please try a different one."
      /\ console (Page.app p)
         = [("Error getting debate sides: " ++ e)%string]
      /\ Page.messages p = [] /\ effects (Page.app p) = []
      /\ pc (Page.app p) = Returned).
Proof.
  intros p. subst p. unfold handleStartDebate. rewrite trim_blank. split.
  - intros ->. reflexivity.
  - intros -> e ->. simpl. repeat split; reflexivity.
Qed.

Lemma debate_not_started_witness :
  error (Page.app (handleStartDebate "   " (Fulfilled ("a", "b")%string)
                     Scenario.services))
  = Some "Please enter a question to debate.".
Proof.
  rewrite (proj1 (debate_not_started "   " (Fulfilled ("a", "b")%string)
                    Scenario.services) eq_refl).
  reflexivity.
Defined.

(** X26: For a question that is not blank and stances that could be
    determined, the handler runs [runDebate] on three system messages,
    the topic and the two stances; when the script is generated the page
    shows these three followed by the six turns, so that the message of
    turn [i] is at index [3 + i], and the transcript that [handleVote]
    makes from the messages on the page holds the six turns only. *)
Theorem debate_started_page (question sideA sideB : string)
    (sv : Services) (sc : Script) :
  blank question = false ->
  let currentSides :=
    fun p => match p with Logos => sideA | Pathos => sideB end in
  let systemMessages := systemMessagesOf question sideA sideB in
  let p := handleStartDebate question (Fulfilled (sideA, sideB)) sv in
  generateScript (turnStream sv) systemMessages currentSides question
    = inl sc ->
  Page.app p = session sv systemMessages currentSides question []
  /\ Page.sides p Logos = sideA /\ Page.sides p Pathos = sideB
  /\ Page.messages p = systemMessages ++ generatedMessages sc
  /\ length (Page.messages p) = 9%nat
  /\ (forall i, Page.messages p !! (3 + i)%nat = generatedMessages sc !! i)
  /\ debateTranscript (Page.messages p)
     = join lf (map transcriptLine (generatedMessages sc)).
Proof.
  intros Hq currentSides systemMessages p Hgen.
  assert (Hp : Page.messages p
               = snd (runDebate sv systemMessages currentSides question)
               /\ Page.app p
                  = fst (runDebate sv systemMessages currentSides
                           question)
               /\ Page.sides p = currentSides).
  { subst p. unfold handleStartDebate. rewrite trim_blank, Hq. simpl.
    fold systemMessages. fold currentSides.
    destruct (runDebate sv systemMessages currentSides question).
    repeat split; reflexivity. }
  destruct Hp as (Hm & Ha & Hs).
  destruct (script_of sv systemMessages currentSides question sc Hgen)
    as [Hsc Hshown].
  pose proof (script_length sv systemMessages currentSides question sc
                Hgen) as Hlen.
  rewrite Hsc in Hlen.
  assert (Hmsg : Page.messages p = systemMessages ++ generatedMessages sc)
    by (rewrite Hm; exact Hshown).
  split; [exact Ha|]. split; [rewrite Hs; reflexivity|].
  split; [rewrite Hs; reflexivity|]. split; [exact Hmsg|].
  split; [rewrite Hmsg, length_app, Hlen; reflexivity|]. split.
  - intros i. rewrite Hmsg.
    change (3 + i)%nat with (length systemMessages + i)%nat.
    rewrite lookup_app_r by lia. f_equal. lia.
  - rewrite Hmsg. unfold debateTranscript.
    rewrite filter_system_app by (repeat constructor).
    rewrite filter_spoken; [reflexivity|].
    apply Forall_lookup. intros j m Hj.
    destruct (generated_speakers (turnStream sv) systemMessages
                currentSides question sc ltac:(rewrite Hgen; reflexivity)
                j m Hj) as [-> _].
    discriminate.
Qed.

Lemma debate_started_page_witness :
  exists sc,
    Page.messages
      (handleStartDebate Scenario.question
         (Fulfilled ("AI should have rights.",
                     "AI should not have rights.")%string)
         Scenario.services)
    = systemMessagesOf Scenario.question "AI should have rights."
        "AI should not have rights."
      ++ generatedMessages sc.
Proof.
  destruct (runTurns_total Scenario.service
              (systemMessagesOf Scenario.question "AI should have rights."
                 "AI should not have rights.")
              (fun p => match p with
                        | Logos => "AI should have rights."%string
                        | Pathos => "AI should not have rights."%string
                        end)
              Scenario.question debateTurns
              (startScript
                 (systemMessagesOf Scenario.question
                    "AI should have rights." "AI should not have rights."))
              (fun _ => eq_refl)
              (startScript_aligned Scenario.service _))
    as [sc Hsc].
  exists sc.
  apply (debate_started_page Scenario.question "AI should have rights."
           "AI should not have rights." Scenario.services sc eq_refl Hsc).
Defined.

(** X27: A failure of the judge does not end the vote: the phase is the vote
    again, the error "The AI Judge failed to score the debate. Please try
    again." is shown, the score data and the analysis are as before and
    the buttons stay enabled; a second vote that the judge answers ends
    in the results with the verdict of that answer, which is the verdict
    a first vote would have given and does not depend on the persona
    voted for. *)
Theorem vote_failure_allows_retry (persona persona' : AIPersona)
    (e : string) (logos pathos : list Score) (p : Page.State) :
  phase (Page.app p) = VOTING -> voteDisabled (Page.app p) = false ->
  let failed := handleVote persona (Rejected e) p in
  let retried := handleVote persona' (Fulfilled (logos, pathos)) failed in
  phase (Page.app failed) = VOTING
  /\ error (Page.app failed)
     = Some "The AI Judge failed to score the debate. Please try again."
  /\ Page.scoreData failed = Page.scoreData p
  /\ Page.userVote failed = Some persona
  /\ voteDisabled (Page.app failed) = false
  /\ phase (Page.app retried) = FINISHED
  /\ Page.userVote retried = Some persona'
  /\ Page.scoreData retried = Some (verdict logos pathos)
  /\ Page.scoreData retried
     = Page.scoreData (handleVote persona (Fulfilled (logos, pathos)) p)
  /\ Page.messages retried = Page.messages p.
Proof.
  intros Hp Hv failed retried. subst failed retried.
  destruct p as [a q s m u d]. simpl in *.
  unfold voteDisabled in *. open_app a; simpl in *. subst.
  repeat split; try reflexivity. exact Hv.
Qed.

Lemma vote_failure_allows_retry_witness :
  let p :=
    Page.mk
      (setComparison (Some [])
         (setSummary (Some Scenario.summaryOfDebate)
            (setPhase VOTING initialApp)))
      Scenario.question Scenario.sides Scenario.system None None in
  phase (Page.app
           (handleVote Pathos
              (Fulfilled (rubricAllFive (fun _ => ""%string),
                          rubricAllFive (fun _ => ""%string)))
              (handleVote Logos (Rejected "quota exceeded") p)))
  = FINISHED.
Proof.
  intros p.
  destruct (vote_failure_allows_retry Logos Pathos "quota exceeded"
              (rubricAllFive (fun _ => ""%string))
              (rubricAllFive (fun _ => ""%string)) p eq_refl eq_refl)
    as (_ & _ & _ & _ & _ & H & _).
  exact H.
Defined.

(** X28: [handleReset] takes the component from any state back to the state
    in which it was mounted, but for the stances of the last debate and
    the audio context, which it keeps: the phase is idle, question,
    messages, error, vote, scores, status, highlight and analysis are
    cleared, the skip flag is unset, and a source that is still playing
    is stopped; resetting twice is resetting once. *)
Theorem reset_restores_mounted_state (p : Page.State) :
  let r := handleReset p in
  phase (Page.app r) = phase initialApp
  /\ error (Page.app r) = None /\ statusText (Page.app r) = ""%string
  /\ speakingMessageIndex (Page.app r) = None
  /\ summary (Page.app r) = None /\ comparison (Page.app r) = None
  /\ isSkippedRef (Page.app r) = false
  /\ currentAudioSourceRef (Page.app r) = None
  /\ Page.question r = ""%string /\ Page.messages r = []
  /\ Page.userVote r = None /\ Page.scoreData r = None
  /\ Page.sides r = Page.sides p
  /\ audioContextRef (Page.app r) = audioContextRef (Page.app p)
  /\ effects (Page.app r)
     = effects (Page.app p)
       ++ match currentAudioSourceRef (Page.app p) with
          | Some j => [SourceStopped j]
          | None => []
          end
  /\ handleReset r = r.
Proof.
  destruct p as [a q s m u d]. unfold handleReset. simpl.
  open_app a; simpl.
  destruct current_; simpl; rewrite ?app_nil_r; repeat split; reflexivity.
Qed.
